(** * Regression-tree growing of the boosting engine (TreeRegressor.cpp)

    A shallow embedding of [TreeRegressor.cpp]: the biased coin of the
    samplers, the histogram split evaluator, candidate construction, the
    best-first grower with its arena of split nodes and its frontier, and
    the materializer with the feature importances.

    Conventions of the embedding.
    - [double] is IEEE binary64, modelled by Rocq's primitive floats, so
      every arithmetic expression of the source is evaluated with the
      source's rounding, infinities and NaN.
    - [int] is modelled by [Z].  Signed overflow is undefined in C++ and is
      not modelled; conversions of an [int] to [size_t] (the comparisons
      of a [size()] with an [int]) are written out modulo [2^64], and the
      conversion to [uint16_t] modulo [2^16].
    - A [SplitNode*] is an index into [allSplits_], the arena every node is
      pushed on when it is created; [NULL] is [None].
    - [rand()] reads the next element of an explicit stream of draws.
    - A failed [CHECK] aborts: the computation returns [Abort]. *)

From Stdlib Require Import ZArith List Lia Bool Floats Permutation Sorted.
Import ListNotations.

Local Open Scope Z_scope.

(** ** Doubles *)

Definition double := float.

(** Conversion of an [int] to [double] (exact on the range of [int]). *)
Definition Z2double (z : Z) : double :=
  if z <? 0 then (- of_uint63 (Uint63.of_Z (- z)))%float
  else of_uint63 (Uint63.of_Z z).

(** Keys that order the non-NaN floats: [SFcompare] is the lexicographic
    comparison of the keys. *)
Definition fkey (x : spec_float) : option (Z * Z * Z) :=
  match x with
  | S754_zero _ => Some (0, 0, 0)
  | S754_infinity s => Some (if s then (-2) else 2, 0, 0)
  | S754_nan => None
  | S754_finite s m e => Some (if s then (-1, - e, Z.neg m) else (1, e, Z.pos m))
  end.

Definition lexcmp (a b : Z * Z * Z) : comparison :=
  let '(a1, a2, a3) := a in
  let '(b1, b2, b3) := b in
  match a1 ?= b1 with
  | Eq => match a2 ?= b2 with
          | Eq => a3 ?= b3
          | c => c
          end
  | c => c
  end.

Definition lexlt (a b : Z * Z * Z) : Prop :=
  let '(a1, a2, a3) := a in
  let '(b1, b2, b3) := b in
  a1 < b1 \/ (a1 = b1 /\ (a2 < b2 \/ (a2 = b2 /\ a3 < b3))).

Definition key (x : double) : option (Z * Z * Z) := fkey (Prim2SF x).

(** ** Indexing with an [int] *)

(** [v[i]] for reading; the source does not check the index, the model
    returns [d] outside the vector. *)
Definition zth {A} (l : list A) (i : Z) (d : A) : A :=
  if i <? 0 then d else nth (Z.to_nat i) l d.

(** [v[i]] where the model tracks an index outside the vector. *)
Definition zth_error {A} (l : list A) (i : Z) : option A :=
  if i <? 0 then None else nth_error l (Z.to_nat i).

Fixpoint upd_nth {A} (l : list A) (n : nat) (f : A -> A) : list A :=
  match l, n with
  | [], _ => []
  | x :: t, O => f x :: t
  | x :: t, S n' => x :: upd_nth t n' f
  end.

(** [v[i] = f (v[i])]; nothing is written outside the vector. *)
Definition zupd {A} (l : list A) (i : Z) (f : A -> A) : list A :=
  if i <? 0 then l else upd_nth l (Z.to_nat i) f.

(** [v.erase(v.begin() + pos)]. *)
Definition erase {A} (l : list A) (pos : nat) : list A :=
  firstn pos l ++ skipn (S pos) l.

(** ** The data set (DataSet.h) *)

Inductive FeatureEncoding := EMPTY | BYTE | SHORT.

(** Modelled from the spec: the feature record of DataSet.h, which is not
    among the sources; these are the members TreeRegressor.cpp reads: the
    encoding, the bin boundaries and the two vectors of encoded values
    ([uint8_t] codes in [bvec], [uint16_t] codes in [svec]). *)
Record Feature := {
  encoding : FeatureEncoding;
  transitions : list double;
  bvec : list Z;
  svec : list Z
}.

(** Modelled from the spec: the data set of DataSet.h, with the members
    TreeRegressor.cpp reads ([getNumExamples()], [numFeatures_],
    [features_]). *)
Record DataSet := {
  numExamples : Z;
  numFeatures_ : Z;
  features_ : list Feature
}.

(** The vector of codes the encoding designates. *)
Definition fvec (f : Feature) : list Z :=
  match encoding f with
  | BYTE => bvec f
  | _ => svec f
  end.

Definition encoding_eqb (a b : FeatureEncoding) : bool :=
  match a, b with
  | EMPTY, EMPTY | BYTE, BYTE | SHORT, SHORT => true
  | _, _ => false
  end.

Definition code_bound (e : FeatureEncoding) : Z :=
  match e with
  | BYTE => 256
  | _ => 65536
  end.

(** What the collaborators guarantee of a data set: [numFeatures_]
    features; for every feature that is not [EMPTY], one code per example
    in the vector of its encoding, each code in the range of the code type,
    and bin indices that fit the [uint16_t] threshold of a split node. *)
Definition wf_Feature (n : Z) (f : Feature) : bool :=
  match encoding f with
  | EMPTY => true
  | e =>
      (Z.of_nat (length (fvec f)) =? n)
      && forallb (fun c => (0 <=? c) && (c <? code_bound e)) (fvec f)
      && (Z.of_nat (length (transitions f)) <=? 65536)
  end.

Definition wf_DataSet (ds : DataSet) : bool :=
  (Z.of_nat (length (features_ ds)) =? numFeatures_ ds)
  && forallb (wf_Feature (numExamples ds)) (features_ ds).

(** ** Split nodes, output tree, histogram (TreeRegressor.h, Tree.h) *)

(** Modelled from the spec: [TreeRegressor::SplitNode] of TreeRegressor.h;
    the members are those its constructor in TreeRegressor.cpp
    initialises.  [left] and [right] point into the arena. *)
Record SplitNode := {
  subset : list Z;
  fid : Z;
  fv : Z;
  gain : double;
  selected : bool;
  left : option nat;
  right : option nat
}.

(** [SplitNode::SplitNode(st)]. *)
Definition new_SplitNode (st : list Z) : SplitNode :=
  {| subset := st; fid := -1; fv := 0; gain := 0%float; selected := false;
     left := None; right := None |}.

(** Modelled from the spec: the output nodes of Tree.h ([LeafNode],
    [PartitionNode] with its two children and its vote); a child can be a
    null pointer. *)
#[warnings="-register-all"]
Inductive TreeNode :=
| LeafNode (fvote : double)
| PartitionNode (pfid : Z) (pfv : Z) (vote : double)
    (pleft pright : option TreeNode).

(** Modelled from the spec: [TreeRegressor::Histogram] of TreeRegressor.h:
    per bin a count and a sum of targets, and the totals of the subset. *)
Record Histogram := {
  num : Z;
  cnt : list Z;
  sumy : list double;
  totalCnt : Z;
  totalSum : double
}.

(** Modelled from the spec: the constructor [Histogram(n, cnt, sum)], all
    bins empty. *)
Definition new_Histogram (n : Z) (c : Z) (s : double) : Histogram :=
  {| num := n; cnt := repeat 0 (Z.to_nat n);
     sumy := repeat 0%float (Z.to_nat n); totalCnt := c; totalSum := s |}.

(** ** Outcomes *)

Inductive CheckSite :=
| CHECK_encoding_SHORT      (* CHECK(f.encoding == SHORT) *)
| CHECK_hist_num            (* CHECK(hist.num >= 1) *)
| CHECK_sample_size         (* CHECK(subset->size() >= min_leaf_examples * numLeaves) *)
| CHECK_leaf_size           (* CHECK(split->subset->size() >= min_leaf_examples) *)
| CHECK_frontier_size       (* CHECK(frontiers_.size() == numSelected+1) *)
| CHECK_bestGain_positive.  (* CHECK(bestGain > 0.0) *)

Inductive Failure :=
| CheckFailed (c : CheckSite)  (* the process aborts with a diagnostic *)
| OutOfBounds                  (* an index or pointer outside its object *)
| OutOfFuel.                   (* the bound of a modelled loop was too small *)

Inductive Res (A : Type) :=
| OK (a : A)
| Abort (f : Failure).
Arguments OK {A} a.
Arguments Abort {A} f.

(** The mutable state: the members of the regressor and the position in
    the stream of [rand()]. *)
Record World := {
  allSplits_ : list SplitNode;
  frontiers_ : list nat;
  randPos : nat
}.

Definition fresh_World : World :=
  {| allSplits_ := []; frontiers_ := []; randPos := 0 |}.

Definition M (A : Type) := World -> Res (A * World).

Definition ret {A} (a : A) : M A := fun w => OK (a, w).

Definition bind {A B} (m : M A) (k : A -> M B) : M B :=
  fun w => match m w with
           | OK (a, w') => k a w'
           | Abort f => Abort f
           end.

Definition fail {A} (f : Failure) : M A := fun _ => Abort f.

Definition CHECK (b : bool) (c : CheckSite) : M unit :=
  if b then ret tt else fail (CheckFailed c).

Definition lift {A} (r : Res A) : M A :=
  fun w => match r with
           | OK a => OK (a, w)
           | Abort f => Abort f
           end.

Definition lift_opt {A} (o : option A) : M A :=
  match o with
  | Some a => ret a
  | None => fail OutOfBounds
  end.

Declare Scope tree_scope.
Delimit Scope tree_scope with tree.
Notation "x <- c1 ;; c2" := (bind c1 (fun x => c2))
  (at level 61, c1 at next level, right associativity) : tree_scope.
Notation "' pat <- c1 ;; c2" := (bind c1 (fun x => match x with pat => c2 end))
  (at level 61, pat pattern, c1 at next level, right associativity) : tree_scope.
Notation "c1 ;;; c2" := (bind c1 (fun _ => c2))
  (at level 61, right associativity) : tree_scope.
Local Open Scope tree_scope.

(** Conversion of an [int] to [size_t]. *)
Definition to_size_t (z : Z) : Z := z mod 2 ^ 64.

(** Conversion of an [int] to [uint16_t]. *)
Definition to_uint16 (z : Z) : Z := z mod 2 ^ 16.

(** [RAND_MAX] of <cstdlib>, the value of the GNU C library. *)
Definition RAND_MAX : Z := 2147483647.

(** [rand() < probabilityOfTrue * RAND_MAX], on the draw [r] of [rand()]. *)
Definition coin (probabilityOfTrue : double) (r : Z) : bool :=
  (Z2double r <? probabilityOfTrue * Z2double RAND_MAX)%float.

(** ** A small data set

    Four rows and one narrow feature of four bins, one row per bin, with
    the targets [0, 1, 10, 11]: the best boundary of the root is between
    the bins [1] and [2], and its two children have the same gain. *)

Definition ex_feature : Feature :=
  {| encoding := BYTE; transitions := [10; 20; 30]%float;
     bvec := [0; 1; 2; 3]; svec := [] |}.

Definition ex_ds : DataSet :=
  {| numExamples := 4; numFeatures_ := 1; features_ := [ex_feature] |}.

Definition ex_y : list double := [0; 1; 10; 11]%float.

(** A stand-in for the leaf value of the objective: the number of rows. *)
Definition ex_getLeafVal (st : list Z) (y : list double) : double :=
  Z2double (Z.of_nat (length st)).

(** The histogram of the feature over the four rows. *)
Definition ex_hist : Histogram :=
  {| num := 4; cnt := [1; 1; 1; 1]; sumy := [0; 1; 10; 11]%float;
     totalCnt := 4; totalSum := 22%float |}.

(** Two streams of [rand()]: every draw [0], every draw [RAND_MAX]. *)
Definition rand_zero (k : nat) : Z := 0.
Definition rand_max (k : nat) : Z := RAND_MAX.

Section TreeRegressor.

(** The members [ds_], [y_] and [fun_] of the regressor (the objective is
    used only through its leaf value), the flag [min_leaf_examples] and the
    stream of values [rand()] returns. *)
Variable ds_ : DataSet.
Variable y_ : list double.
Variable getLeafVal : list Z -> list double -> double.
Variable FLAGS_min_leaf_examples : Z.
Variable rand_stream : nat -> Z.

(** [rand()]. *)
Definition rand : M Z :=
  fun w => OK (rand_stream (randPos w),
               {| allSplits_ := allSplits_ w; frontiers_ := frontiers_ w;
                  randPos := S (randPos w) |}).

Definition biasedCoinFlip (probabilityOfTrue : double) : M bool :=
  r <- rand ;; ret (coin probabilityOfTrue r).

(** Modelled from the spec: the template [boosting::split<T>] of
    TreeRegressor.h, which is not among the sources: a row goes left iff
    its encoded value is [<=] the threshold, else right; the rows keep the
    order of the subset. *)
Fixpoint split (st : list Z) (left right : list Z) (vec : list Z) (fv : Z)
  : list Z * list Z :=
  match st with
  | [] => (left, right)
  | id :: rest =>
      if zth vec id 0 <=? fv
      then split rest (left ++ [id]) right vec fv
      else split rest left (right ++ [id]) vec fv
  end.

(** [TreeRegressor::splitExamples], on the node [sp]; the two output
    vectors are empty at the call. *)
Definition splitExamples (sp : SplitNode) : M (list Z * list Z) :=
  let fid := fid sp in
  let fv := to_uint16 (fv sp) in
  f <- lift_opt (zth_error (features_ ds_) fid) ;;
  match encoding f with
  | BYTE => ret (split (subset sp) [] [] (bvec f) fv)
  | SHORT => ret (split (subset sp) [] [] (svec f) fv)
  | EMPTY => fail (CheckFailed CHECK_encoding_SHORT)
  end.

(** The gain of the boundary after the running sums [cntLeft], [sumLeft]. *)
Definition gain_of (hist : Histogram) (lossBefore : double)
    (cntLeft : Z) (sumLeft : double) : double :=
  let sumRight := (totalSum hist - sumLeft)%float in
  let cntRight := totalCnt hist - cntLeft in
  let lossAfter :=
    ((- (1.0)) * sumLeft * sumLeft / Z2double cntLeft
     - 1.0 * sumRight * sumRight / Z2double cntRight)%float in
  (lossBefore - lossAfter)%float.

(** The [for] loop of [getBestSplitFromHistogram]: [n] iterations remain,
    the next index is [i]. *)
Fixpoint scanBins (hist : Histogram) (lossBefore : double) (n : nat) (i : Z)
    (cntLeft : Z) (sumLeft : double) (bestGain : double) (bestIdx : Z)
  : Z * double :=
  match n with
  | O => (bestIdx, bestGain)
  | S n' =>
      let cntLeft := cntLeft + zth (cnt hist) i 0 in
      let sumLeft := (sumLeft + zth (sumy hist) i 0)%float in
      let cntRight := totalCnt hist - cntLeft in
      if cntLeft <? FLAGS_min_leaf_examples then
        scanBins hist lossBefore n' (i + 1) cntLeft sumLeft bestGain bestIdx
      else if cntRight <? FLAGS_min_leaf_examples then
        (bestIdx, bestGain)
      else
        let gain := gain_of hist lossBefore cntLeft sumLeft in
        if (bestGain <? gain)%float then
          scanBins hist lossBefore n' (i + 1) cntLeft sumLeft gain i
        else
          scanBins hist lossBefore n' (i + 1) cntLeft sumLeft bestGain bestIdx
  end.

Definition lossBefore_of (hist : Histogram) : double :=
  ((- (1.0)) * totalSum hist * totalSum hist / Z2double (totalCnt hist))%float.

(** [TreeRegressor::getBestSplitFromHistogram]: the pair [( *idx, *gain)]. *)
Definition getBestSplitFromHistogram (hist : Histogram) : Res (Z * double) :=
  let lossBefore := lossBefore_of hist in
  if 1 <=? num hist then
    OK (scanBins hist lossBefore (Z.to_nat (num hist - 1)) 0 0 0%float 0%float (-1))
  else Abort (CheckFailed CHECK_hist_num).

(** Modelled from the spec: the template [buildHistogram<T>] of
    TreeRegressor.h, which is not among the sources: for each row, its bin
    code indexes the histogram, whose count and sum of targets it
    accumulates. *)
Fixpoint buildHistogram (st : list Z) (vec : list Z) (hist : Histogram)
  : Histogram :=
  match st with
  | [] => hist
  | id :: rest =>
      let v := zth vec id 0 in
      buildHistogram rest vec
        {| num := num hist;
           cnt := zupd (cnt hist) v (fun c => c + 1);
           sumy := zupd (sumy hist) v (fun s => (s + zth y_ id 0)%float);
           totalCnt := totalCnt hist;
           totalSum := totalSum hist |}
  end.

(** [for (auto& id : *subset) totalSum += y_[id];] *)
Fixpoint sumTargets (st : list Z) (totalSum : double) : double :=
  match st with
  | [] => totalSum
  | id :: rest => sumTargets rest (totalSum + zth y_ id 0)%float
  end.

(** The loop over the features of [getBestSplit]: [n] iterations remain,
    the next feature is [fid]. *)
Fixpoint scanFeatures (st : list Z) (totalSum : double)
    (featureSamplingRate : double) (n : nat) (fid : Z)
    (bestFid bestFv : Z) (bestGain : double) : M (Z * Z * double) :=
  match n with
  | O => ret (bestFid, bestFv, bestGain)
  | S n' =>
      f <- lift_opt (zth_error (features_ ds_) fid) ;;
      skip <- (if encoding_eqb (encoding f) EMPTY then ret true
               else b <- biasedCoinFlip featureSamplingRate ;; ret (negb b)) ;;
      if (skip : bool) then
        scanFeatures st totalSum featureSamplingRate n' (fid + 1)
          bestFid bestFv bestGain
      else
        let hist := new_Histogram (Z.of_nat (length (transitions f)) + 1)
                      (Z.of_nat (length st)) totalSum in
        hist <- match encoding f with
                | BYTE => ret (buildHistogram st (bvec f) hist)
                | SHORT => ret (buildHistogram st (svec f) hist)
                | EMPTY => fail (CheckFailed CHECK_encoding_SHORT)
                end ;;
        '(fv, gain) <- lift (getBestSplitFromHistogram hist) ;;
        if (bestGain <? gain)%float then
          scanFeatures st totalSum featureSamplingRate n' (fid + 1) fid fv gain
        else
          scanFeatures st totalSum featureSamplingRate n' (fid + 1)
            bestFid bestFv bestGain
  end.

(** [allSplits_.push_back(split)]; the new node's pointer is returned. *)
Definition push_allSplits (sp : SplitNode) : M nat :=
  fun w => OK (length (allSplits_ w),
               {| allSplits_ := allSplits_ w ++ [sp];
                  frontiers_ := frontiers_ w; randPos := randPos w |}).

(** [frontiers_.push_back(split)] for the node about to be pushed on
    [allSplits_]. *)
Definition push_frontiers : M unit :=
  fun w => OK (tt,
               {| allSplits_ := allSplits_ w;
                  frontiers_ := frontiers_ w ++ [length (allSplits_ w)];
                  randPos := randPos w |}).

(** [TreeRegressor::getBestSplit]. *)
Definition getBestSplit (st : list Z) (featureSamplingRate : double)
    (terminal : bool) : M nat :=
  let sp := new_SplitNode st in
  if terminal then push_allSplits sp
  else
    let totalSum := sumTargets st 0%float in
    '(bestFid, bestFv, bestGain) <-
      scanFeatures st totalSum featureSamplingRate
        (Z.to_nat (numFeatures_ ds_)) 0 (-1) 0 0%float ;;
    let sp := {| subset := st; fid := bestFid; fv := bestFv; gain := bestGain;
                 selected := false; left := None; right := None |} in
    push_frontiers ;;;
    push_allSplits sp.

(** Reading and writing through a [SplitNode*]. *)
Definition deref (p : nat) : M SplitNode :=
  fun w => match nth_error (allSplits_ w) p with
           | Some sp => OK (sp, w)
           | None => Abort OutOfBounds
           end.

Definition store (p : nat) (f : SplitNode -> SplitNode) : M unit :=
  fun w => match nth_error (allSplits_ w) p with
           | Some _ => OK (tt, {| allSplits_ := upd_nth (allSplits_ w) p f;
                                  frontiers_ := frontiers_ w;
                                  randPos := randPos w |})
           | None => Abort OutOfBounds
           end.

Definition set_selected (sp : SplitNode) : SplitNode :=
  {| subset := subset sp; fid := fid sp; fv := fv sp; gain := gain sp;
     selected := true; left := left sp; right := right sp |}.

Definition set_left (l : nat) (sp : SplitNode) : SplitNode :=
  {| subset := subset sp; fid := fid sp; fv := fv sp; gain := gain sp;
     selected := selected sp; left := Some l; right := right sp |}.

Definition set_right (r : nat) (sp : SplitNode) : SplitNode :=
  {| subset := subset sp; fid := fid sp; fv := fv sp; gain := gain sp;
     selected := selected sp; left := left sp; right := Some r |}.

(** The linear search over the frontier of [getBestSplits]: [its] is the
    rest of the frontier, [pos] the position of its head; [best_it] is
    [None] for [frontiers_.end()]. *)
Fixpoint scanFrontier (arena : list SplitNode) (its : list nat) (pos : nat)
    (bestGain : double) (best_it : option nat) : Res (double * option nat) :=
  match its with
  | [] => OK (bestGain, best_it)
  | p :: rest =>
      match nth_error arena p with
      | None => Abort OutOfBounds
      | Some sp =>
          if (bestGain <? gain sp)%float
          then scanFrontier arena rest (S pos) (gain sp) (Some pos)
          else scanFrontier arena rest (S pos) bestGain best_it
      end
  end.

Definition get_frontiers : M (list nat) := fun w => OK (frontiers_ w, w).
Definition get_allSplits : M (list SplitNode) := fun w => OK (allSplits_ w, w).

Definition erase_frontier (pos : nat) : M unit :=
  fun w => OK (tt, {| allSplits_ := allSplits_ w;
                      frontiers_ := erase (frontiers_ w) pos;
                      randPos := randPos w |}).

(** One pass through the body of the [do ... while] of [getBestSplits],
    entered with [numSelected]: [None] when the body leaves the loop by
    [break], else the new value of [numSelected]. *)
Definition selectExpand (numSplits : Z) (featureSamplingRate : double)
    (numSelected : Z) : M (option Z) :=
  frontier <- get_frontiers ;;
  CHECK (Z.of_nat (length frontier) =? to_size_t (numSelected + 1))
    CHECK_frontier_size ;;;
  arena <- get_allSplits ;;
  '(bestGain, best_it) <- lift (scanFrontier arena frontier 0 0%float None) ;;
  match best_it with
  | None => ret None
  | Some pos =>
      CHECK (0 <? bestGain)%float CHECK_bestGain_positive ;;;
      bestSplit <- lift_opt (nth_error frontier pos) ;;
      store bestSplit set_selected ;;;
      let numSelected := numSelected + 1 in
      erase_frontier pos ;;;
      sp <- deref bestSplit ;;
      '(left, right) <- splitExamples sp ;;
      let terminal := numSelected =? numSplits in
      l <- getBestSplit left featureSamplingRate terminal ;;
      store bestSplit (set_left l) ;;;
      r <- getBestSplit right featureSamplingRate terminal ;;
      store bestSplit (set_right r) ;;;
      ret (Some numSelected)
  end.

(** The [do ... while (numSelected < numSplits)] loop, with a bound on the
    number of passes. *)
Fixpoint growLoop (fuel : nat) (numSplits : Z) (featureSamplingRate : double)
    (numSelected : Z) : M unit :=
  match fuel with
  | O => fail OutOfFuel
  | S fuel' =>
      r <- selectExpand numSplits featureSamplingRate numSelected ;;
      match r with
      | None => ret tt
      | Some numSelected' =>
          if numSelected' <? numSplits
          then growLoop fuel' numSplits featureSamplingRate numSelected'
          else ret tt
      end
  end.

(** [TreeRegressor::getBestSplits].  [CHECK(subset != NULL)] holds of every
    vector the model can pass. *)
Definition getBestSplits (st : list Z) (numSplits : Z)
    (featureSamplingRate : double) : M nat :=
  firstSplit <- getBestSplit st featureSamplingRate false ;;
  growLoop (Z.to_nat (Z.max 1 numSplits)) numSplits featureSamplingRate 0 ;;;
  ret firstSplit.

(** [TreeRegressor::getTreeHelper] on the arena, with the array [fimps]
    passed through; [fuel] bounds the depth of the recursion. *)
Fixpoint getTreeHelper (fuel : nat) (arena : list SplitNode)
    (sp : option nat) (fimps : list double)
  : Res (option TreeNode * list double) :=
  match sp with
  | None => OK (None, fimps)
  | Some p =>
      match fuel with
      | O => Abort OutOfFuel
      | S fuel' =>
          match nth_error arena p with
          | None => Abort OutOfBounds
          | Some node =>
              if negb (selected node) then
                let fvote := getLeafVal (subset node) y_ in
                if to_size_t FLAGS_min_leaf_examples
                   <=? Z.of_nat (length (subset node))
                then OK (Some (LeafNode fvote), fimps)
                else Abort (CheckFailed CHECK_leaf_size)
              else
                match zth_error fimps (fid node) with
                | None => Abort OutOfBounds
                | Some _ =>
                    let fimps :=
                      zupd fimps (fid node) (fun x => (x + gain node)%float) in
                    let fvote := getLeafVal (subset node) y_ in
                    match getTreeHelper fuel' arena (left node) fimps with
                    | Abort f => Abort f
                    | OK (l, fimps) =>
                        match getTreeHelper fuel' arena (right node) fimps with
                        | Abort f => Abort f
                        | OK (r, fimps) =>
                            OK (Some (PartitionNode (fid node)
                                        (to_uint16 (fv node)) fvote l r),
                                fimps)
                        end
                    end
                end
          end
      end
  end.

(** The sampling loop of [getTree]: [n] iterations remain, the next row
    is [i]. *)
Fixpoint sampleExamples (exampleSamplingRate : double) (n : nat) (i : Z)
    (st : list Z) : M (list Z) :=
  match n with
  | O => ret st
  | S n' =>
      b <- biasedCoinFlip exampleSamplingRate ;;
      sampleExamples exampleSamplingRate n' (i + 1)
        (if (b : bool) then st ++ [i] else st)
  end.

(** [TreeRegressor::getTree]: the output tree and the array [fimps]. *)
Definition getTree (numLeaves : Z) (exampleSamplingRate : double)
    (featureSamplingRate : double) (fimps : list double)
  : M (option TreeNode * list double) :=
  st <- sampleExamples exampleSamplingRate (Z.to_nat (numExamples ds_)) 0 [] ;;
  CHECK (to_size_t (FLAGS_min_leaf_examples * numLeaves)
         <=? Z.of_nat (length st)) CHECK_sample_size ;;;
  root <- getBestSplits st (numLeaves - 1) featureSamplingRate ;;
  arena <- get_allSplits ;;
  lift (getTreeHelper (length arena) arena (Some root) fimps).

(** ** Notions the properties are stated with *)

(** The count and the sum of targets of the bins [0 .. k-1], accumulated
    from bin [0] upwards. *)
Fixpoint cntLeftUpto (hist : Histogram) (k : nat) : Z :=
  match k with
  | O => 0
  | S k' => cntLeftUpto hist k' + zth (cnt hist) (Z.of_nat k') 0
  end.

Fixpoint sumLeftUpto (hist : Histogram) (k : nat) : double :=
  match k with
  | O => 0%float
  | S k' => (sumLeftUpto hist k' + zth (sumy hist) (Z.of_nat k') 0)%float
  end.

(** The left count and sum of the boundary [idx]: bins [0 .. idx]
    inclusive; the right count is the complement in the total. *)
Definition cntLeftAt (hist : Histogram) (idx : Z) : Z :=
  cntLeftUpto hist (S (Z.to_nat idx)).

Definition sumLeftAt (hist : Histogram) (idx : Z) : double :=
  sumLeftUpto hist (S (Z.to_nat idx)).

Definition cntRightAt (hist : Histogram) (idx : Z) : Z :=
  totalCnt hist - cntLeftAt hist idx.

(** [gain(idx) = lossBefore - lossAfter(idx)]. *)
Definition gainAt (hist : Histogram) (idx : Z) : double :=
  gain_of hist (lossBefore_of hist) (cntLeftAt hist idx) (sumLeftAt hist idx).

(** The boundary indices a split may use: both sides hold at least
    [min_leaf_examples] rows. *)
Definition eligible (hist : Histogram) (idx : Z) : Prop :=
  0 <= idx <= num hist - 2
  /\ FLAGS_min_leaf_examples <= cntLeftAt hist idx
  /\ FLAGS_min_leaf_examples <= cntRightAt hist idx.

(** The scan of all boundary indices, without the early [break]: an index
    is skipped when either side is too small. *)
Fixpoint scanAllBins (hist : Histogram) (lossBefore : double) (n : nat) (i : Z)
    (cntLeft : Z) (sumLeft : double) (bestGain : double) (bestIdx : Z)
  : Z * double :=
  match n with
  | O => (bestIdx, bestGain)
  | S n' =>
      let cntLeft := cntLeft + zth (cnt hist) i 0 in
      let sumLeft := (sumLeft + zth (sumy hist) i 0)%float in
      let cntRight := totalCnt hist - cntLeft in
      if (cntLeft <? FLAGS_min_leaf_examples)
         || (cntRight <? FLAGS_min_leaf_examples) then
        scanAllBins hist lossBefore n' (i + 1) cntLeft sumLeft bestGain bestIdx
      else
        let gain := gain_of hist lossBefore cntLeft sumLeft in
        if (bestGain <? gain)%float then
          scanAllBins hist lossBefore n' (i + 1) cntLeft sumLeft gain i
        else
          scanAllBins hist lossBefore n' (i + 1) cntLeft sumLeft bestGain bestIdx
  end.

Definition getBestSplitFromHistogram_noBreak (hist : Histogram)
  : Res (Z * double) :=
  if 1 <=? num hist then
    OK (scanAllBins hist (lossBefore_of hist) (Z.to_nat (num hist - 1))
          0 0 0%float 0%float (-1))
  else Abort (CheckFailed CHECK_hist_num).

(** The shape the three linear searches of the source share: a running
    best gain that starts at [0.0], replaced by a candidate that is
    strictly greater; [None] is a position the search skips. *)
Fixpoint scanOpt (cands : list (option double)) (pos : nat)
    (bestGain : double) (best : option nat) : double * option nat :=
  match cands with
  | [] => (bestGain, best)
  | None :: rest => scanOpt rest (S pos) bestGain best
  | Some g :: rest =>
      if (bestGain <? g)%float then scanOpt rest (S pos) g (Some pos)
      else scanOpt rest (S pos) bestGain best
  end.

(** What such a search has found after the candidates [cs]. *)
Definition IsBest (cs : list (option double)) (bestGain : double)
    (best : option nat) : Prop :=
  match best with
  | None =>
      bestGain = 0%float
      /\ forall j g, nth_error cs j = Some (Some g) -> (0 <? g)%float = false
  | Some k =>
      nth_error cs k = Some (Some bestGain)
      /\ (0 <? bestGain)%float = true
      /\ (forall j g, nth_error cs j = Some (Some g) ->
                      (bestGain <? g)%float = false)
      /\ (forall j g, (j < k)%nat -> nth_error cs j = Some (Some g) ->
                      (bestGain <=? g)%float = false)
  end.

(** The candidate of the boundary after bin [k]. *)
Definition candidate (hist : Histogram) (k : nat) : option double :=
  let cl := cntLeftUpto hist (S k) in
  if (cl <? FLAGS_min_leaf_examples)
     || (totalCnt hist - cl <? FLAGS_min_leaf_examples)
  then None
  else Some (gain_of hist (lossBefore_of hist) cl (sumLeftUpto hist (S k))).

Definition idx_of (best : option nat) : Z :=
  match best with
  | None => -1
  | Some k => Z.of_nat k
  end.

(** The test that sends the row [id] to the left part. *)
Definition goes_left (vec : list Z) (fv : Z) (id : Z) : bool :=
  zth vec id 0 <=? fv.

(** The two parts [splitExamples] makes of the subset of [sp] when its
    feature is [f]. *)
Definition split_of (sp : SplitNode) (f : Feature) : list Z * list Z :=
  split (subset sp) [] [] (fvec f) (to_uint16 (fv sp)).

(** A candidate with a positive gain carries a usable split: a feature of
    the data set that is not [EMPTY], a bin boundary of that feature, and
    (on a well-formed data set) at least [min_leaf_examples] rows on each
    side. *)
Definition GoodSplit (sp : SplitNode) : Prop :=
  (0 <? gain sp)%float = true ->
  0 <= fid sp < numFeatures_ ds_
  /\ exists f,
      zth_error (features_ ds_) (fid sp) = Some f
      /\ encoding f <> EMPTY
      /\ 0 <= fv sp <= Z.of_nat (length (transitions f)) - 1
      /\ (wf_DataSet ds_ = true ->
          FLAGS_min_leaf_examples <= Z.of_nat (length (fst (split_of sp f)))
          /\ FLAGS_min_leaf_examples <= Z.of_nat (length (snd (split_of sp f)))).

(** A node as [getBestSplit] leaves it on the arena. *)
Definition Fresh (st : list Z) (terminal : bool) (sp : SplitNode) : Prop :=
  subset sp = st
  /\ selected sp = false /\ left sp = None /\ right sp = None
  /\ (0 <=? gain sp)%float = true
  /\ (terminal = true -> gain sp = 0%float /\ fid sp = -1)
  /\ GoodSplit sp.

(** The node of a candidate split. *)
Definition candidate_node (st : list Z) (bf bv : Z) (bg : double) : SplitNode :=
  {| subset := st; fid := bf; fv := bv; gain := bg;
     selected := false; left := None; right := None |}.

(** The node [sp] once it is selected and has its children. *)
Definition expanded (l r : nat) (sp : SplitNode) : SplitNode :=
  {| subset := subset sp; fid := fid sp; fv := fv sp; gain := gain sp;
     selected := true; left := Some l; right := Some r |}.

(** [Sub arena p ns]: the nodes below the pointer [p], [p] included, are
    [ns] in the order the materializer visits them. *)
Inductive Sub (arena : list SplitNode) : nat -> list nat -> Prop :=
| Sub_leaf p sp :
    nth_error arena p = Some sp -> selected sp = false -> Sub arena p [p]
| Sub_node p sp l r nl nr :
    nth_error arena p = Some sp -> selected sp = true ->
    left sp = Some l -> right sp = Some r ->
    Sub arena l nl -> Sub arena r nr ->
    Sub arena p (p :: nl ++ nr).

(** The pointers of the selected nodes among [ns]. *)
Definition is_selected (arena : list SplitNode) (p : nat) : bool :=
  match nth_error arena p with
  | Some sp => selected sp
  | None => false
  end.

Definition internal (arena : list SplitNode) (ns : list nat) : list nat :=
  filter (is_selected arena) ns.

(** The gains added to [fimps[f]] when the nodes [ns] are internal nodes
    visited in this order. *)
Definition gains_on (arena : list SplitNode) (f : Z) (ns : list nat)
  : list double :=
  flat_map (fun p => match nth_error arena p with
                     | Some sp => if fid sp =? f then [gain sp] else []
                     | None => []
                     end) ns.

(** What holds of the regressor whenever the grower is between two
    passes of its loop, for the root subset [st0]. *)
Record GInv (st0 : list Z) (w : World) : Prop := {
  inv_root : exists sp0, nth_error (allSplits_ w) 0 = Some sp0 /\ subset sp0 = st0;
  inv_tree : exists ns, Sub (allSplits_ w) 0 ns
                        /\ Permutation ns (seq 0 (length (allSplits_ w)));
  inv_frontier : forall p, In p (frontiers_ w) ->
      exists sp, nth_error (allSplits_ w) p = Some sp /\ selected sp = false;
  inv_frontier_nodup : NoDup (frontiers_ w);
  inv_selected : forall p sp, nth_error (allSplits_ w) p = Some sp ->
      selected sp = true ->
      (0 <? gain sp)%float = true
      /\ exists f l r spl spr,
          zth_error (features_ ds_) (fid sp) = Some f
          /\ encoding f <> EMPTY
          /\ left sp = Some l /\ right sp = Some r
          /\ nth_error (allSplits_ w) l = Some spl
          /\ nth_error (allSplits_ w) r = Some spr
          /\ (subset spl, subset spr) = split_of sp f;
  inv_gain : forall p sp, nth_error (allSplits_ w) p = Some sp ->
      (0 <=? gain sp)%float = true;
  inv_good : forall p sp, nth_error (allSplits_ w) p = Some sp -> GoodSplit sp;
  inv_nodup : NoDup st0 ->
      forall p sp, nth_error (allSplits_ w) p = Some sp -> NoDup (subset sp);
  inv_minleaf : wf_DataSet ds_ = true ->
      FLAGS_min_leaf_examples <= Z.of_nat (length st0) ->
      forall p sp, nth_error (allSplits_ w) p = Some sp ->
      FLAGS_min_leaf_examples <= Z.of_nat (length (subset sp))
}.

(** A regressor that has not grown a tree yet. *)
Definition unused (w : World) : Prop :=
  allSplits_ w = [] /\ frontiers_ w = [].

(** The states in which the body of the loop of [getBestSplits] is
    entered, with the value of [numSelected], when the grower is called on
    a regressor that has not grown a tree yet. *)
Inductive Head (st : list Z) (numSplits : Z) (featureSamplingRate : double)
  : Z -> World -> Prop :=
| Head_root w0 p w :
    unused w0 ->
    getBestSplit st featureSamplingRate false w0 = OK (p, w) ->
    Head st numSplits featureSamplingRate 0 w
| Head_next n w n' w' :
    Head st numSplits featureSamplingRate n w ->
    selectExpand numSplits featureSamplingRate n w = OK (Some n', w') ->
    n' < numSplits ->
    Head st numSplits featureSamplingRate n' w'.

(** The pointers the materializer visits once [p] has become an internal
    node with the children [l] and [r]. *)
Definition grow_at (p l r : nat) (x : nat) : list nat :=
  if Nat.eqb x p then [p; l; r] else [x].

(** How a pass of the loop entered with [n] in the state [w] ends the
    loop in the state [w']: by [break], or by the test of the [while]. *)
Definition LastPass (numSplits : Z) (featureSamplingRate : double)
    (n : Z) (w w' : World) : Prop :=
  selectExpand numSplits featureSamplingRate n w = OK (None, w')
  \/ (selectExpand numSplits featureSamplingRate n w = OK (Some (n + 1), w')
      /\ numSplits <= n + 1).

(** The number of selected nodes on the arena. *)
Definition selectedCount (w : World) : Z :=
  Z.of_nat (length (filter selected (allSplits_ w))).

Definition int_range (z : Z) : Prop := - 2 ^ 31 <= z < 2 ^ 31.

(** ** Notions for the further properties *)

(** The numbers of internal nodes and of leaves of an output tree. *)
Fixpoint numInternal (t : TreeNode) : nat :=
  match t with
  | LeafNode _ => O
  | PartitionNode _ _ _ l r =>
      S (match l with Some x => numInternal x | None => O end
         + match r with Some x => numInternal x | None => O end)
  end.

Fixpoint numLeafNodes (t : TreeNode) : nat :=
  match t with
  | LeafNode _ => 1%nat
  | PartitionNode _ _ _ l r =>
      (match l with Some x => numLeafNodes x | None => O end
       + match r with Some x => numLeafNodes x | None => O end)%nat
  end.

(** [Mirrors arena p t]: the output tree [t] has the shape of the split
    nodes below the pointer [p]; a leaf carries the leaf value of the
    subset of its node, an internal node the feature, the threshold and
    the leaf value of the subset of its node. *)
Inductive Mirrors (arena : list SplitNode) : nat -> TreeNode -> Prop :=
| Mirrors_leaf p sp :
    nth_error arena p = Some sp -> selected sp = false ->
    Mirrors arena p (LeafNode (getLeafVal (subset sp) y_))
| Mirrors_node p sp l r tl tr :
    nth_error arena p = Some sp -> selected sp = true ->
    left sp = Some l -> right sp = Some r ->
    Mirrors arena l tl -> Mirrors arena r tr ->
    Mirrors arena p
      (PartitionNode (fid sp) (to_uint16 (fv sp)) (getLeafVal (subset sp) y_)
         (Some tl) (Some tr)).

(** An output tree whose internal nodes all have two children, a feature
    of the data set that is not [EMPTY] and a threshold that is a bin
    boundary of that feature. *)
Fixpoint TreeOK (t : TreeNode) : Prop :=
  match t with
  | LeafNode _ => True
  | PartitionNode f v _ l r =>
      (0 <= f < numFeatures_ ds_
       /\ exists ft, zth_error (features_ ds_) f = Some ft
                     /\ encoding ft <> EMPTY
                     /\ 0 <= v <= Z.of_nat (length (transitions ft)) - 1)
      /\ match l with Some x => TreeOK x | None => False end
      /\ match r with Some x => TreeOK x | None => False end
  end.

(** The number of features that are not [EMPTY]. *)
Definition countNonEmpty (fs : list Feature) : nat :=
  length (filter (fun f => negb (encoding_eqb (encoding f) EMPTY)) fs).

(** The histogram [getBestSplit] builds for the feature [f]. *)
Definition featureHistogram (st : list Z) (totalSum : double) (f : Feature)
  : Histogram :=
  buildHistogram st (fvec f)
    (new_Histogram (Z.of_nat (length (transitions f)) + 1)
       (Z.of_nat (length st)) totalSum).

(** What the loop over the features of [getBestSplit] evaluates, feature
    by feature, when the next draw of [rand()] is at [pos]: nothing for an
    [EMPTY] feature (which takes no draw) and for a feature the coin
    rejects, else the threshold and the gain the evaluator returns. *)
Fixpoint featureCands (st : list Z) (totalSum : double) (rate : double)
    (fs : list Feature) (pos : nat) : list (option (Z * double)) :=
  match fs with
  | [] => []
  | f :: rest =>
      if encoding_eqb (encoding f) EMPTY then
        None :: featureCands st totalSum rate rest pos
      else if coin rate (rand_stream pos) then
        match getBestSplitFromHistogram (featureHistogram st totalSum f) with
        | OK r => Some r
        | Abort _ => None
        end :: featureCands st totalSum rate rest (S pos)
      else None :: featureCands st totalSum rate rest (S pos)
  end.

(** The rows of the nodes that are not selected, in the order of the
    arena. *)
Definition leafRows (arena : list SplitNode) : list Z :=
  flat_map (fun sp => if selected sp then [] else subset sp) arena.

(** What the loop over the features has found after the candidates
    [pre]: the best gain [bg] is as [IsBest] says, [bf] is the index of the
    feature that gave it ([-1] for none) and [bv] the threshold the
    evaluator returned with it ([0] for none). *)
Definition FeatInv (pre : list (option (Z * double))) (bf bv : Z)
    (bg : double) (best : option nat) : Prop :=
  IsBest (map (option_map snd) pre) bg best
  /\ bf = idx_of best
  /\ match best with
     | Some j => nth_error pre j = Some (Some (bv, bg))
     | None => bv = 0
     end.

(** The rows the sampling loop of [getTree] appends in [n] iterations
    that start at the row [i], when the next draw of [rand()] is at [pos]:
    the row [i + k] is taken iff the coin accepts the draw [pos + k]. *)
Definition sampledRows (rate : double) (pos n : nat) (i : Z) : list Z :=
  map (fun k => i + Z.of_nat k)
    (filter (fun k => coin rate (rand_stream (pos + k))) (seq 0 n)).

(** The subsets of the nodes [ns] that are not selected, one after the
    other. *)
Definition leafRowsOn (arena : list SplitNode) (ns : list nat) : list Z :=
  flat_map (fun q => match nth_error arena q with
                     | Some sp => if selected sp then [] else subset sp
                     | None => []
                     end) ns.

(** * Properties *)

(** ** The order of doubles *)

Lemma SFcompare_fkey x y :
  SFcompare x y =
  match fkey x, fkey y with
  | Some a, Some b => Some (lexcmp a b)
  | _, _ => None
  end.
Proof.
  destruct x as [sx|sx| |sx mx ex], y as [sy|sy| |sy my ey]; cbn [SFcompare fkey];
    try reflexivity;
    try (destruct sx; reflexivity);
    try (destruct sy; reflexivity);
    try (destruct sx, sy; reflexivity).
  destruct sx, sy; cbn [lexcmp]; try reflexivity.
  change (-1 ?= -1) with Eq. cbv iota.
  rewrite Z.compare_opp.
  change (Z.neg mx ?= Z.neg my) with (CompOpp (Pos.compare mx my)).
  change (PosDef.Pos.compare_cont Eq mx my) with (Pos.compare mx my).
  rewrite (Z.compare_antisym ex ey).
  destruct (ex ?= ey); reflexivity.
Qed.

Lemma lexcmp_Lt a b : lexcmp a b = Lt <-> lexlt a b.
Proof.
  destruct a as [[a1 a2] a3], b as [[b1 b2] b3]. unfold lexcmp, lexlt.
  destruct (Z.compare_spec a1 b1), (Z.compare_spec a2 b2), (Z.compare_spec a3 b3);
    split; intros; try discriminate; try reflexivity; try lia.
Qed.

Lemma lexcmp_Eq a b : lexcmp a b = Eq <-> a = b.
Proof.
  destruct a as [[a1 a2] a3], b as [[b1 b2] b3]. unfold lexcmp.
  destruct (Z.compare_spec a1 b1), (Z.compare_spec a2 b2), (Z.compare_spec a3 b3);
    split; intros H'; try discriminate; try reflexivity;
    try (injection H'; intros; lia); try (f_equal; [f_equal|]; lia).
Qed.

Lemma lexlt_trans a b c : lexlt a b -> lexlt b c -> lexlt a c.
Proof.
  destruct a as [[a1 a2] a3], b as [[b1 b2] b3], c as [[c1 c2] c3].
  unfold lexlt. lia.
Qed.

Lemma lexlt_irrefl a : ~ lexlt a a.
Proof. destruct a as [[a1 a2] a3]. unfold lexlt. lia. Qed.

Lemma lexlt_asym a b : lexlt a b -> ~ lexlt b a.
Proof.
  destruct a as [[a1 a2] a3], b as [[b1 b2] b3]. unfold lexlt. lia.
Qed.

Lemma lex_total a b : lexlt a b \/ a = b \/ lexlt b a.
Proof.
  destruct a as [[a1 a2] a3], b as [[b1 b2] b3]. unfold lexlt.
  destruct (Z.lt_total a1 b1) as [|[|]], (Z.lt_total a2 b2) as [|[|]],
    (Z.lt_total a3 b3) as [|[|]]; subst; auto 10.
Qed.

Lemma ltb_key x y :
  (x <? y)%float = true <->
  exists a b, key x = Some a /\ key y = Some b /\ lexlt a b.
Proof.
  rewrite ltb_spec. unfold SFltb, key. rewrite SFcompare_fkey.
  destruct (fkey (Prim2SF x)) as [a|], (fkey (Prim2SF y)) as [b|].
  - split.
    + intros H. exists a, b. repeat split. apply lexcmp_Lt.
      destruct (lexcmp a b); congruence.
    + intros (a' & b' & Ha & Hb & H). inversion Ha; inversion Hb; subst.
      apply lexcmp_Lt in H. rewrite H. reflexivity.
  - split; [discriminate|]. intros (a' & b' & _ & Hb & _). discriminate.
  - split; [discriminate|]. intros (a' & b' & Ha & _ & _). discriminate.
  - split; [discriminate|]. intros (a' & b' & Ha & _ & _). discriminate.
Qed.

Lemma leb_key x y :
  (x <=? y)%float = true <->
  exists a b, key x = Some a /\ key y = Some b /\ (lexlt a b \/ a = b).
Proof.
  rewrite leb_spec. unfold SFleb, key. rewrite SFcompare_fkey.
  destruct (fkey (Prim2SF x)) as [a|], (fkey (Prim2SF y)) as [b|].
  - split.
    + intros H. exists a, b. repeat split.
      destruct (lexcmp a b) eqn:E; try discriminate.
      * right. now apply lexcmp_Eq.
      * left. now apply lexcmp_Lt.
    + intros (a' & b' & Ha & Hb & H). inversion Ha; inversion Hb; subst.
      destruct H as [H|H].
      * apply lexcmp_Lt in H. rewrite H. reflexivity.
      * apply lexcmp_Eq in H. rewrite H. reflexivity.
  - split; [discriminate|]. intros (a' & b' & _ & Hb & _). discriminate.
  - split; [discriminate|]. intros (a' & b' & Ha & _ & _). discriminate.
  - split; [discriminate|]. intros (a' & b' & Ha & _ & _). discriminate.
Qed.

Lemma ltb_irrefl x : (x <? x)%float = false.
Proof.
  destruct (x <? x)%float eqn:E; [|reflexivity].
  apply ltb_key in E. destruct E as (a & b & Ha & Hb & H).
  rewrite Ha in Hb. inversion Hb; subst. now apply lexlt_irrefl in H.
Qed.

Lemma ltb_trans x y z :
  (x <? y)%float = true -> (y <? z)%float = true -> (x <? z)%float = true.
Proof.
  intros H1 H2. apply ltb_key in H1, H2. apply ltb_key.
  destruct H1 as (a & b & Ha & Hb & H1), H2 as (b' & c & Hb' & Hc & H2).
  rewrite Hb in Hb'. inversion Hb'; subst.
  exists a, c. repeat split; auto. eapply lexlt_trans; eauto.
Qed.

(** A candidate that does not beat [b] does not beat anything above [b]. *)
Lemma ltb_above b b' g :
  (b <? g)%float = false -> (b <? b')%float = true -> (b' <? g)%float = false.
Proof.
  intros H1 H2. destruct (b' <? g)%float eqn:E; [|reflexivity].
  rewrite (ltb_trans _ _ _ H2 E) in H1. discriminate.
Qed.

Lemma leb_above b b' g :
  (b <? g)%float = false -> (b <? b')%float = true -> (b' <=? g)%float = false.
Proof.
  intros H1 H2. destruct (b' <=? g)%float eqn:E; [|reflexivity].
  apply leb_key in E. apply ltb_key in H2.
  destruct E as (kb' & kg & Hb' & Hg & E), H2 as (kb & kb'' & Hb & Hb'' & H2).
  rewrite Hb' in Hb''. inversion Hb''; subst kb''.
  assert (lexlt kb kg) as L.
  { destruct E as [E|E]; [eapply lexlt_trans; eauto | subst; auto]. }
  assert ((b <? g)%float = true) as C by (apply ltb_key; eauto 6).
  congruence.
Qed.

Lemma ltb_leb x y : (x <? y)%float = true -> (x <=? y)%float = true.
Proof.
  intros H. apply ltb_key in H. apply leb_key.
  destruct H as (a & b & Ha & Hb & H). eauto 6.
Qed.

Lemma ltb_leb_false x y : (x <? y)%float = true -> (y <=? x)%float = false.
Proof.
  intros H. destruct (y <=? x)%float eqn:E; [|reflexivity].
  apply ltb_key in H. apply leb_key in E.
  destruct H as (a & b & Ha & Hb & H), E as (b' & a' & Hb' & Ha' & E).
  rewrite Ha in Ha'. rewrite Hb in Hb'. inversion Ha'; inversion Hb'; subst.
  destruct E as [E|E]; [now apply lexlt_asym in E | subst; now apply lexlt_irrefl in H].
Qed.

(** Among doubles that are not NaN the order is total. *)
Lemma leb_total x y :
  (x <=? x)%float = true -> (y <=? y)%float = true ->
  (x <? y)%float = false -> (y <=? x)%float = true.
Proof.
  intros Hx Hy H. apply leb_key in Hx, Hy. apply leb_key.
  destruct Hx as (a & a' & Ha & _ & _), Hy as (b & b' & Hb & _ & _).
  exists b, a. repeat split; auto.
  destruct (lex_total a b) as [L|[L|L]]; auto.
  assert ((x <? y)%float = true) as C by (apply ltb_key; eauto 6).
  congruence.
Qed.

Lemma leb_refl_of_leb x y : (x <=? y)%float = true -> (y <=? y)%float = true.
Proof.
  intros H. apply leb_key in H. apply leb_key.
  destruct H as (a & b & Ha & Hb & _). eauto 6.
Qed.

Lemma leb_ltb_trans x y z :
  (x <=? y)%float = true -> (y <? z)%float = true -> (x <? z)%float = true.
Proof.
  intros H1 H2. apply leb_key in H1. apply ltb_key in H2. apply ltb_key.
  destruct H1 as (a & b & Ha & Hb & H1), H2 as (b' & c & Hb' & Hc & H2).
  rewrite Hb in Hb'. inversion Hb'; subst.
  exists a, c. repeat split; auto.
  destruct H1 as [H1|H1]; [eapply lexlt_trans; eauto | subst; auto].
Qed.

(** ** The shared search *)

Lemma IsBest_snoc_None cs b best :
  IsBest cs b best -> IsBest (cs ++ [None]) b best.
Proof.
  unfold IsBest. destruct best as [k|].
  - intros (Hk & Hpos & Hmax & Hfirst). repeat split; auto.
    + rewrite nth_error_app1; auto. apply nth_error_Some. congruence.
    + intros j g Hj. destruct (Nat.lt_ge_cases j (length cs)).
      * rewrite nth_error_app1 in Hj by auto. eauto.
      * rewrite nth_error_app2 in Hj by auto.
        destruct (j - length cs)%nat as [|[|m]]; discriminate.
    + intros j g Hlt Hj. destruct (Nat.lt_ge_cases j (length cs)).
      * rewrite nth_error_app1 in Hj by auto. eauto.
      * rewrite nth_error_app2 in Hj by auto.
        destruct (j - length cs)%nat as [|[|m]]; discriminate.
  - intros (Hb & Hall). split; auto.
    intros j g Hj. destruct (Nat.lt_ge_cases j (length cs)).
    + rewrite nth_error_app1 in Hj by auto. eauto.
    + rewrite nth_error_app2 in Hj by auto.
      destruct (j - length cs)%nat as [|[|m]]; discriminate.
Qed.

Lemma nth_error_snoc_inv {A} (cs : list A) (c : A) j x :
  nth_error (cs ++ [c]) j = Some x ->
  ((j < length cs)%nat /\ nth_error cs j = Some x) \/ (j = length cs /\ x = c).
Proof.
  intros Hj. destruct (Nat.lt_ge_cases j (length cs)).
  - rewrite nth_error_app1 in Hj by auto. auto.
  - rewrite nth_error_app2 in Hj by auto.
    destruct (j - length cs)%nat as [|[|m]] eqn:E; try discriminate.
    inversion Hj. right. split; [lia|reflexivity].
Qed.

Lemma IsBest_snoc_keep cs b best g :
  IsBest cs b best -> (b <? g)%float = false ->
  IsBest (cs ++ [Some g]) b best.
Proof.
  unfold IsBest. destruct best as [k|].
  - intros (Hk & Hpos & Hmax & Hfirst) Hg.
    assert (k < length cs)%nat by (apply nth_error_Some; congruence).
    repeat split; auto.
    + rewrite nth_error_app1; auto.
    + intros j g' Hj. apply nth_error_snoc_inv in Hj.
      destruct Hj as [[_ Hj]|[_ Hj]]; [eauto | inversion Hj; subst; auto].
    + intros j g' Hlt Hj. apply nth_error_snoc_inv in Hj.
      destruct Hj as [[_ Hj]|[Hj _]]; [eauto | lia].
  - intros (Hb & Hall) Hg. split; auto. subst b.
    intros j g' Hj. apply nth_error_snoc_inv in Hj.
    destruct Hj as [[_ Hj]|[_ Hj]]; [eauto | inversion Hj; subst; auto].
Qed.

Lemma IsBest_snoc_take cs b best g :
  IsBest cs b best -> (b <? g)%float = true ->
  IsBest (cs ++ [Some g]) g (Some (length cs)).
Proof.
  intros HB Hg. unfold IsBest. repeat split.
  - rewrite nth_error_app2 by lia. rewrite Nat.sub_diag. reflexivity.
  - destruct best as [k|]; cbn in HB.
    + destruct HB as (_ & Hpos & _). eapply ltb_trans; eauto.
    + destruct HB as (Hb & _). subst b. exact Hg.
  - intros j g' Hj. apply nth_error_snoc_inv in Hj.
    destruct Hj as [[_ Hj]|[_ Hj]].
    + apply ltb_above with (b := b); auto.
      destruct best as [k|]; cbn in HB.
      * destruct HB as (_ & _ & Hmax & _). eauto.
      * destruct HB as (Hb & Hall). subst b. eauto.
    + inversion Hj; subst. apply ltb_irrefl.
  - intros j g' Hlt Hj. apply nth_error_snoc_inv in Hj.
    destruct Hj as [[_ Hj]|[Hj _]]; [|lia].
    apply leb_above with (b := b); auto.
    destruct best as [k|]; cbn in HB.
    + destruct HB as (_ & _ & Hmax & _). eauto.
    + destruct HB as (Hb & Hall). subst b. eauto.
Qed.

Lemma scanOpt_IsBest cands : forall pre b best,
  IsBest pre b best ->
  IsBest (pre ++ cands) (fst (scanOpt cands (length pre) b best))
         (snd (scanOpt cands (length pre) b best)).
Proof.
  induction cands as [|c rest IH]; intros pre b best HB.
  - rewrite app_nil_r. exact HB.
  - replace (pre ++ c :: rest) with ((pre ++ [c]) ++ rest)
      by (rewrite <- app_assoc; reflexivity).
    cbn [scanOpt]. destruct c as [g|].
    + destruct (b <? g)%float eqn:E.
      * specialize (IH (pre ++ [Some g]) g (Some (length pre))).
        rewrite length_app, Nat.add_1_r in IH. apply IH.
        eapply IsBest_snoc_take; eauto.
      * specialize (IH (pre ++ [Some g]) b best).
        rewrite length_app, Nat.add_1_r in IH. apply IH.
        eapply IsBest_snoc_keep; eauto.
    + specialize (IH (pre ++ [None]) b best).
      rewrite length_app, Nat.add_1_r in IH. apply IH.
      now apply IsBest_snoc_None.
Qed.

Lemma IsBest_nil : IsBest [] 0%float None.
Proof. split; [reflexivity|]. intros [|j] g H; discriminate. Qed.

Lemma scanOpt_all_None cands pos b best :
  Forall (fun c => c = None) cands -> scanOpt cands pos b best = (b, best).
Proof.
  revert pos. induction cands as [|c rest IH]; intros pos H; [reflexivity|].
  inversion H; subst. cbn. auto.
Qed.

(** ** The split evaluator *)

Lemma zth_of_nat {A} (l : list A) k d : zth l (Z.of_nat k) d = nth k l d.
Proof.
  unfold zth. destruct (Z.ltb_spec (Z.of_nat k) 0); [lia|].
  now rewrite Nat2Z.id.
Qed.

Lemma zth_nonneg l i : Forall (fun c => 0 <= c) l -> 0 <= zth l i 0.
Proof.
  intros H. unfold zth. destruct (i <? 0); [lia|].
  destruct (nth_in_or_default (Z.to_nat i) l 0) as [Hin|Hd]; [|rewrite Hd; lia].
  rewrite Forall_forall in H. now apply H.
Qed.

Lemma cntLeftUpto_mono hist k k' :
  Forall (fun c => 0 <= c) (cnt hist) -> (k <= k')%nat ->
  cntLeftUpto hist k <= cntLeftUpto hist k'.
Proof.
  intros H Hle. induction Hle; [lia|].
  cbn [cntLeftUpto]. pose proof (zth_nonneg (cnt hist) (Z.of_nat m) H). lia.
Qed.

Lemma scanAllBins_scanOpt hist n : forall k b best,
  scanAllBins hist (lossBefore_of hist) n (Z.of_nat k)
    (cntLeftUpto hist k) (sumLeftUpto hist k) b (idx_of best)
  = (idx_of (snd (scanOpt (map (candidate hist) (seq k n)) k b best)),
     fst (scanOpt (map (candidate hist) (seq k n)) k b best)).
Proof.
  induction n as [|n IH]; intros k b best; [reflexivity|].
  cbn [scanAllBins seq map scanOpt].
  replace (Z.of_nat k + 1) with (Z.of_nat (S k)) by lia.
  change (cntLeftUpto hist k + zth (cnt hist) (Z.of_nat k) 0)
    with (cntLeftUpto hist (S k)).
  change (sumLeftUpto hist k + zth (sumy hist) (Z.of_nat k) 0)%float
    with (sumLeftUpto hist (S k)).
  destruct (candidate hist k) as [g|] eqn:Ec; unfold candidate in Ec;
    destruct ((cntLeftUpto hist (S k) <? FLAGS_min_leaf_examples)
              || (totalCnt hist - cntLeftUpto hist (S k)
                    <? FLAGS_min_leaf_examples)); try discriminate.
  - inversion Ec; subst g. destruct (b <? _)%float.
    + apply (IH (S k) _ (Some k)).
    + apply (IH (S k) b best).
  - apply (IH (S k) b best).
Qed.

Lemma scanBins_scanOpt hist n :
  Forall (fun c => 0 <= c) (cnt hist) ->
  forall k b best,
  scanBins hist (lossBefore_of hist) n (Z.of_nat k)
    (cntLeftUpto hist k) (sumLeftUpto hist k) b (idx_of best)
  = (idx_of (snd (scanOpt (map (candidate hist) (seq k n)) k b best)),
     fst (scanOpt (map (candidate hist) (seq k n)) k b best)).
Proof.
  intros Hnn. induction n as [|n IH]; intros k b best; [reflexivity|].
  cbn [scanBins].
  replace (Z.of_nat k + 1) with (Z.of_nat (S k)) by lia.
  change (cntLeftUpto hist k + zth (cnt hist) (Z.of_nat k) 0)
    with (cntLeftUpto hist (S k)).
  change (sumLeftUpto hist k + zth (sumy hist) (Z.of_nat k) 0)%float
    with (sumLeftUpto hist (S k)).
  destruct (cntLeftUpto hist (S k) <? FLAGS_min_leaf_examples) eqn:E1.
  - rewrite (IH (S k) b best). cbn [seq map scanOpt].
    assert (candidate hist k = None) as Ec by (unfold candidate; now rewrite E1).
    rewrite Ec. reflexivity.
  - destruct (totalCnt hist - cntLeftUpto hist (S k) <? FLAGS_min_leaf_examples) eqn:E2.
    + rewrite scanOpt_all_None; [reflexivity|].
      apply Forall_forall. intros c Hc. apply in_map_iff in Hc.
      destruct Hc as (j & Hjc & Hj). subst c. apply in_seq in Hj.
      unfold candidate.
      pose proof (cntLeftUpto_mono hist (S k) (S j) Hnn ltac:(lia)).
      apply Z.ltb_lt in E2.
      destruct (totalCnt hist - cntLeftUpto hist (S j) <? FLAGS_min_leaf_examples) eqn:E3.
      * now rewrite orb_true_r.
      * apply Z.ltb_ge in E3. lia.
    + cbn [seq map scanOpt].
      assert (candidate hist k
              = Some (gain_of hist (lossBefore_of hist) (cntLeftUpto hist (S k))
                        (sumLeftUpto hist (S k)))) as Ec
        by (unfold candidate; now rewrite E1, E2).
      rewrite Ec.
      destruct (b <? _)%float eqn:Eg.
      * apply (IH (S k) _ (Some k)).
      * apply (IH (S k) b best).
Qed.

Lemma candidate_Some hist k g :
  candidate hist k = Some g <->
  FLAGS_min_leaf_examples <= cntLeftAt hist (Z.of_nat k)
  /\ FLAGS_min_leaf_examples <= cntRightAt hist (Z.of_nat k)
  /\ g = gainAt hist (Z.of_nat k).
Proof.
  unfold candidate, gainAt, cntRightAt, cntLeftAt, sumLeftAt. rewrite Nat2Z.id.
  destruct (Z.ltb_spec (cntLeftUpto hist (S k)) FLAGS_min_leaf_examples);
    destruct (Z.ltb_spec (totalCnt hist - cntLeftUpto hist (S k))
                FLAGS_min_leaf_examples); cbn [orb];
    split; try discriminate; try (intros (? & ? & ?); lia).
  - intros H'. inversion H'. repeat split; auto.
  - intros (_ & _ & Hg). subst g. reflexivity.
Qed.

Lemma nth_error_candidates hist n j g :
  nth_error (map (candidate hist) (seq 0 n)) j = Some (Some g) <->
  (j < n)%nat /\ candidate hist j = Some g.
Proof.
  rewrite nth_error_map. split.
  - intros H. destruct (nth_error (seq 0 n) j) as [x|] eqn:E; [|discriminate].
    assert (j < n)%nat as Hj.
    { rewrite <- (length_seq n 0). apply nth_error_Some. congruence. }
    rewrite nth_error_seq in E. apply Nat.ltb_lt in Hj as Hj'. rewrite Hj' in E.
    inversion E; subst. cbn in H. inversion H. auto.
  - intros (Hj & Hc). rewrite nth_error_seq. apply Nat.ltb_lt in Hj.
    rewrite Hj. cbn. now rewrite Hc.
Qed.

Lemma eligible_candidate hist j :
  eligible hist j <->
  exists k, j = Z.of_nat k /\ (k < Z.to_nat (num hist - 1))%nat
            /\ candidate hist k = Some (gainAt hist j).
Proof.
  unfold eligible. split.
  - intros ((H0 & H1) & Hl & Hr). exists (Z.to_nat j).
    rewrite Z2Nat.id by lia. repeat split; [lia|].
    apply candidate_Some. rewrite Z2Nat.id by lia. auto.
  - intros (k & Hjk & Hk & Hc). subst j. apply candidate_Some in Hc.
    destruct Hc as (Hl & Hr & _). repeat split; auto; lia.
Qed.

(** C1.  For a histogram with at least one bin (and counts that are not
    negative), [getBestSplitFromHistogram] returns the lowest boundary
    index among those, in [0 .. num-2] with at least [min_leaf_examples]
    rows on each side, whose gain [lossBefore - lossAfter(idx)] is maximal,
    provided that gain is strictly greater than [0]; otherwise it returns
    index [-1] with gain [0.0].  The scan without the early [break]
    returns the same pair. *)
Theorem getBestSplitFromHistogram_best (hist : Histogram) :
  1 <= num hist ->
  Forall (fun c => 0 <= c) (cnt hist) ->
  exists idx g,
    getBestSplitFromHistogram hist = OK (idx, g)
    /\ getBestSplitFromHistogram_noBreak hist = OK (idx, g)
    /\ ((idx = -1 /\ g = 0%float
         /\ forall j, eligible hist j -> (0 <? gainAt hist j)%float = false)
        \/ (eligible hist idx /\ g = gainAt hist idx /\ (0 <? g)%float = true
            /\ (forall j, eligible hist j -> (g <? gainAt hist j)%float = false)
            /\ (forall j, eligible hist j -> j < idx ->
                          (g <=? gainAt hist j)%float = false))).
Proof.
  intros Hnum Hnn.
  unfold getBestSplitFromHistogram, getBestSplitFromHistogram_noBreak.
  apply Z.leb_le in Hnum as Hnum'. rewrite Hnum'.
  set (n := Z.to_nat (num hist - 1)).
  pose proof (scanBins_scanOpt hist n Hnn 0%nat 0%float None) as HB.
  pose proof (scanAllBins_scanOpt hist n 0%nat 0%float None) as HA.
  cbn [Z.of_nat cntLeftUpto sumLeftUpto idx_of] in HB, HA.
  rewrite HB, HA.
  pose proof (scanOpt_IsBest (map (candidate hist) (seq 0 n)) [] _ _ IsBest_nil)
    as HI.
  cbn [app length] in HI.
  destruct (scanOpt (map (candidate hist) (seq 0 n)) 0 0%float None)
    as [g best]. cbn [fst snd] in *.
  exists (idx_of best), g. split; [reflexivity|]. split; [reflexivity|].
  destruct best as [k|]; cbn [IsBest idx_of] in *.
  - right. destruct HI as (Hk & Hpos & Hmax & Hfirst).
    apply nth_error_candidates in Hk. destruct Hk as (Hkn & Hk).
    pose proof Hk as Hk'. apply candidate_Some in Hk'. destruct Hk' as (_ & _ & Hg).
    split.
    { apply eligible_candidate. exists k. repeat split; auto. now rewrite <- Hg. }
    split; [exact Hg|]. split; [exact Hpos|]. split.
    + intros j Hj. apply eligible_candidate in Hj. destruct Hj as (kj & Hjk & Hjn & Hj). subst j.
      apply (Hmax kj). apply nth_error_candidates. auto.
    + intros j Hj Hlt. apply eligible_candidate in Hj.
      destruct Hj as (kj & Hjk & Hjn & Hj). subst j.
      apply (Hfirst kj); [lia|]. apply nth_error_candidates. auto.
  - left. destruct HI as (Hg & Hall). repeat split; auto.
    intros j Hj. apply eligible_candidate in Hj. destruct Hj as (kj & Hjk & Hjn & Hj). subst j.
    apply (Hall kj). apply nth_error_candidates. auto.
Qed.

(** ** Vectors *)

Lemma length_upd_nth {A} (l : list A) n f : length (upd_nth l n f) = length l.
Proof.
  revert n. induction l as [|x t IH]; intros [|n]; cbn; auto.
Qed.

Lemma nth_error_upd_nth_eq {A} (l : list A) n f x :
  nth_error l n = Some x -> nth_error (upd_nth l n f) n = Some (f x).
Proof.
  revert n. induction l as [|y t IH]; intros [|n] H; cbn in *; try discriminate.
  - now inversion H.
  - auto.
Qed.

Lemma nth_error_upd_nth_neq {A} (l : list A) n m f :
  n <> m -> nth_error (upd_nth l n f) m = nth_error l m.
Proof.
  revert n m. induction l as [|y t IH]; intros [|n] [|m] H; cbn; auto.
  - congruence.
Qed.

Lemma upd_nth_app_l {A} (l l' : list A) n f :
  (n < length l)%nat -> upd_nth (l ++ l') n f = upd_nth l n f ++ l'.
Proof.
  revert n. induction l as [|y t IH]; intros [|n] H; cbn in *; try lia; auto.
  f_equal. apply IH. lia.
Qed.

Lemma upd_nth_twice {A} (l : list A) n f g :
  upd_nth (upd_nth l n f) n g = upd_nth l n (fun x => g (f x)).
Proof.
  revert n. induction l as [|y t IH]; intros [|n]; cbn; auto.
  f_equal. apply IH.
Qed.

Lemma nth_error_upd_nth_inv {A} (l : list A) n m f y :
  nth_error (upd_nth l n f) m = Some y ->
  (m = n /\ exists x, nth_error l n = Some x /\ y = f x)
  \/ (m <> n /\ nth_error l m = Some y).
Proof.
  intros H. destruct (Nat.eq_dec m n) as [->|Hne].
  - left. split; auto.
    destruct (nth_error l n) as [x|] eqn:E.
    + rewrite (nth_error_upd_nth_eq _ _ f _ E) in H. inversion H. eauto.
    + apply nth_error_None in E. rewrite <- (length_upd_nth l n f) in E.
      apply nth_error_None in E. congruence.
  - right. split; auto. rewrite nth_error_upd_nth_neq in H; auto.
Qed.

Lemma length_erase {A} (l : list A) pos :
  (pos < length l)%nat -> length (erase l pos) = (length l - 1)%nat.
Proof.
  intros H. unfold erase. rewrite length_app, length_firstn, length_skipn. lia.
Qed.

Lemma In_erase {A} (l : list A) pos x : In x (erase l pos) -> In x l.
Proof.
  unfold erase. intros H. apply in_app_or in H.
  rewrite <- (firstn_skipn pos l). apply in_or_app.
  destruct H as [H|H]; [left; exact H|right].
  rewrite <- (firstn_skipn 1 (skipn pos l)). apply in_or_app. right.
  now rewrite skipn_skipn.
Qed.

(** ** Partitioning and histograms *)

Lemma split_filter st : forall l r vec fv,
  split st l r vec fv
  = (l ++ filter (goes_left vec fv) st,
     r ++ filter (fun id => negb (goes_left vec fv id)) st).
Proof.
  induction st as [|id rest IH]; intros l r vec fv; cbn [split filter].
  - now rewrite !app_nil_r.
  - change (zth vec id 0 <=? fv) with (goes_left vec fv id).
    destruct (goes_left vec fv id); cbn [negb].
    + rewrite IH, <- app_assoc. reflexivity.
    + rewrite IH, <- app_assoc. reflexivity.
Qed.

Lemma filter_partition_perm {A} (f : A -> bool) (l : list A) :
  Permutation (filter f l ++ filter (fun x => negb (f x)) l) l.
Proof.
  induction l as [|x t IH]; cbn; [constructor|].
  destruct (f x); cbn.
  - now constructor.
  - apply Permutation_sym, Permutation_cons_app, Permutation_sym, IH.
Qed.

Lemma filter_partition_length {A} (f : A -> bool) (l : list A) :
  (length (filter f l) + length (filter (fun x => negb (f x)) l))%nat = length l.
Proof.
  rewrite <- length_app. apply Permutation_length, filter_partition_perm.
Qed.

Lemma zth_zupd {A} (l : list A) v k f d :
  zth (zupd l v f) k d
  = if (k =? v) && (0 <=? k) && (k <? Z.of_nat (length l))
    then f (zth l k d) else zth l k d.
Proof.
  unfold zth, zupd.
  destruct (Z.ltb_spec k 0).
  { replace (0 <=? k) with false by (symmetry; apply Z.leb_gt; lia).
    now rewrite andb_false_r. }
  replace (0 <=? k) with true by (symmetry; apply Z.leb_le; lia).
  rewrite andb_true_r.
  destruct (Z.ltb_spec v 0).
  { replace (k =? v) with false by (symmetry; apply Z.eqb_neq; lia). reflexivity. }
  destruct (Z.eqb_spec k v) as [->|Hne]; cbn [andb].
  - destruct (Z.ltb_spec v (Z.of_nat (length l))).
    + destruct (nth_error l (Z.to_nat v)) as [x|] eqn:E.
      * rewrite (nth_error_nth _ _ d (nth_error_upd_nth_eq _ _ f _ E)).
        now rewrite (nth_error_nth _ _ d E).
      * apply nth_error_None in E. lia.
    + rewrite !nth_overflow; auto; rewrite ?length_upd_nth; lia.
  - destruct (nth_error l (Z.to_nat k)) as [x|] eqn:E.
    + rewrite (nth_error_nth _ _ d E).
      apply nth_error_nth. rewrite nth_error_upd_nth_neq; auto. lia.
    + apply nth_error_None in E.
      rewrite !nth_overflow; auto; rewrite ?length_upd_nth; lia.
Qed.

Lemma length_zupd {A} (l : list A) v f : length (zupd l v f) = length l.
Proof. unfold zupd. destruct (v <? 0); auto using length_upd_nth. Qed.

Lemma buildHistogram_fields st vec : forall hist,
  num (buildHistogram st vec hist) = num hist
  /\ totalCnt (buildHistogram st vec hist) = totalCnt hist
  /\ totalSum (buildHistogram st vec hist) = totalSum hist
  /\ length (cnt (buildHistogram st vec hist)) = length (cnt hist).
Proof.
  induction st as [|id rest IH]; intros hist; cbn [buildHistogram]; auto.
  destruct (IH {| num := num hist;
                  cnt := zupd (cnt hist) (zth vec id 0) (fun c => c + 1);
                  sumy := zupd (sumy hist) (zth vec id 0)
                            (fun s => (s + zth y_ id 0)%float);
                  totalCnt := totalCnt hist; totalSum := totalSum hist |})
    as (H1 & H2 & H3 & H4).
  cbn in *. rewrite length_zupd in H4. auto.
Qed.

(** The rows counted in the bins [0 .. k-1]. *)
Lemma cntLeftUpto_step hist v k sy :
  0 <= v -> (k <= length (cnt hist))%nat ->
  cntLeftUpto {| num := num hist; cnt := zupd (cnt hist) v (fun c => c + 1);
                 sumy := sy; totalCnt := totalCnt hist;
                 totalSum := totalSum hist |} k
  = cntLeftUpto hist k + (if v <? Z.of_nat k then 1 else 0).
Proof.
  intros Hv. induction k as [|k IH]; intros Hk.
  - cbn. destruct (Z.ltb_spec v 0); lia.
  - cbn [cntLeftUpto cnt]. rewrite IH by lia. rewrite zth_zupd.
    replace (0 <=? Z.of_nat k) with true by (symmetry; apply Z.leb_le; lia).
    replace (Z.of_nat k <? Z.of_nat (length (cnt hist))) with true
      by (symmetry; apply Z.ltb_lt; lia).
    rewrite !andb_true_r.
    destruct (Z.eqb_spec (Z.of_nat k) v), (Z.ltb_spec v (Z.of_nat k)),
      (Z.ltb_spec v (Z.of_nat (S k))); lia.
Qed.

Lemma cntLeftUpto_build st vec k : forall hist,
  (forall id, 0 <= zth vec id 0) -> (k <= length (cnt hist))%nat ->
  cntLeftUpto (buildHistogram st vec hist) k
  = cntLeftUpto hist k
    + Z.of_nat (length (filter (fun id => zth vec id 0 <? Z.of_nat k) st)).
Proof.
  induction st as [|id rest IH]; intros hist Hv Hk; cbn [buildHistogram filter].
  - cbn. lia.
  - rewrite IH; auto; [|cbn; now rewrite length_zupd].
    rewrite cntLeftUpto_step; auto.
    destruct (zth vec id 0 <? Z.of_nat k); cbn [length]; lia.
Qed.

Lemma cntLeftUpto_new n c s k : cntLeftUpto (new_Histogram n c s) k = 0.
Proof.
  induction k as [|k IH]; [reflexivity|].
  cbn [cntLeftUpto new_Histogram cnt] in *. rewrite IH, zth_of_nat.
  destruct (nth_in_or_default k (repeat 0 (Z.to_nat n)) 0) as [H|H].
  - apply repeat_spec in H. lia.
  - lia.
Qed.

Lemma cntLeftAt_build st vec n s idx :
  (forall id, 0 <= zth vec id 0) -> 0 <= idx <= n - 2 ->
  cntLeftAt (buildHistogram st vec (new_Histogram n (Z.of_nat (length st)) s)) idx
  = Z.of_nat (length (filter (goes_left vec idx) st)).
Proof.
  intros Hv Hidx. unfold cntLeftAt. rewrite cntLeftUpto_build; auto.
  - rewrite cntLeftUpto_new. cbn [Z.add]. f_equal. f_equal.
    apply filter_ext. intros id. unfold goes_left.
    destruct (Z.ltb_spec (zth vec id 0) (Z.of_nat (S (Z.to_nat idx)))),
      (Z.leb_spec (zth vec id 0) idx); auto; lia.
  - cbn. rewrite repeat_length. lia.
Qed.

(** The histograms the code builds have counts that are not negative. *)
Lemma Forall_upd_nth {A} (P : A -> Prop) (l : list A) n f :
  (forall x, P x -> P (f x)) -> Forall P l -> Forall P (upd_nth l n f).
Proof.
  intros Hf. revert n. induction l as [|x t IH]; intros [|n] H; cbn; auto;
    inversion H; subst; constructor; auto.
Qed.

Lemma buildHistogram_cnt_nonneg st vec : forall hist,
  Forall (fun c => 0 <= c) (cnt hist) ->
  Forall (fun c => 0 <= c) (cnt (buildHistogram st vec hist)).
Proof.
  induction st as [|id rest IH]; intros hist H; cbn [buildHistogram]; auto.
  apply IH. cbn [cnt]. unfold zupd. destruct (zth vec id 0 <? 0); auto.
  apply Forall_upd_nth; auto. intros x Hx. lia.
Qed.

Lemma new_Histogram_cnt_nonneg n c s :
  Forall (fun x => 0 <= x) (cnt (new_Histogram n c s)).
Proof.
  cbn. apply Forall_forall. intros x Hx. apply repeat_spec in Hx. lia.
Qed.

(** ** Sequencing *)

Lemma bind_OK {A B} (m : M A) (k : A -> M B) w b w' :
  bind m k w = OK (b, w') ->
  exists a w1, m w = OK (a, w1) /\ k a w1 = OK (b, w').
Proof.
  unfold bind. destruct (m w) as [[a w1]|f]; [eauto|discriminate].
Qed.

Lemma bind_step {A B} (m : M A) (k : A -> M B) w a w1 :
  m w = OK (a, w1) -> bind m k w = k a w1.
Proof. unfold bind. now intros ->. Qed.

Lemma CHECK_OK b c w u w' : CHECK b c w = OK (u, w') -> b = true /\ w' = w.
Proof.
  unfold CHECK, ret, fail. destruct b; [|discriminate].
  intros H. now inversion H.
Qed.

Lemma lift_OK {A} (r : Res A) w a w' :
  lift r w = OK (a, w') -> r = OK a /\ w' = w.
Proof.
  unfold lift. destruct r; [|discriminate]. intros H. now inversion H.
Qed.

Lemma lift_opt_OK {A} (o : option A) w a w' :
  lift_opt o w = OK (a, w') -> o = Some a /\ w' = w.
Proof.
  unfold lift_opt, ret, fail. destruct o; [|discriminate].
  intros H. now inversion H.
Qed.

Tactic Notation "bind_inv" hyp(H) "as" ident(a) ident(w1) ident(E) :=
  apply bind_OK in H; destruct H as (a & w1 & E & H).

Lemma biasedCoinFlip_OK p w :
  biasedCoinFlip p w
  = OK (coin p (rand_stream (randPos w)),
        {| allSplits_ := allSplits_ w; frontiers_ := frontiers_ w;
           randPos := S (randPos w) |}).
Proof. reflexivity. Qed.

(** ** Candidate construction *)

Lemma scanBins_eligible hist lb n : forall k sl b bi,
  (k + n <= Z.to_nat (num hist - 1))%nat ->
  (bi = -1 /\ b = 0%float) \/ (eligible hist bi /\ (0 <? b)%float = true) ->
  let r := scanBins hist lb n (Z.of_nat k) (cntLeftUpto hist k) sl b bi in
  (fst r = -1 /\ snd r = 0%float)
  \/ (eligible hist (fst r) /\ (0 <? snd r)%float = true).
Proof.
  induction n as [|n IH]; intros k sl b bi Hk Hb; [exact Hb|].
  cbn [scanBins].
  replace (Z.of_nat k + 1) with (Z.of_nat (S k)) by lia.
  change (cntLeftUpto hist k + zth (cnt hist) (Z.of_nat k) 0)
    with (cntLeftUpto hist (S k)).
  destruct (Z.ltb_spec (cntLeftUpto hist (S k)) FLAGS_min_leaf_examples).
  - apply IH; [lia|exact Hb].
  - destruct (Z.ltb_spec (totalCnt hist - cntLeftUpto hist (S k))
                FLAGS_min_leaf_examples); [exact Hb|].
    destruct (b <? _)%float eqn:Eg.
    + apply IH; [lia|]. right. split.
      * unfold eligible, cntRightAt, cntLeftAt. rewrite Nat2Z.id.
        repeat split; lia.
      * destruct Hb as [(_ & Hb)|(_ & Hb)].
        -- subst b. exact Eg.
        -- eapply ltb_trans; eauto.
    + apply IH; [lia|exact Hb].
Qed.

Lemma getBestSplitFromHistogram_eligible hist :
  1 <= num hist ->
  exists idx g,
    getBestSplitFromHistogram hist = OK (idx, g)
    /\ ((idx = -1 /\ g = 0%float)
        \/ (eligible hist idx /\ (0 <? g)%float = true)).
Proof.
  intros Hn. unfold getBestSplitFromHistogram.
  apply Z.leb_le in Hn. rewrite Hn.
  pose proof (scanBins_eligible hist (lossBefore_of hist)
                (Z.to_nat (num hist - 1)) 0 0%float 0%float (-1)
                ltac:(lia) ltac:(left; split; reflexivity)) as H.
  cbn zeta in H. cbn [Z.of_nat cntLeftUpto] in H.
  destruct (scanBins _ _ _ _ _ _ _ _) as [idx g]. eauto.
Qed.

Lemma wf_DataSet_feature fid f :
  wf_DataSet ds_ = true -> zth_error (features_ ds_) fid = Some f ->
  wf_Feature (numExamples ds_) f = true.
Proof.
  unfold wf_DataSet, zth_error. intros H Hf.
  apply andb_prop in H. destruct H as (_ & H).
  destruct (fid <? 0); [discriminate|].
  rewrite forallb_forall in H. apply H. eapply nth_error_In; eauto.
Qed.

Lemma wf_Feature_codes n f :
  wf_Feature n f = true -> encoding f <> EMPTY ->
  (forall id, 0 <= zth (fvec f) id 0)
  /\ Z.of_nat (length (transitions f)) <= 65536.
Proof.
  unfold wf_Feature. intros H Hne.
  assert ((Z.of_nat (length (fvec f)) =? n)
          && forallb (fun c => (0 <=? c) && (c <? code_bound (encoding f))) (fvec f)
          && (Z.of_nat (length (transitions f)) <=? 65536) = true) as H'.
  { destruct (encoding f); [congruence|exact H|exact H]. }
  apply andb_prop in H'. destruct H' as (H1 & H3).
  apply andb_prop in H1. destruct H1 as (_ & H2).
  split; [|now apply Z.leb_le].
  intros id. unfold zth. destruct (id <? 0); [lia|].
  destruct (nth_in_or_default (Z.to_nat id) (fvec f) 0) as [Hin|Hd];
    [|rewrite Hd; lia].
  rewrite forallb_forall in H2. apply H2 in Hin.
  apply andb_prop in Hin. destruct Hin as (Hin & _). now apply Z.leb_le.
Qed.

Lemma to_uint16_small z : 0 <= z < 65536 -> to_uint16 z = z.
Proof. intros H. unfold to_uint16. apply Z.mod_small. lia. Qed.

(** The candidate a feature yields is a usable split. *)
Lemma GoodSplit_of_histogram st ts k f bv g :
  zth_error (features_ ds_) (Z.of_nat k) = Some f ->
  (k < Z.to_nat (numFeatures_ ds_))%nat ->
  encoding f <> EMPTY ->
  eligible (buildHistogram st (fvec f)
              (new_Histogram (Z.of_nat (length (transitions f)) + 1)
                 (Z.of_nat (length st)) ts)) bv ->
  GoodSplit {| subset := st; fid := Z.of_nat k; fv := bv; gain := g;
               selected := false; left := None; right := None |}.
Proof.
  intros Hf Hk Hne (Hfv & Hl & Hr) _. cbn [fid fv subset].
  unfold cntRightAt in Hr.
  destruct (buildHistogram_fields st (fvec f)
              (new_Histogram (Z.of_nat (length (transitions f)) + 1)
                 (Z.of_nat (length st)) ts)) as (Hnum & Htc & _ & _).
  rewrite Hnum in Hfv. rewrite Htc in Hr. cbn [new_Histogram num totalCnt] in Hfv, Hr.
  split; [lia|]. exists f.
  split; [exact Hf|]. split; [exact Hne|]. split; [lia|].
  intros Hwf.
  destruct (wf_Feature_codes _ f (wf_DataSet_feature _ f Hwf Hf) Hne) as (Hc & Ht).
  rewrite cntLeftAt_build in Hl, Hr by (auto; lia).
  unfold split_of. cbn [subset fv]. rewrite to_uint16_small by lia.
  rewrite split_filter. cbn [fst snd app].
  pose proof (filter_partition_length (goes_left (fvec f) bv) st). lia.
Qed.

Lemma GoodSplit_same_split sp sp' :
  subset sp' = subset sp -> fid sp' = fid sp -> fv sp' = fv sp ->
  gain sp' = gain sp -> GoodSplit sp -> GoodSplit sp'.
Proof.
  unfold GoodSplit, split_of. intros -> -> -> ->. auto.
Qed.

Lemma scanFeatures_OK st ts rate n : forall k bf bv bg w res w',
  scanFeatures st ts rate n (Z.of_nat k) bf bv bg w = OK (res, w') ->
  (k + n <= Z.to_nat (numFeatures_ ds_))%nat ->
  (0 <=? bg)%float = true ->
  GoodSplit (candidate_node st bf bv bg) ->
  allSplits_ w' = allSplits_ w /\ frontiers_ w' = frontiers_ w
  /\ (0 <=? snd res)%float = true
  /\ GoodSplit (candidate_node st (fst (fst res)) (snd (fst res)) (snd res)).
Proof.
  induction n as [|n IH]; intros k bf bv bg w res w' H Hk Hbg Hgood.
  - cbn in H. inversion H; subst. cbn. auto.
  - cbn [scanFeatures] in H.
    replace (Z.of_nat k + 1) with (Z.of_nat (S k)) in H by lia.
    bind_inv H as f wa E. apply lift_opt_OK in E. destruct E as (Hf & Ewa).
    subst wa.
    bind_inv H as skip wb E.
    assert (allSplits_ wb = allSplits_ w /\ frontiers_ wb = frontiers_ w
            /\ (skip = false -> encoding f <> EMPTY)) as (HA & HF & Hne).
    { destruct (encoding f) eqn:Ea; cbn [encoding_eqb] in E.
      - inversion E; subst. repeat split; auto. discriminate.
      - bind_inv E as b wc E0. rewrite biasedCoinFlip_OK in E0. inversion E0; subst.
        inversion E; subst. cbn. repeat split; auto. discriminate.
      - bind_inv E as b wc E0. rewrite biasedCoinFlip_OK in E0. inversion E0; subst.
        inversion E; subst. cbn. repeat split; auto. discriminate. }
    destruct skip.
    + apply IH in H; auto; [|lia]. rewrite <- HA, <- HF. exact H.
    + specialize (Hne eq_refl).
      bind_inv H as hist wc E0.
      assert (hist = buildHistogram st (fvec f)
                     (new_Histogram (Z.of_nat (length (transitions f)) + 1)
                        (Z.of_nat (length st)) ts) /\ wc = wb) as (Eh & Ewc).
      { unfold fvec. destruct (encoding f); [congruence| |];
          inversion E0; auto. }
      subst hist wc.
      bind_inv H as r wd E1. apply lift_OK in E1. destruct E1 as (E1 & Ewd).
      subst wd.
      destruct (getBestSplitFromHistogram_eligible
                  (buildHistogram st (fvec f)
                     (new_Histogram (Z.of_nat (length (transitions f)) + 1)
                        (Z.of_nat (length st)) ts))) as (idx & g & E2 & HB).
      { destruct (buildHistogram_fields st (fvec f)
                    (new_Histogram (Z.of_nat (length (transitions f)) + 1)
                       (Z.of_nat (length st)) ts)) as (Hn & _).
        rewrite Hn. cbn. lia. }
      rewrite E2 in E1. inversion E1; subst r.
      destruct (bg <? g)%float eqn:Eg.
      * assert ((0 <? g)%float = true) as Hpos by (eapply leb_ltb_trans; eauto).
        apply IH in H; auto; [| lia | now apply ltb_leb |].
        -- rewrite <- HA, <- HF. exact H.
        -- destruct HB as [(_ & HB)|(HB & _)].
           ++ subst g. rewrite ltb_irrefl in Hpos. discriminate.
           ++ eapply GoodSplit_of_histogram; eauto. lia.
      * apply IH in H; auto; [|lia]. rewrite <- HA, <- HF. exact H.
Qed.

Lemma wf_DataSet_lookup k :
  wf_DataSet ds_ = true -> (k < Z.to_nat (numFeatures_ ds_))%nat ->
  exists f, zth_error (features_ ds_) (Z.of_nat k) = Some f.
Proof.
  unfold wf_DataSet, zth_error. intros H Hk.
  apply andb_prop in H. destruct H as (H & _). apply Z.eqb_eq in H.
  destruct (Z.ltb_spec (Z.of_nat k) 0); [lia|]. rewrite Nat2Z.id.
  destruct (nth_error (features_ ds_) k) eqn:E; [eauto|].
  apply nth_error_None in E. lia.
Qed.

Lemma scanFeatures_total st ts rate n : forall k bf bv bg w,
  wf_DataSet ds_ = true ->
  (k + n <= Z.to_nat (numFeatures_ ds_))%nat ->
  exists res w', scanFeatures st ts rate n (Z.of_nat k) bf bv bg w = OK (res, w').
Proof.
  induction n as [|n IH]; intros k bf bv bg w Hwf Hk.
  - cbn. unfold ret. eauto.
  - cbn [scanFeatures].
    replace (Z.of_nat k + 1) with (Z.of_nat (S k)) by lia.
    destruct (wf_DataSet_lookup k Hwf ltac:(lia)) as (f & Hf).
    unfold bind at 1. rewrite Hf. cbn [lift_opt ret].
    unfold bind at 1.
    destruct (encoding f) eqn:Ef; cbn [encoding_eqb ret].
    + apply IH; auto. lia.
    + unfold bind at 1. rewrite biasedCoinFlip_OK. cbn [ret].
      destruct (negb _); [apply IH; auto; lia|].
      unfold bind at 1. cbn [ret].
      destruct (getBestSplitFromHistogram_eligible
                  (buildHistogram st (bvec f)
                     (new_Histogram (Z.of_nat (length (transitions f)) + 1)
                        (Z.of_nat (length st)) ts))) as (idx & g & E2 & _).
      { destruct (buildHistogram_fields st (bvec f)
                    (new_Histogram (Z.of_nat (length (transitions f)) + 1)
                       (Z.of_nat (length st)) ts)) as (Hn & _).
        rewrite Hn. cbn. lia. }
      unfold bind at 1. rewrite E2. cbn [lift].
      destruct (bg <? g)%float; apply IH; auto; lia.
    + unfold bind at 1. rewrite biasedCoinFlip_OK. cbn [ret].
      destruct (negb _); [apply IH; auto; lia|].
      unfold bind at 1. cbn [ret].
      destruct (getBestSplitFromHistogram_eligible
                  (buildHistogram st (svec f)
                     (new_Histogram (Z.of_nat (length (transitions f)) + 1)
                        (Z.of_nat (length st)) ts))) as (idx & g & E2 & _).
      { destruct (buildHistogram_fields st (svec f)
                    (new_Histogram (Z.of_nat (length (transitions f)) + 1)
                       (Z.of_nat (length st)) ts)) as (Hn & _).
        rewrite Hn. cbn. lia. }
      unfold bind at 1. rewrite E2. cbn [lift].
      destruct (bg <? g)%float; apply IH; auto; lia.
Qed.

Lemma GoodSplit_zero sp : gain sp = 0%float -> GoodSplit sp.
Proof. unfold GoodSplit. intros ->. rewrite ltb_irrefl. discriminate. Qed.

(** [getBestSplit] pushes one node, and puts it on the frontier unless it
    is terminal. *)
Lemma getBestSplit_OK st rate terminal w p w' :
  getBestSplit st rate terminal w = OK (p, w') ->
  p = length (allSplits_ w)
  /\ exists sp,
      allSplits_ w' = allSplits_ w ++ [sp]
      /\ frontiers_ w'
         = (if terminal then frontiers_ w
            else frontiers_ w ++ [length (allSplits_ w)])
      /\ Fresh st terminal sp.
Proof.
  unfold getBestSplit. destruct terminal.
  - unfold push_allSplits. intros H. inversion H; subst. cbn.
    split; auto. exists (new_SplitNode st).
    split; [reflexivity|]. split; [reflexivity|].
    do 4 (split; [reflexivity|]). split; [reflexivity|]. split; [auto|].
    apply GoodSplit_zero. reflexivity.
  - intros H. bind_inv H as a w1 E. destruct a as [[bf bv] bg].
    apply scanFeatures_OK with (k := 0%nat) in E;
      [| lia | reflexivity | apply GoodSplit_zero; reflexivity].
    destruct E as (HA & HF & Hg & Hgood). cbn [fst snd] in *.
    unfold bind, push_frontiers, push_allSplits in H. inversion H; subst.
    cbn. rewrite HA, HF. split; auto.
    eexists. split; [reflexivity|]. split; [reflexivity|].
    do 4 (split; [reflexivity|]). split; [exact Hg|]. split; [discriminate|].
    exact Hgood.
Qed.

Lemma getBestSplit_total st rate terminal w :
  wf_DataSet ds_ = true ->
  exists p w', getBestSplit st rate terminal w = OK (p, w').
Proof.
  intros Hwf. unfold getBestSplit. destruct terminal.
  - unfold push_allSplits. eauto.
  - destruct (scanFeatures_total st (sumTargets st 0%float) rate
                (Z.to_nat (numFeatures_ ds_)) 0 (-1) 0 0%float w Hwf ltac:(lia))
      as ([[bf bv] bg] & w1 & E).
    unfold bind at 1. cbn [Z.of_nat] in E. rewrite E.
    unfold bind, push_frontiers, push_allSplits. eauto.
Qed.

(** ** The search over the frontier *)

Lemma scanFrontier_scanOpt arena its : forall pos b best r,
  scanFrontier arena its pos b best = OK r ->
  exists nodes,
    Forall2 (fun p sp => nth_error arena p = Some sp) its nodes
    /\ r = scanOpt (map (fun sp => Some (gain sp)) nodes) pos b best.
Proof.
  induction its as [|p rest IH]; intros pos b best r H; cbn in H.
  - inversion H. exists []. split; [constructor|reflexivity].
  - destruct (nth_error arena p) as [sp|] eqn:E; [|discriminate].
    destruct (b <? gain sp)%float eqn:Eg;
      apply IH in H; destruct H as (nodes & HF & Hr);
      exists (sp :: nodes); (split; [now constructor|]);
      cbn [map scanOpt]; rewrite Eg; exact Hr.
Qed.

Lemma scanFrontier_total arena its : forall pos b best,
  (forall p, In p its -> exists sp, nth_error arena p = Some sp) ->
  exists r, scanFrontier arena its pos b best = OK r.
Proof.
  induction its as [|p rest IH]; intros pos b best H; cbn; [eauto|].
  destruct (H p (or_introl eq_refl)) as (sp & E). rewrite E.
  destruct (b <? gain sp)%float; apply IH; intros q Hq; apply H; now right.
Qed.

Lemma Forall2_nth_error_both {A B} (R : A -> B -> Prop) l l' :
  Forall2 R l l' ->
  forall j x, nth_error l j = Some x ->
  exists y, nth_error l' j = Some y /\ R x y.
Proof.
  induction 1 as [|a b l l' Hab HF IH]; intros [|j] x Hj; cbn in *;
    try discriminate.
  - inversion Hj; subst. eauto.
  - eauto.
Qed.

Lemma Forall2_nth_error_rev {A B} (R : A -> B -> Prop) l l' :
  Forall2 R l l' ->
  forall j y, nth_error l' j = Some y ->
  exists x, nth_error l j = Some x /\ R x y.
Proof.
  induction 1 as [|a b l l' Hab HF IH]; intros [|j] y Hj; cbn in *;
    try discriminate.
  - inversion Hj; subst. eauto.
  - eauto.
Qed.

(** What the search over the frontier returns: [None] when no member has
    a gain above [0.0]; else the first position among those of the highest
    gain. *)
Lemma scanFrontier_best arena frontier g best :
  scanFrontier arena frontier 0 0%float None = OK (g, best) ->
  match best with
  | None =>
      g = 0%float
      /\ forall p sp, In p frontier -> nth_error arena p = Some sp ->
                      (0 <? gain sp)%float = false
  | Some pos =>
      exists p sp,
        nth_error frontier pos = Some p /\ nth_error arena p = Some sp
        /\ gain sp = g /\ (0 <? g)%float = true
        /\ forall j q sq,
            nth_error frontier j = Some q -> nth_error arena q = Some sq ->
            (g <? gain sq)%float = false
            /\ ((j < pos)%nat -> (g <=? gain sq)%float = false)
  end.
Proof.
  intros H. apply scanFrontier_scanOpt in H. destruct H as (nodes & HF & Hr).
  pose proof (scanOpt_IsBest (map (fun sp => Some (gain sp)) nodes) [] _ _
                IsBest_nil) as HI.
  cbn [app length] in HI. rewrite <- Hr in HI. cbn [fst snd] in HI.
  assert (forall j q sq, nth_error frontier j = Some q ->
            nth_error arena q = Some sq ->
            nth_error (map (fun sp => Some (gain sp)) nodes) j
            = Some (Some (gain sq))) as Hcs.
  { intros j q sq Hj Hq.
    destruct (Forall2_nth_error_both _ _ _ HF j q Hj) as (y & Hy & Hqy).
    rewrite nth_error_map, Hy. cbn. congruence. }
  destruct best as [pos|]; cbn [IsBest] in HI.
  - destruct HI as (Hk & Hpos & Hmax & Hfirst).
    rewrite nth_error_map in Hk.
    destruct (nth_error nodes pos) as [sp|] eqn:En; [|discriminate].
    cbn in Hk. assert (gain sp = g) as Hg by congruence.
    destruct (Forall2_nth_error_rev _ _ _ HF pos sp En) as (p & Hp & Hpsp).
    exists p, sp. split; [exact Hp|]. split; [exact Hpsp|].
    split; [exact Hg|]. split; [exact Hpos|].
    intros j q sq Hj Hq. split.
    + apply (Hmax j). eauto.
    + intros Hlt. apply (Hfirst j); eauto.
  - destruct HI as (Hg & Hall). split; auto.
    intros p sp Hin Hp. apply In_nth_error in Hin. destruct Hin as (j & Hj).
    apply (Hall j). eauto.
Qed.

(** ** One pass of the loop *)

Lemma selectExpand_None numSplits rate n w w' :
  selectExpand numSplits rate n w = OK (None, w') ->
  w' = w
  /\ exists g, scanFrontier (allSplits_ w) (frontiers_ w) 0 0%float None
               = OK (g, None).
Proof.
  unfold selectExpand. intros H.
  bind_inv H as fr w1 E. inversion E; subst fr w1; clear E.
  bind_inv H as u w1 E. apply CHECK_OK in E. destruct E as (_ & Ew). subst w1.
  bind_inv H as ar w1 E. inversion E; subst ar w1; clear E.
  bind_inv H as r w1 E. apply lift_OK in E. destruct E as (E & Ew). subst w1.
  destruct r as [g [pos|]].
  - exfalso.
    bind_inv H as u1 w1 E1. bind_inv H as p w2 E2. bind_inv H as u3 w3 E3.
    bind_inv H as u4 w4 E4. bind_inv H as sp w5 E5. bind_inv H as lr w6 E6.
    destruct lr as [lst rst].
    bind_inv H as l w7 E7. bind_inv H as u8 w8 E8. bind_inv H as r w9 E9.
    bind_inv H as u10 w10 E10. inversion H.
  - inversion H; subst. eauto.
Qed.

Lemma selectExpand_Some numSplits rate n w n' w' :
  selectExpand numSplits rate n w = OK (Some n', w') ->
  let l := length (allSplits_ w) in
  let terminal := n + 1 =? numSplits in
  exists pos p sp g f spl spr,
    Z.of_nat (length (frontiers_ w)) = to_size_t (n + 1)
    /\ scanFrontier (allSplits_ w) (frontiers_ w) 0 0%float None
       = OK (g, Some pos)
    /\ nth_error (frontiers_ w) pos = Some p
    /\ nth_error (allSplits_ w) p = Some sp
    /\ zth_error (features_ ds_) (fid sp) = Some f
    /\ encoding f <> EMPTY
    /\ n' = n + 1
    /\ Fresh (fst (split_of sp f)) terminal spl
    /\ Fresh (snd (split_of sp f)) terminal spr
    /\ allSplits_ w' = upd_nth (allSplits_ w) p (expanded l (S l)) ++ [spl; spr]
    /\ frontiers_ w'
       = erase (frontiers_ w) pos ++ (if terminal then [] else [l; S l]).
Proof.
  unfold selectExpand. intros H.
  bind_inv H as fr w1 E. inversion E; subst fr w1; clear E.
  bind_inv H as u w1 E. apply CHECK_OK in E. destruct E as (Hlen & Ew). subst w1.
  apply Z.eqb_eq in Hlen.
  bind_inv H as ar w1 E. inversion E; subst ar w1; clear E.
  bind_inv H as r w1 E. apply lift_OK in E. destruct E as (Escan & Ew). subst w1.
  destruct r as [g [pos|]]; [|inversion H].
  bind_inv H as u1 w1 E. apply CHECK_OK in E. destruct E as (Hpos & Ew). subst w1.
  bind_inv H as p w1 E. apply lift_opt_OK in E. destruct E as (Hp & Ew). subst w1.
  bind_inv H as u2 w1 E. unfold store in E.
  destruct (nth_error (allSplits_ w) p) as [sp|] eqn:Esp; [|discriminate].
  inversion E; subst u2 w1; clear E.
  bind_inv H as u3 w1 E. inversion E; subst u3 w1; clear E.
  bind_inv H as sp1 w1 E. unfold deref in E. cbn [allSplits_] in E.
  rewrite (nth_error_upd_nth_eq _ _ set_selected _ Esp) in E.
  inversion E; subst sp1 w1; clear E.
  bind_inv H as lr w1 E. destruct lr as [lst rst].
  unfold splitExamples in E. cbn [set_selected fid fv subset] in E.
  bind_inv E as f w2 Ef. apply lift_opt_OK in Ef. destruct Ef as (Hf & Ew). subst w2.
  assert (encoding f <> EMPTY /\ (lst, rst) = split_of sp f /\ w1 = 
          {| allSplits_ := upd_nth (allSplits_ w) p set_selected;
             frontiers_ := erase (frontiers_ w) pos; randPos := randPos w |})
    as (Hne & Hsplit & Ew).
  { unfold split_of, fvec. destruct (encoding f); try discriminate;
      inversion E; subst; repeat split; auto; discriminate. }
  subst w1. clear E.
  bind_inv H as l w1 E. apply getBestSplit_OK in E.
  destruct E as (El & spl & HAl & HFl & Hspl). cbn [allSplits_ frontiers_] in *.
  rewrite length_upd_nth in El, HFl.
  bind_inv H as u4 w2 E. unfold store in E. rewrite HAl in E.
  assert (p < length (allSplits_ w))%nat as Hplt
    by (apply nth_error_Some; congruence).
  rewrite nth_error_app1 in E by (rewrite length_upd_nth; exact Hplt).
  rewrite (nth_error_upd_nth_eq _ _ set_selected _ Esp) in E.
  inversion E; subst u4 w2; clear E.
  bind_inv H as r w2 E. apply getBestSplit_OK in E.
  destruct E as (Er & spr & HAr & HFr & Hspr). cbn [allSplits_ frontiers_] in *.
  bind_inv H as u5 w3 E. unfold store in E. rewrite HAr in E.
  rewrite upd_nth_app_l in E by (rewrite length_upd_nth; exact Hplt).
  rewrite upd_nth_twice in E.
  rewrite <- app_assoc in E.
  rewrite nth_error_app1 in E by (rewrite length_upd_nth; exact Hplt).
  rewrite (nth_error_upd_nth_eq _ _ _ _ Esp) in E.
  inversion E; subst u5 w3; clear E.
  inversion H; subst n' w'; clear H. cbn [allSplits_ frontiers_].
  exists pos, p, sp, g, f, spl, spr.
  replace (fst (split_of sp f)) with lst by (now rewrite <- Hsplit).
  replace (snd (split_of sp f)) with rst by (now rewrite <- Hsplit).
  repeat match goal with |- _ /\ _ => split end; auto.
  - rewrite upd_nth_app_l by (rewrite length_upd_nth; exact Hplt).
    rewrite upd_nth_twice.
    rewrite length_upd_nth, length_app, length_upd_nth in Er. cbn [length] in Er.
    replace r with (S (length (allSplits_ w))) by lia.
    subst l. reflexivity.
  - rewrite HFr, HFl. rewrite length_upd_nth, length_app, length_upd_nth.
    cbn [length].
    destruct (n + 1 =? numSplits); [now rewrite app_nil_r|].
    rewrite <- app_assoc. cbn [app]. repeat f_equal. lia.
Qed.

(** ** The invariant of the grower *)

Lemma filter_selected_upd (l : list SplitNode) (f : SplitNode -> SplitNode) :
  forall q x, nth_error l q = Some x -> selected x = false ->
  selected (f x) = true ->
  length (filter selected (upd_nth l q f)) = S (length (filter selected l)).
Proof.
  induction l as [|y t IH]; intros [|q] x Hq Hx Hfx; cbn in Hq;
    try discriminate.
  - inversion Hq; subst y. cbn. rewrite Hx, Hfx. reflexivity.
  - cbn [upd_nth filter]. destruct (selected y); cbn [length];
      rewrite (IH q x Hq Hx Hfx); reflexivity.
Qed.

Section Expansion.

Variables (arena : list SplitNode) (p : nat) (sp spl spr : SplitNode).
Hypothesis Hp : nth_error arena p = Some sp.

Let L := length arena.
Let arena' := upd_nth arena p (expanded L (S L)) ++ [spl; spr].

Lemma expand_lt : (p < L)%nat.
Proof. apply nth_error_Some. congruence. Qed.

Lemma expand_at_p : nth_error arena' p = Some (expanded L (S L) sp).
Proof.
  unfold arena'. rewrite nth_error_app1 by (rewrite length_upd_nth; apply expand_lt).
  now apply nth_error_upd_nth_eq.
Qed.

Lemma expand_at_old q : q <> p -> (q < L)%nat ->
  nth_error arena' q = nth_error arena q.
Proof.
  intros Hne Hlt. unfold arena'.
  rewrite nth_error_app1 by (now rewrite length_upd_nth).
  apply nth_error_upd_nth_neq. congruence.
Qed.

Lemma expand_at_l : nth_error arena' L = Some spl.
Proof.
  unfold arena'. rewrite nth_error_app2 by (rewrite length_upd_nth; apply Nat.le_refl).
  rewrite length_upd_nth. fold L. now rewrite Nat.sub_diag.
Qed.

Lemma expand_at_r : nth_error arena' (S L) = Some spr.
Proof.
  unfold arena'. rewrite nth_error_app2 by (rewrite length_upd_nth; fold L; lia).
  rewrite length_upd_nth. fold L. replace (S L - L)%nat with 1%nat by lia.
  reflexivity.
Qed.

Lemma expand_length : length arena' = S (S L).
Proof.
  unfold arena'. rewrite length_app, length_upd_nth. cbn. fold L. lia.
Qed.

Lemma expand_inv q x :
  nth_error arena' q = Some x ->
  (q = p /\ x = expanded L (S L) sp)
  \/ (q <> p /\ nth_error arena q = Some x)
  \/ (q = L /\ x = spl)
  \/ (q = S L /\ x = spr).
Proof.
  intros H. destruct (Nat.eq_dec q p) as [->|Hne].
  - left. rewrite expand_at_p in H. inversion H. auto.
  - right. destruct (Nat.lt_ge_cases q L) as [Hlt|Hge].
    + left. rewrite expand_at_old in H; auto.
    + right. assert (q < S (S L))%nat as Hq.
      { rewrite <- expand_length. apply nth_error_Some. congruence. }
      assert (q = L \/ q = S L) as [->| ->] by lia.
      * left. rewrite expand_at_l in H. inversion H. auto.
      * right. rewrite expand_at_r in H. inversion H. auto.
Qed.

(** Every node of the arena is still there, with the same subset and the
    same candidate split. *)
Lemma expand_old q x :
  nth_error arena q = Some x ->
  exists x', nth_error arena' q = Some x'
             /\ subset x' = subset x /\ fid x' = fid x /\ fv x' = fv x
             /\ gain x' = gain x /\ (q <> p -> x' = x).
Proof.
  intros H. destruct (Nat.eq_dec q p) as [->|Hne].
  - rewrite Hp in H. inversion H; subst x.
    exists (expanded L (S L) sp). rewrite expand_at_p. repeat split; auto.
    congruence.
  - exists x.
    rewrite expand_at_old by (auto; apply nth_error_Some; congruence).
    repeat split; auto.
Qed.

Hypothesis Hunsel : selected sp = false.
Hypothesis Hlsel : selected spl = false.
Hypothesis Hrsel : selected spr = false.

Lemma Sub_expand q ns :
  Sub arena q ns -> Sub arena' q (flat_map (grow_at p L (S L)) ns).
Proof.
  induction 1 as [q x Hq Hsel | q x l r nl nr Hq Hsel Hl Hr HSl IHl HSr IHr].
  - cbn [flat_map]. rewrite app_nil_r. unfold grow_at.
    destruct (Nat.eqb_spec q p) as [->|Hne].
    + eapply Sub_node with (nl := [L]) (nr := [S L]);
        [apply expand_at_p | reflexivity | reflexivity | reflexivity | |].
      * eapply Sub_leaf; [apply expand_at_l | exact Hlsel].
      * eapply Sub_leaf; [apply expand_at_r | exact Hrsel].
    + eapply Sub_leaf; [|exact Hsel]. rewrite expand_at_old; auto.
      apply nth_error_Some. congruence.
  - assert (q <> p) as Hne by (intros ->; congruence).
    cbn [flat_map]. rewrite flat_map_app. unfold grow_at at 1.
    destruct (Nat.eqb_spec q p) as [|_]; [contradiction|]. cbn [app].
    eapply Sub_node; eauto.
    rewrite expand_at_old; auto. apply nth_error_Some. congruence.
Qed.

Lemma flat_map_grow_other ns :
  ~ In p ns -> flat_map (grow_at p L (S L)) ns = ns.
Proof.
  induction ns as [|x t IH]; intros H; [reflexivity|].
  cbn [flat_map]. unfold grow_at at 1.
  destruct (Nat.eqb_spec x p) as [->|_]; [exfalso; apply H; now left|].
  cbn [app]. f_equal. apply IH. intros Hin. apply H. now right.
Qed.

Lemma flat_map_grow_perm xs :
  NoDup xs -> In p xs ->
  Permutation (flat_map (grow_at p L (S L)) xs) (xs ++ [L; S L]).
Proof.
  induction xs as [|x t IH]; intros Hnd Hin; [contradiction|].
  inversion Hnd as [|? ? Hx Ht]; subst.
  cbn [flat_map]. unfold grow_at at 1.
  destruct (Nat.eqb_spec x p) as [->|Hne].
  - rewrite flat_map_grow_other by exact Hx. cbn [app].
    apply perm_skip. apply (Permutation_app_comm [L; S L] t).
  - cbn [app]. apply perm_skip. apply IH; auto.
    destruct Hin as [Hin|Hin]; [congruence|exact Hin].
Qed.

Lemma grow_seq :
  Permutation (flat_map (grow_at p L (S L)) (seq 0 L)) (seq 0 (S (S L))).
Proof.
  replace (S (S L)) with (L + 2)%nat by lia. rewrite seq_app.
  apply flat_map_grow_perm; [apply seq_NoDup|].
  apply in_seq. pose proof expand_lt. lia.
Qed.

Lemma expand_count :
  length (filter selected arena') = S (length (filter selected arena)).
Proof.
  unfold arena'. rewrite filter_app. cbn [filter]. rewrite Hlsel, Hrsel.
  rewrite app_nil_r. eapply filter_selected_upd; eauto.
Qed.

End Expansion.

Lemma NoDup_erase {A} (l : list A) pos x :
  NoDup l -> nth_error l pos = Some x ->
  NoDup (erase l pos) /\ ~ In x (erase l pos).
Proof.
  intros Hnd Hx. apply nth_error_split in Hx.
  destruct Hx as (l1 & l2 & -> & <-). unfold erase.
  rewrite firstn_app, Nat.sub_diag, firstn_all. cbn [firstn]. rewrite app_nil_r.
  replace (skipn (S (length l1)) (l1 ++ x :: l2)) with l2.
  2:{ replace (S (length l1)) with (length (l1 ++ [x]))
        by (rewrite length_app; cbn; lia).
      replace (l1 ++ x :: l2) with ((l1 ++ [x]) ++ l2)
        by (rewrite <- app_assoc; reflexivity).
      now rewrite skipn_app, skipn_all, Nat.sub_diag. }
  split.
  - eapply NoDup_remove_1; eauto.
  - eapply NoDup_remove_2; eauto.
Qed.

Lemma GInv_root st rate w0 p w :
  unused w0 ->
  getBestSplit st rate false w0 = OK (p, w) ->
  GInv st w /\ p = 0%nat /\ length (frontiers_ w) = 1%nat /\ selectedCount w = 0.
Proof.
  intros (HA0 & HF0) H. apply getBestSplit_OK in H.
  destruct H as (Hp & sp & HA & HF & Hsub & Hsel & Hl & Hr & Hg & _ & Hgood).
  rewrite HA0, HF0 in *. cbn [app length] in *.
  assert (forall q x, nth_error (allSplits_ w) q = Some x -> q = 0%nat /\ x = sp)
    as Honly.
  { intros q x Hq. rewrite HA in Hq. destruct q as [|[|q]]; cbn in Hq;
      try discriminate. inversion Hq. auto. }
  split; [constructor|].
  - exists sp. rewrite HA. auto.
  - exists [0%nat]. rewrite HA. split; [|constructor; constructor].
    eapply Sub_leaf; [reflexivity|exact Hsel].
  - intros q Hq. rewrite HF in Hq. destruct Hq as [<-|[]].
    exists sp. rewrite HA. auto.
  - rewrite HF. constructor; [intros []|constructor].
  - intros q x Hq Hx. apply Honly in Hq. destruct Hq as (_ & ->). congruence.
  - intros q x Hq. apply Honly in Hq. destruct Hq as (_ & ->). exact Hg.
  - intros q x Hq. apply Honly in Hq. destruct Hq as (_ & ->). exact Hgood.
  - intros Hnd q x Hq. apply Honly in Hq. destruct Hq as (_ & ->). congruence.
  - intros _ Hmin q x Hq. apply Honly in Hq. destruct Hq as (_ & ->). congruence.
  - unfold selectedCount. rewrite HA, HF. cbn. rewrite Hsel. auto.
Qed.

Lemma GInv_step st0 numSplits rate n w n' w' :
  GInv st0 w ->
  selectExpand numSplits rate n w = OK (Some n', w') ->
  GInv st0 w' /\ n' = n + 1
  /\ selectedCount w' = selectedCount w + 1
  /\ Z.of_nat (length (frontiers_ w'))
     = Z.of_nat (length (frontiers_ w))
       + (if n + 1 =? numSplits then -1 else 1).
Proof.
  intros HI H. apply selectExpand_Some in H. cbv zeta in H.
  destruct H as (pos & p & sp & g & f & spl & spr & Hlen & Hscan & Hpos & Hp
                 & Hf & Hne & Hn' & Hspl & Hspr & HA & HF).
  apply scanFrontier_best in Hscan.
  destruct Hscan as (p0 & sp0 & Hp0 & Hsp0 & Hg & Hgpos & _).
  rewrite Hpos in Hp0. inversion Hp0; subst p0.
  rewrite Hp in Hsp0. inversion Hsp0; subst sp0.
  assert (In p (frontiers_ w)) as Hin by (eapply nth_error_In; eauto).
  destruct (inv_frontier _ _ HI p Hin) as (sp1 & Hsp1 & Hunsel).
  rewrite Hp in Hsp1. inversion Hsp1; subst sp1.
  destruct Hspl as (Hlsub & Hlsel & Hlleft & Hlright & Hlgain & _ & Hlgood).
  destruct Hspr as (Hrsub & Hrsel & Hrleft & Hrright & Hrgain & _ & Hrgood).
  destruct (NoDup_erase _ _ _ (inv_frontier_nodup _ _ HI) Hpos) as (Hnd & Hnotin).
  assert (p < length (allSplits_ w))%nat as Hplt
    by (apply nth_error_Some; congruence).
  assert (forall q, In q (frontiers_ w) -> (q < length (allSplits_ w))%nat)
    as Hvalid.
  { intros q Hq. destruct (inv_frontier _ _ HI q Hq) as (x & Hx & _).
    apply nth_error_Some. congruence. }
  split; [constructor|].
  - destruct (inv_root _ _ HI) as (r0 & Hr0 & Hsub). rewrite HA.
    destruct (expand_old _ _ _ spl spr Hp 0%nat r0 Hr0) as (x' & Hx' & Hs & _).
    exists x'. split; congruence.
  - destruct (inv_tree _ _ HI) as (ns & HS & HP).
    exists (flat_map (grow_at p (length (allSplits_ w))
                        (S (length (allSplits_ w)))) ns).
    rewrite HA. split; [apply (Sub_expand _ _ sp); auto|].
    rewrite expand_length. eapply Permutation_trans.
    + apply Permutation_flat_map. exact HP.
    + apply (grow_seq _ _ sp Hp).
  - intros q Hq. rewrite HF in Hq. apply in_app_or in Hq. destruct Hq as [Hq|Hq].
    + assert (q <> p) as Hqp by (intros ->; contradiction).
      apply In_erase in Hq.
      destruct (inv_frontier _ _ HI q Hq) as (x & Hx & Hxsel).
      exists x. rewrite HA, expand_at_old; auto.
    + destruct (n + 1 =? numSplits); [contradiction|].
      destruct Hq as [<-|[<-|[]]].
      * exists spl. rewrite HA, expand_at_l; auto.
      * exists spr. rewrite HA, expand_at_r; auto.
  - rewrite HF. apply NoDup_app; auto.
    + destruct (n + 1 =? numSplits); constructor.
      * intros [H|[]]. lia.
      * constructor; [intros []|constructor].
    + intros q Hq Hq'. apply In_erase, Hvalid in Hq.
      destruct (n + 1 =? numSplits); [contradiction|].
      destruct Hq' as [<-|[<-|[]]]; lia.
  - intros q x Hq Hsel. rewrite HA in Hq.
    destruct (expand_inv _ _ _ _ _ Hp q x Hq)
      as [(Hqp & Hx) | [(Hqp & Hq') | [(Hqp & Hx) | (Hqp & Hx)]]].
    + subst q x. split; [cbn [expanded gain]; now rewrite Hg|].
      exists f, (length (allSplits_ w)), (S (length (allSplits_ w))), spl, spr.
      split; [exact Hf|]. split; [exact Hne|].
      split; [reflexivity|]. split; [reflexivity|].
      rewrite HA. split; [apply expand_at_l|].
      split; [apply expand_at_r|].
      rewrite Hlsub, Hrsub. symmetry. apply surjective_pairing.
    + destruct (inv_selected _ _ HI q x Hq' Hsel)
        as (Hgq & f0 & l0 & r0 & sl0 & sr0 & Hf0 & Hne0 & Hl0 & Hr0 & Hsl0 & Hsr0 & Hsplit0).
      split; [exact Hgq|].
      destruct (expand_old _ _ _ spl spr Hp l0 sl0 Hsl0) as (sl' & Hsl' & Hsubl & _).
      destruct (expand_old _ _ _ spl spr Hp r0 sr0 Hsr0) as (sr' & Hsr' & Hsubr & _).
      exists f0, l0, r0, sl', sr'. rewrite HA.
      repeat (split; [assumption|]). congruence.
    + subst x. congruence.
    + subst x. congruence.
  - intros q x Hq. rewrite HA in Hq.
    destruct (expand_inv _ _ _ _ _ Hp q x Hq)
      as [(Hqp & Hx) | [(Hqp & Hq') | [(Hqp & Hx) | (Hqp & Hx)]]]; subst; auto.
    + cbn [expanded gain]. eapply inv_gain; eauto.
    + eapply inv_gain; eauto.
  - intros q x Hq. rewrite HA in Hq.
    destruct (expand_inv _ _ _ _ _ Hp q x Hq)
      as [(Hqp & Hx) | [(Hqp & Hq') | [(Hqp & Hx) | (Hqp & Hx)]]]; subst; auto.
    + eapply (GoodSplit_same_split sp); try reflexivity.
      eapply inv_good; eauto.
    + eapply inv_good; eauto.
  - intros Hnd0 q x Hq. rewrite HA in Hq.
    pose proof (inv_nodup _ _ HI Hnd0 p sp Hp) as Hndp.
    destruct (expand_inv _ _ _ _ _ Hp q x Hq)
      as [(Hqp & Hx) | [(Hqp & Hq') | [(Hqp & Hx) | (Hqp & Hx)]]].
    + subst x. exact Hndp.
    + eapply inv_nodup; eauto.
    + subst x. rewrite Hlsub. unfold split_of. rewrite split_filter.
      cbn [fst app]. now apply NoDup_filter.
    + subst x. rewrite Hrsub. unfold split_of. rewrite split_filter.
      cbn [snd app]. now apply NoDup_filter.
  - intros Hwf Hmin q x Hq. rewrite HA in Hq.
    pose proof (inv_good _ _ HI p sp Hp) as Hgoodp.
    unfold GoodSplit in Hgoodp. rewrite Hg in Hgoodp.
    destruct (Hgoodp Hgpos) as (_ & f' & Hf' & _ & _ & Hsz).
    rewrite Hf in Hf'. inversion Hf'; subst f'.
    destruct (Hsz Hwf) as (Hszl & Hszr).
    destruct (expand_inv _ _ _ _ _ Hp q x Hq)
      as [(Hqp & Hx) | [(Hqp & Hq') | [(Hqp & Hx) | (Hqp & Hx)]]].
    + subst x. cbn [expanded subset]. eapply inv_minleaf; eauto.
    + eapply inv_minleaf; eauto.
    + subst x. now rewrite Hlsub.
    + subst x. now rewrite Hrsub.
  - split; [exact Hn'|]. split.
    + unfold selectedCount. rewrite HA.
      rewrite (expand_count _ _ sp spl spr Hp Hunsel Hlsel Hrsel). lia.
    + rewrite HF, length_app, length_erase
        by (apply nth_error_Some; congruence).
      assert (pos < length (frontiers_ w))%nat
        by (apply nth_error_Some; congruence).
      destruct (n + 1 =? numSplits); cbn [length]; lia.
Qed.

Lemma Head_inv st numSplits rate n w :
  Head st numSplits rate n w ->
  GInv st w
  /\ Z.of_nat (length (frontiers_ w)) = n + 1
  /\ selectedCount w = n
  /\ 0 <= n /\ (n = 0 \/ n < numSplits).
Proof.
  induction 1 as [w0 p w Hun H | n w n' w' HH IH H Hlt].
  - apply GInv_root in H; [|exact Hun]. destruct H as (HI & _ & HF & HC).
    rewrite HF. split; [exact HI|]. repeat split; auto; lia.
  - destruct IH as (HI & HF & HC & Hn & _).
    destruct (GInv_step _ _ _ _ _ _ _ HI H) as (HI' & Hn' & HC' & HF').
    subst n'. replace (n + 1 =? numSplits) with false in HF'
      by (symmetry; apply Z.eqb_neq; lia).
    split; [exact HI'|]. repeat split; auto; lia.
Qed.

Lemma selectExpand_total st0 numSplits rate n w :
  wf_DataSet ds_ = true ->
  GInv st0 w ->
  Z.of_nat (length (frontiers_ w)) = n + 1 ->
  0 <= n < 2 ^ 63 ->
  exists r w', selectExpand numSplits rate n w = OK (r, w').
Proof.
  intros Hwf HI HF Hn. unfold selectExpand.
  rewrite (bind_step get_frontiers _ w (frontiers_ w) w eq_refl).
  assert (CHECK (Z.of_nat (length (frontiers_ w)) =? to_size_t (n + 1))
            CHECK_frontier_size w = OK (tt, w)) as E.
  { unfold to_size_t. rewrite Z.mod_small by lia.
    apply Z.eqb_eq in HF. rewrite HF. reflexivity. }
  rewrite (bind_step _ _ _ _ _ E). clear E.
  rewrite (bind_step get_allSplits _ w (allSplits_ w) w eq_refl).
  destruct (scanFrontier_total (allSplits_ w) (frontiers_ w) 0 0%float None)
    as ([g best] & Escan).
  { intros p Hp. destruct (inv_frontier _ _ HI p Hp) as (sp & Hsp & _). eauto. }
  assert (lift (scanFrontier (allSplits_ w) (frontiers_ w) 0 0%float None) w
          = OK ((g, best), w)) as E by (now rewrite Escan).
  rewrite (bind_step _ _ _ _ _ E). clear E.
  destruct best as [pos|]; [|unfold ret; eauto].
  apply scanFrontier_best in Escan.
  destruct Escan as (p & sp & Hp & Hsp & Hg & Hgpos & _).
  assert (CHECK (0 <? g)%float CHECK_bestGain_positive w = OK (tt, w)) as E
    by (now rewrite Hgpos).
  rewrite (bind_step _ _ _ _ _ E). clear E.
  assert (lift_opt (nth_error (frontiers_ w) pos) w = OK (p, w)) as E
    by (now rewrite Hp).
  rewrite (bind_step _ _ _ _ _ E). clear E.
  set (w1 := {| allSplits_ := upd_nth (allSplits_ w) p set_selected;
                frontiers_ := frontiers_ w; randPos := randPos w |}).
  assert (store p set_selected w = OK (tt, w1)) as E
    by (unfold store; now rewrite Hsp).
  rewrite (bind_step _ _ _ _ _ E). clear E.
  set (w2 := {| allSplits_ := allSplits_ w1;
                frontiers_ := erase (frontiers_ w1) pos; randPos := randPos w1 |}).
  rewrite (bind_step (erase_frontier pos) _ w1 tt w2 eq_refl).
  assert (deref p w2 = OK (set_selected sp, w2)) as E.
  { unfold deref. cbn [w2 w1 allSplits_].
    now rewrite (nth_error_upd_nth_eq _ _ set_selected _ Hsp). }
  rewrite (bind_step _ _ _ _ _ E). clear E.
  pose proof (inv_good _ _ HI p sp Hsp) as Hgood.
  unfold GoodSplit in Hgood. rewrite Hg in Hgood.
  destruct (Hgood Hgpos) as (_ & f & Hf & Hne & _).
  assert (exists lr, splitExamples (set_selected sp) w2 = OK (lr, w2)) as (lr & E).
  { unfold splitExamples. cbn [set_selected fid fv subset].
    assert (lift_opt (zth_error (features_ ds_) (fid sp)) w2 = OK (f, w2)) as E
      by (now rewrite Hf).
    rewrite (bind_step _ _ _ _ _ E).
    destruct (encoding f); [congruence| |]; unfold ret; eauto. }
  rewrite (bind_step _ _ _ _ _ E). clear E. destruct lr as [lst rst].
  destruct (getBestSplit_total lst rate (n + 1 =? numSplits) w2 Hwf)
    as (l & w3 & E).
  rewrite (bind_step _ _ _ _ _ E).
  apply getBestSplit_OK in E. destruct E as (_ & spl & HA3 & _).
  assert (p < length (allSplits_ w))%nat as Hplt
    by (apply nth_error_Some; congruence).
  assert (exists w4, store p (set_left l) w3 = OK (tt, w4)
                     /\ allSplits_ w4 = upd_nth (allSplits_ w3) p (set_left l))
    as (w4 & E & HA4).
  { unfold store. rewrite HA3. cbn [w2 w1 allSplits_].
    rewrite nth_error_app1 by (now rewrite length_upd_nth).
    rewrite (nth_error_upd_nth_eq _ _ set_selected _ Hsp). eauto. }
  rewrite (bind_step _ _ _ _ _ E). clear E.
  destruct (getBestSplit_total rst rate (n + 1 =? numSplits) w4 Hwf)
    as (r & w5 & E).
  rewrite (bind_step _ _ _ _ _ E).
  apply getBestSplit_OK in E. destruct E as (_ & spr & HA5 & _).
  assert (exists w6, store p (set_right r) w5 = OK (tt, w6)) as (w6 & E).
  { unfold store.
    destruct (nth_error (allSplits_ w5) p) eqn:En; [eauto|].
    apply nth_error_None in En. rewrite HA5, HA4, HA3 in En.
    cbn [w2 w1 allSplits_] in En.
    rewrite length_app, length_upd_nth, length_app, length_upd_nth in En. lia. }
  rewrite (bind_step _ _ _ _ _ E). unfold ret. eauto.
Qed.

Lemma LastPass_GInv st0 numSplits rate n w w' :
  GInv st0 w -> LastPass numSplits rate n w w' -> GInv st0 w'.
Proof.
  intros HI [H|(H & _)].
  - apply selectExpand_None in H. destruct H as (-> & _). exact HI.
  - eapply GInv_step; eauto.
Qed.

(** The loop ends, within its bound, by a last pass from a state in which
    its body is entered. *)
Lemma growLoop_run st numSplits rate : forall fuel n w,
  wf_DataSet ds_ = true -> numSplits < 2 ^ 31 ->
  Head st numSplits rate n w ->
  (1 <= fuel)%nat -> (Z.to_nat (numSplits - n) <= fuel)%nat ->
  exists n1 w1 w',
    growLoop fuel numSplits rate n w = OK (tt, w')
    /\ Head st numSplits rate n1 w1
    /\ LastPass numSplits rate n1 w1 w'.
Proof.
  induction fuel as [|fuel IH]; intros n w Hwf Hns HH Hf1 Hf; [lia|].
  destruct (Head_inv _ _ _ _ _ HH) as (HI & HF & _ & Hn0 & Hn).
  destruct (selectExpand_total st numSplits rate n w Hwf HI HF ltac:(lia))
    as (r & w' & E).
  cbn [growLoop]. rewrite (bind_step _ _ _ _ _ E).
  destruct r as [n'|].
  - destruct (GInv_step _ _ _ _ _ _ _ HI E) as (_ & Hn' & _). subst n'.
    destruct (Z.ltb_spec (n + 1) numSplits) as [Hlt|Hge].
    + destruct (IH (n + 1) w' Hwf Hns) as (n1 & w1 & w'' & Hrun & HH1 & HL);
        [eapply Head_next; eauto | lia | lia |].
      exists n1, w1, w''. auto.
    + exists n, w, w'. repeat split; auto. right. auto.
  - exists n, w, w'. repeat split; auto. left. exact E.
Qed.

(** Whatever the bound, a run of the loop that returns has ended this
    way. *)
Lemma growLoop_OK st numSplits rate : forall fuel n w u w',
  Head st numSplits rate n w ->
  growLoop fuel numSplits rate n w = OK (u, w') ->
  exists n1 w1,
    Head st numSplits rate n1 w1 /\ LastPass numSplits rate n1 w1 w'.
Proof.
  induction fuel as [|fuel IH]; intros n w u w' HH H; [discriminate|].
  cbn [growLoop] in H. bind_inv H as r w1 E.
  destruct (Head_inv _ _ _ _ _ HH) as (HI & _).
  destruct r as [n'|].
  - destruct (GInv_step _ _ _ _ _ _ _ HI E) as (_ & Hn' & _). subst n'.
    destruct (Z.ltb_spec (n + 1) numSplits) as [Hlt|Hge].
    + eapply IH; [|exact H]. eapply Head_next; eauto.
    + inversion H; subst. exists n, w. split; auto. right. auto.
  - inversion H; subst. exists n, w. split; auto. left. exact E.
Qed.

Lemma getBestSplits_OK st numSplits rate w0 root w' :
  unused w0 ->
  getBestSplits st numSplits rate w0 = OK (root, w') ->
  root = 0%nat
  /\ exists n1 w1,
      Head st numSplits rate n1 w1 /\ LastPass numSplits rate n1 w1 w'.
Proof.
  unfold getBestSplits. intros Hun H.
  bind_inv H as p wa E. bind_inv H as u w1 E1. inversion H; subst p w1.
  split; [apply GInv_root in E; [|exact Hun]; destruct E as (_ & Hp & _); exact Hp|].
  eapply growLoop_OK; [|exact E1]. eapply Head_root; [exact Hun|exact E].
Qed.

Lemma getBestSplits_GInv st numSplits rate w0 root w' :
  unused w0 ->
  getBestSplits st numSplits rate w0 = OK (root, w') ->
  root = 0%nat /\ GInv st w'.
Proof.
  intros Hun H. apply getBestSplits_OK in H; [|exact Hun].
  destruct H as (Hr & n1 & w1 & HH & HL). split; auto.
  eapply LastPass_GInv; eauto. eapply Head_inv; eauto.
Qed.

Lemma getBestSplits_total st numSplits rate w0 :
  wf_DataSet ds_ = true -> numSplits < 2 ^ 31 -> unused w0 ->
  exists w', getBestSplits st numSplits rate w0 = OK (0%nat, w').
Proof.
  intros Hwf Hns Hun. unfold getBestSplits.
  destruct (getBestSplit_total st rate false w0 Hwf) as (p & wa & E).
  rewrite (bind_step _ _ _ _ _ E).
  pose proof (GInv_root _ _ _ _ _ Hun E) as (_ & Hp & _). subst p.
  destruct (growLoop_run st numSplits rate (Z.to_nat (Z.max 1 numSplits)) 0 wa
              Hwf Hns (Head_root _ _ _ _ _ _ Hun E) ltac:(lia) ltac:(lia))
    as (n1 & w1 & w' & Hrun & _).
  rewrite (bind_step _ _ _ _ _ Hrun). unfold ret. eauto.
Qed.

Lemma unused_fresh : unused fresh_World.
Proof. split; reflexivity. Qed.

(** ** The materializer *)

Lemma zth_error_Some {A} (l : list A) i x :
  zth_error l i = Some x -> 0 <= i < Z.of_nat (length l).
Proof.
  unfold zth_error. destruct (Z.ltb_spec i 0) as [Hi|Hi]; [discriminate|].
  intros Hx.
  assert (Z.to_nat i < length l)%nat by (apply nth_error_Some; congruence).
  lia.
Qed.

Lemma zth_error_None {A} (l : list A) i :
  zth_error l i = None -> i < 0 \/ Z.of_nat (length l) <= i.
Proof.
  unfold zth_error. destruct (Z.ltb_spec i 0) as [Hi|Hi]; [auto|].
  intros Hx. apply nth_error_None in Hx. lia.
Qed.

Lemma zth_error_same_length {A} (l l' : list A) i :
  length l = length l' -> zth_error l i = None -> zth_error l' i = None.
Proof.
  intros Hlen H. apply zth_error_None in H.
  destruct (zth_error l' i) eqn:E; [|reflexivity].
  apply zth_error_Some in E. lia.
Qed.

Lemma internal_app arena ns ns' :
  internal arena (ns ++ ns') = internal arena ns ++ internal arena ns'.
Proof. apply filter_app. Qed.

Lemma gains_on_app arena f ns ns' :
  gains_on arena f (ns ++ ns') = gains_on arena f ns ++ gains_on arena f ns'.
Proof. apply flat_map_app. Qed.

Lemma getTreeHelper_Sub arena p ns :
  Sub arena p ns ->
  forall fuel fimps, (length ns <= fuel)%nat ->
  match getTreeHelper fuel arena (Some p) fimps with
  | OK (t, fimps') =>
      t <> None /\ length fimps' = length fimps
      /\ forall f, zth fimps' f 0%float
                   = fold_left PrimFloat.add
                       (gains_on arena f (internal arena ns))
                       (zth fimps f 0%float)
  | Abort (CheckFailed c) =>
      c = CHECK_leaf_size
      /\ exists q sp, In q ns /\ nth_error arena q = Some sp
                      /\ selected sp = false
                      /\ Z.of_nat (length (subset sp))
                         < to_size_t FLAGS_min_leaf_examples
  | Abort OutOfBounds =>
      exists q sp, In q ns /\ nth_error arena q = Some sp
                   /\ selected sp = true
                   /\ zth_error fimps (fid sp) = None
  | Abort OutOfFuel => False
  end.
Proof.
  induction 1 as [q x Hq Hsel | q x l r nl nr Hq Hsel Hl Hr HSl IHl HSr IHr];
    intros fuel fimps Hfuel.
  - destruct fuel as [|fuel]; [cbn in Hfuel; lia|].
    cbn [getTreeHelper]. rewrite Hq, Hsel. cbn [negb].
    destruct (Z.leb_spec (to_size_t FLAGS_min_leaf_examples)
                (Z.of_nat (length (subset x)))).
    + split; [discriminate|]. split; [reflexivity|].
      intros f. unfold internal, is_selected. cbn [filter]. rewrite Hq, Hsel.
      reflexivity.
    + split; [reflexivity|]. exists q, x. repeat split; auto. now left.
  - destruct fuel as [|fuel]; [cbn in Hfuel; lia|].
    cbn [length] in Hfuel. rewrite length_app in Hfuel.
    cbn [getTreeHelper]. rewrite Hq, Hsel. cbn [negb].
    destruct (zth_error fimps (fid x)) as [v|] eqn:Ev.
    2:{ exists q, x. repeat split; auto. now left. }
    apply zth_error_Some in Ev.
    set (fimps1 := zupd fimps (fid x) (fun y => (y + gain x)%float)).
    assert (length fimps1 = length fimps) as Hlen1 by apply length_zupd.
    specialize (IHl fuel fimps1 ltac:(lia)). rewrite Hl.
    destruct (getTreeHelper fuel arena (Some l) fimps1) as [[tl fimps2]|fl].
    2:{ destruct fl as [c| |]; [| |contradiction].
        - destruct IHl as (Hc & q' & sp' & Hin & H1 & H2 & H3).
          split; [exact Hc|]. exists q', sp'. repeat split; auto.
          right. apply in_or_app. now left.
        - destruct IHl as (q' & sp' & Hin & H1 & H2 & H3).
          exists q', sp'. repeat split; auto.
          + right. apply in_or_app. now left.
          + eapply zth_error_same_length; eauto. }
    destruct IHl as (_ & Hlen2 & Hval2).
    specialize (IHr fuel fimps2 ltac:(lia)). rewrite Hr.
    destruct (getTreeHelper fuel arena (Some r) fimps2) as [[tr fimps3]|fr].
    2:{ destruct fr as [c| |]; [| |contradiction].
        - destruct IHr as (Hc & q' & sp' & Hin & H1 & H2 & H3).
          split; [exact Hc|]. exists q', sp'. repeat split; auto.
          right. apply in_or_app. now right.
        - destruct IHr as (q' & sp' & Hin & H1 & H2 & H3).
          exists q', sp'. repeat split; auto.
          + right. apply in_or_app. now right.
          + eapply zth_error_same_length; [|exact H3]. congruence. }
    destruct IHr as (_ & Hlen3 & Hval3).
    split; [discriminate|]. split; [congruence|].
    intros f. rewrite Hval3, Hval2.
    unfold internal. cbn [filter]. unfold is_selected at 3. rewrite Hq, Hsel.
    rewrite filter_app. cbn [gains_on flat_map]. rewrite flat_map_app, Hq.
    rewrite !fold_left_app. f_equal. f_equal.
    unfold fimps1. rewrite zth_zupd.
    destruct (Z.eqb_spec f (fid x)) as [->|Hne].
    + rewrite Z.eqb_refl.
      replace (0 <=? fid x) with true by (symmetry; apply Z.leb_le; lia).
      replace (fid x <? Z.of_nat (length fimps)) with true
        by (symmetry; apply Z.ltb_lt; lia).
      reflexivity.
    + replace (fid x =? f) with false by (symmetry; apply Z.eqb_neq; congruence).
      reflexivity.
Qed.

(** ** Sampling *)

Lemma sampleExamples_OK rate n : forall i st w,
  exists add w',
    sampleExamples rate n i st w = OK (st ++ add, w')
    /\ allSplits_ w' = allSplits_ w /\ frontiers_ w' = frontiers_ w
    /\ (forall x, In x add -> i <= x < i + Z.of_nat n)
    /\ NoDup add /\ (length add <= n)%nat.
Proof.
  induction n as [|n IH]; intros i st w.
  - exists [], w. cbn. rewrite app_nil_r.
    split; [reflexivity|]. split; [reflexivity|]. split; [reflexivity|].
    split; [intros x []|]. split; [constructor|lia].
  - cbn [sampleExamples].
    rewrite (bind_step _ _ _ _ _ (biasedCoinFlip_OK rate w)).
    destruct (IH (i + 1)
                (if coin rate (rand_stream (randPos w)) then st ++ [i] else st)
                {| allSplits_ := allSplits_ w; frontiers_ := frontiers_ w;
                   randPos := S (randPos w) |})
      as (add & w' & E & HA & HF & Hin & Hnd & Hlen).
    destruct (coin rate (rand_stream (randPos w))).
    + exists (i :: add), w'. rewrite E, <- app_assoc. cbn [app].
      split; [reflexivity|]. split; [exact HA|]. split; [exact HF|]. split.
      * intros x [Hx|Hx]; [lia|]. apply Hin in Hx. lia.
      * split; [|cbn [length]; lia].
        constructor; auto. intros Hi. apply Hin in Hi. lia.
    + exists add, w'. rewrite E.
      split; [reflexivity|]. split; [exact HA|]. split; [exact HF|].
      split; [|split; [exact Hnd|lia]].
      intros x Hx. apply Hin in Hx. lia.
Qed.

(** [getTree], step by step. *)
Lemma getTree_unfold numLeaves exRate featRate fimps w0 :
  exists st w1,
    sampleExamples exRate (Z.to_nat (numExamples ds_)) 0 [] w0 = OK (st, w1)
    /\ allSplits_ w1 = allSplits_ w0 /\ frontiers_ w1 = frontiers_ w0
    /\ NoDup st /\ (length st <= Z.to_nat (numExamples ds_))%nat
    /\ getTree numLeaves exRate featRate fimps w0
       = if to_size_t (FLAGS_min_leaf_examples * numLeaves)
            <=? Z.of_nat (length st)
         then match getBestSplits st (numLeaves - 1) featRate w1 with
              | OK (root, w') =>
                  lift (getTreeHelper (length (allSplits_ w')) (allSplits_ w')
                          (Some root) fimps) w'
              | Abort f => Abort f
              end
         else Abort (CheckFailed CHECK_sample_size).
Proof.
  destruct (sampleExamples_OK exRate (Z.to_nat (numExamples ds_)) 0 [] w0)
    as (st & w1 & E & HA & HF & _ & Hnd & Hlen).
  cbn [app] in E. exists st, w1. do 5 (split; [assumption|]).
  unfold getTree. rewrite (bind_step _ _ _ _ _ E).
  destruct (to_size_t (FLAGS_min_leaf_examples * numLeaves)
            <=? Z.of_nat (length st)); [|reflexivity].
  unfold CHECK, ret. unfold bind at 1. unfold bind at 1.
  destruct (getBestSplits st (numLeaves - 1) featRate w1) as [[root w']|f];
    reflexivity.
Qed.

(** ** Partitioning of the selected nodes *)

Lemma split_of_filter sp f :
  split_of sp f
  = (filter (goes_left (fvec f) (to_uint16 (fv sp))) (subset sp),
     filter (fun id => negb (goes_left (fvec f) (to_uint16 (fv sp)) id))
       (subset sp)).
Proof. unfold split_of. now rewrite split_filter. Qed.

Lemma splitExamples_split_of sp f w :
  zth_error (features_ ds_) (fid sp) = Some f -> encoding f <> EMPTY ->
  splitExamples sp w = OK (split_of sp f, w).
Proof.
  intros Hf Hne. unfold splitExamples.
  assert (lift_opt (zth_error (features_ ds_) (fid sp)) w = OK (f, w)) as E
    by (now rewrite Hf).
  rewrite (bind_step _ _ _ _ _ E). unfold split_of, fvec.
  destruct (encoding f); [congruence| |]; reflexivity.
Qed.

(** C2.  After growth on a well-formed data set, from a sampled subset
    without repetition, every selected node has two children whose subsets
    are the two vectors [splitExamples] produces for it; together they are
    a rearrangement of the parent's subset without repetition (no row
    dropped, none duplicated, the two disjoint), and a row of the parent is
    in the left one iff its encoded value for the chosen feature is [<=]
    the chosen threshold [fv], in the right one otherwise. *)
Theorem splitExamples_partitions (st : list Z) (numSplits : Z) (rate : double)
    (w0 : World) (root : nat) (w' : World) :
  wf_DataSet ds_ = true -> NoDup st -> unused w0 ->
  getBestSplits st numSplits rate w0 = OK (root, w') ->
  forall p sp,
    nth_error (allSplits_ w') p = Some sp -> selected sp = true ->
    exists f l r spl spr,
      zth_error (features_ ds_) (fid sp) = Some f
      /\ left sp = Some l /\ right sp = Some r
      /\ nth_error (allSplits_ w') l = Some spl
      /\ nth_error (allSplits_ w') r = Some spr
      /\ (forall w, splitExamples sp w = OK ((subset spl, subset spr), w))
      /\ Permutation (subset spl ++ subset spr) (subset sp)
      /\ NoDup (subset spl ++ subset spr)
      /\ (forall id, In id (subset spl) -> ~ In id (subset spr))
      /\ (forall id, In id (subset sp) ->
            (In id (subset spl) <-> zth (fvec f) id 0 <= fv sp)
            /\ (In id (subset spr) <-> fv sp < zth (fvec f) id 0)).
Proof.
  intros Hwf Hnd Hun H p sp Hp Hsel.
  apply getBestSplits_GInv in H; [|exact Hun]. destruct H as (_ & HI).
  destruct (inv_selected _ _ HI p sp Hp Hsel)
    as (Hg & f & l & r & spl & spr & Hf & Hne & Hl & Hr & Hspl & Hspr & Hsplit).
  pose proof (inv_good _ _ HI p sp Hp Hg) as (_ & f' & Hf' & _ & Hfv & _).
  rewrite Hf in Hf'. inversion Hf'; subst f'.
  destruct (wf_Feature_codes _ f (wf_DataSet_feature _ f Hwf Hf) Hne) as (_ & Ht).
  rewrite split_of_filter, to_uint16_small in Hsplit by lia.
  inversion Hsplit as [[Hsl Hsr]].
  pose proof (inv_nodup _ _ HI Hnd p sp Hp) as Hndp.
  pose proof (filter_partition_perm (goes_left (fvec f) (fv sp)) (subset sp))
    as Hperm.
  rewrite <- Hsl, <- Hsr in Hperm.
  exists f, l, r, spl, spr.
  do 5 (split; [assumption|]).
  split.
  { intros w. rewrite (splitExamples_split_of sp f w Hf Hne).
    rewrite split_of_filter, to_uint16_small by lia. congruence. }
  split; [exact Hperm|].
  split; [eapply Permutation_NoDup; [apply Permutation_sym; exact Hperm|exact Hndp]|].
  split.
  - intros id Hil Hir. rewrite Hsl in Hil. rewrite Hsr in Hir.
    apply filter_In in Hil, Hir.
    destruct Hil as (_ & Hil), Hir as (_ & Hir). rewrite Hil in Hir. discriminate.
  - intros id Hin. rewrite Hsl, Hsr. unfold goes_left. rewrite !filter_In.
    split; split.
    + intros (_ & Hle). now apply Z.leb_le.
    + intros Hle. split; [exact Hin|]. now apply Z.leb_le.
    + intros (_ & Hgt). apply negb_true_iff, Z.leb_gt in Hgt. exact Hgt.
    + intros Hgt. split; [exact Hin|]. now apply negb_true_iff, Z.leb_gt.
Qed.

(** ** The frontier and the selection *)

(** C3 (amended).  Whenever the body of the loop is entered (where the
    source checks it), [numSelected] is the number of selected nodes and
    the frontier holds one more entry than that.  A pass that expands a
    node re-establishes this when the two children are put on the
    frontier; in the pass that makes the children terminal
    ([numSelected == numSplits]) they are not, and the frontier is left
    with [numSelected - 1] entries. *)
Theorem frontier_size_at_loop_head (st : list Z) (numSplits : Z)
    (rate : double) (n : Z) (w : World) :
  Head st numSplits rate n w ->
  n = selectedCount w
  /\ Z.of_nat (length (frontiers_ w)) = selectedCount w + 1
  /\ forall n' w',
      selectExpand numSplits rate n w = OK (Some n', w') ->
      n' = selectedCount w'
      /\ Z.of_nat (length (frontiers_ w'))
         = if n' =? numSplits then selectedCount w' - 1
           else selectedCount w' + 1.
Proof.
  intros HH. destruct (Head_inv _ _ _ _ _ HH) as (HI & HF & HC & _).
  split; [congruence|]. split; [congruence|].
  intros n' w' H.
  destruct (GInv_step _ _ _ _ _ _ _ HI H) as (_ & Hn' & HC' & HF').
  subst n'. split; [lia|]. rewrite HF'.
  destruct (n + 1 =? numSplits); lia.
Qed.

Lemma ltb_of_not_leb x y :
  (x <=? x)%float = true -> (y <=? y)%float = true ->
  (x <=? y)%float = false -> (y <? x)%float = true.
Proof.
  intros Hx Hy H. apply leb_key in Hx, Hy. apply ltb_key.
  destruct Hx as (a & a' & Ha & _ & _), Hy as (b & b' & Hb & _ & _).
  exists b, a. repeat split; auto.
  destruct (lex_total a b) as [L|[L|L]]; auto.
  - assert ((x <=? y)%float = true) as C by (apply leb_key; eauto 7).
    congruence.
  - assert ((x <=? y)%float = true) as C by (apply leb_key; eauto 7).
    congruence.
Qed.

(** C5 (amended).  In a pass of the loop, the node chosen from the frontier
    has a gain strictly greater than [0]; no frontier member has a greater
    gain, and every member ahead of it in frontier order has a strictly
    smaller one (members behind it may have the same gain).  It is the
    only node the pass selects.  If no frontier member has a gain above
    [0], the pass selects nothing, leaves the state as it is and ends the
    loop. *)
Theorem selectExpand_first_best (st : list Z) (numSplits : Z) (rate : double)
    (n : Z) (w : World) (r : option Z) (w' : World) :
  Head st numSplits rate n w ->
  selectExpand numSplits rate n w = OK (r, w') ->
  match r with
  | None =>
      w' = w
      /\ forall p sp, In p (frontiers_ w) ->
           nth_error (allSplits_ w) p = Some sp -> (0 <? gain sp)%float = false
  | Some _ =>
      exists pos p sp,
        nth_error (frontiers_ w) pos = Some p
        /\ nth_error (allSplits_ w) p = Some sp
        /\ is_selected (allSplits_ w) p = false
        /\ is_selected (allSplits_ w') p = true
        /\ (forall q, q <> p ->
              is_selected (allSplits_ w') q = is_selected (allSplits_ w) q)
        /\ (0 <? gain sp)%float = true
        /\ forall j q sq,
            nth_error (frontiers_ w) j = Some q ->
            nth_error (allSplits_ w) q = Some sq ->
            (gain sq <=? gain sp)%float = true
            /\ ((j < pos)%nat -> (gain sq <? gain sp)%float = true)
  end.
Proof.
  intros HH H. destruct (Head_inv _ _ _ _ _ HH) as (HI & _).
  destruct r as [n'|].
  - apply selectExpand_Some in H. cbv zeta in H.
    destruct H as (pos & p & sp & g & f & spl & spr & _ & Hscan & Hpos & Hp
                   & _ & _ & _ & Hspl & Hspr & HA & _).
    apply scanFrontier_best in Hscan.
    destruct Hscan as (p0 & sp0 & Hp0 & Hsp0 & Hg & Hgpos & Hbest).
    rewrite Hpos in Hp0. inversion Hp0; subst p0.
    rewrite Hp in Hsp0. inversion Hsp0; subst sp0.
    destruct (inv_frontier _ _ HI p (nth_error_In _ _ Hpos)) as (sp1 & Hsp1 & Hunsel).
    rewrite Hp in Hsp1. inversion Hsp1; subst sp1.
    destruct Hspl as (_ & Hlsel & _). destruct Hspr as (_ & Hrsel & _).
    exists pos, p, sp.
    split; [exact Hpos|]. split; [exact Hp|].
    split; [unfold is_selected; now rewrite Hp|].
    split; [unfold is_selected; rewrite HA, (expand_at_p _ _ _ _ _ Hp); reflexivity|].
    split.
    { intros q Hq. unfold is_selected. rewrite HA.
      destruct (nth_error (upd_nth _ _ _ ++ _) q) as [x|] eqn:E.
      - destruct (expand_inv _ _ _ _ _ Hp q x E)
          as [(Hqp & Hx) | [(Hqp & Hq') | [(Hqp & Hx) | (Hqp & Hx)]]].
        + contradiction.
        + now rewrite Hq'.
        + subst q x. rewrite Hlsel.
          destruct (nth_error (allSplits_ w) (length (allSplits_ w))) eqn:E';
            [|reflexivity].
          assert (length (allSplits_ w) < length (allSplits_ w))%nat
            by (apply nth_error_Some; congruence). lia.
        + subst q x. rewrite Hrsel.
          destruct (nth_error (allSplits_ w) (S (length (allSplits_ w)))) eqn:E';
            [|reflexivity].
          assert (S (length (allSplits_ w)) < length (allSplits_ w))%nat
            by (apply nth_error_Some; congruence). lia.
      - destruct (nth_error (allSplits_ w) q) as [x|] eqn:E'; [|reflexivity].
        destruct (expand_old _ _ _ spl spr Hp q x E') as (x' & Hx' & _).
        congruence. }
    rewrite Hg. split; [exact Hgpos|].
    intros j q sq Hj Hq. destruct (Hbest j q sq Hj Hq) as (Hle & Hlt).
    pose proof (leb_refl_of_leb _ _ (inv_gain _ _ HI q sq Hq)) as Hq_num.
    pose proof (leb_refl_of_leb _ _ (inv_gain _ _ HI p sp Hp)) as Hp_num.
    rewrite Hg in Hp_num. split.
    + apply leb_total; auto.
    + intros Hjp. apply ltb_of_not_leb; auto.
  - apply selectExpand_None in H. destruct H as (-> & g & Hscan).
    apply scanFrontier_best in Hscan. destruct Hscan as (_ & Hall).
    split; [reflexivity|exact Hall].
Qed.

(** C9.  After growth, every selected node has a gain above [0], and every
    node with a gain above [0] has a feature id of the data set, of a
    feature that is not [EMPTY], and a threshold that is a bin boundary of
    that feature; [splitExamples] on a selected node finds its feature, so
    the id [-1] of a node without a split never reaches it.  On a
    well-formed data set growth does not fail. *)
Theorem selected_nodes_have_valid_split (st : list Z) (numSplits : Z)
    (rate : double) (w0 : World) :
  unused w0 ->
  (forall root w',
     getBestSplits st numSplits rate w0 = OK (root, w') ->
     forall p sp, nth_error (allSplits_ w') p = Some sp ->
       (selected sp = true -> (0 <? gain sp)%float = true)
       /\ ((0 <? gain sp)%float = true ->
           0 <= fid sp < numFeatures_ ds_
           /\ exists f,
               zth_error (features_ ds_) (fid sp) = Some f
               /\ encoding f <> EMPTY
               /\ 0 <= fv sp <= Z.of_nat (length (transitions f)) - 1
               /\ forall w, splitExamples sp w = OK (split_of sp f, w)))
  /\ (wf_DataSet ds_ = true -> numSplits < 2 ^ 31 ->
      exists w', getBestSplits st numSplits rate w0 = OK (0%nat, w')).
Proof.
  intros Hun. split.
  - intros root w' H p sp Hp.
    apply getBestSplits_GInv in H; [|exact Hun]. destruct H as (_ & HI). split.
    + intros Hsel. now destruct (inv_selected _ _ HI p sp Hp Hsel).
    + intros Hg.
      destruct (inv_good _ _ HI p sp Hp Hg) as (Hfid & f & Hf & Hne & Hfv & _).
      split; [exact Hfid|]. exists f. repeat split; auto; try lia.
      intros w. now apply splitExamples_split_of.
  - intros Hwf Hns. now apply getBestSplits_total.
Qed.

(** ** The budget of the grower *)

(** The grower returns after at most [max 1 numSplits] expansions: the body
    of its [do ... while] runs once before [numSplits] is looked at. *)
Lemma getBestSplits_budget st numSplits rate w0 root w' :
  unused w0 ->
  getBestSplits st numSplits rate w0 = OK (root, w') ->
  selectedCount w' <= Z.max 1 numSplits.
Proof.
  intros Hun H. apply getBestSplits_OK in H; [|exact Hun].
  destruct H as (_ & n1 & w1 & HH & HL).
  destruct (Head_inv _ _ _ _ _ HH) as (HI & _ & HC & Hn0 & Hn).
  destruct HL as [HL|(HL & _)].
  - apply selectExpand_None in HL. destruct HL as (-> & _). lia.
  - destruct (GInv_step _ _ _ _ _ _ _ HI HL) as (_ & _ & HC' & _). lia.
Qed.

(** ** The checks of [getTree] *)

Lemma lift_Abort {A} (r : Res A) w f : lift r w = Abort f -> r = Abort f.
Proof. unfold lift. destruct r; [discriminate|]. intros H. now inversion H. Qed.

(** What the entry check of [getTree] gives for [numLeaves >= 1]: the flag
    is not negative, and the sample holds at least that many rows. *)
Lemma sample_size_check numLeaves (st : list Z) :
  1 <= numLeaves ->
  int_range (FLAGS_min_leaf_examples * numLeaves) ->
  Z.of_nat (length st) < 2 ^ 31 ->
  to_size_t (FLAGS_min_leaf_examples * numLeaves) <= Z.of_nat (length st) ->
  0 <= FLAGS_min_leaf_examples < 2 ^ 31
  /\ FLAGS_min_leaf_examples <= Z.of_nat (length st).
Proof.
  unfold int_range, to_size_t. intros Hnl Hprod Hlen Hchk.
  destruct (Z.lt_ge_cases FLAGS_min_leaf_examples 0) as [Hneg|Hpos].
  - exfalso.
    assert (FLAGS_min_leaf_examples * numLeaves < 0) by nia.
    replace (FLAGS_min_leaf_examples * numLeaves)
      with (FLAGS_min_leaf_examples * numLeaves + 2 ^ 64 + (-1) * 2 ^ 64)
      in Hchk by ring.
    rewrite Z.mod_add, Z.mod_small in Hchk by lia. lia.
  - rewrite Z.mod_small in Hchk by nia. split; [nia|nia].
Qed.

(** C6.  On a well-formed data set and for [numLeaves >= 1], [getTree]
    never fails the materializer's check that a leaf holds at least
    [min_leaf_examples] rows: the entry check on the sampled subset
    ([size >= min_leaf_examples * numLeaves]) guards it.  In a tree that
    is returned every node that is not selected, that is every leaf, holds
    at least [min_leaf_examples] rows. *)
Theorem leaves_hold_min_leaf_examples (numLeaves : Z) (exRate featRate : double)
    (fimps : list double) (w0 : World) :
  wf_DataSet ds_ = true ->
  1 <= numLeaves -> int_range numLeaves ->
  int_range (FLAGS_min_leaf_examples * numLeaves) ->
  numExamples ds_ < 2 ^ 31 ->
  unused w0 ->
  getTree numLeaves exRate featRate fimps w0
    <> Abort (CheckFailed CHECK_leaf_size)
  /\ forall r w',
      getTree numLeaves exRate featRate fimps w0 = OK (r, w') ->
      forall p sp, nth_error (allSplits_ w') p = Some sp ->
        selected sp = false ->
        FLAGS_min_leaf_examples <= Z.of_nat (length (subset sp)).
Proof.
  intros Hwf Hnl Hnlr Hprod Hex Hun. unfold int_range in *.
  destruct (getTree_unfold numLeaves exRate featRate fimps w0)
    as (st & w1 & _ & HA1 & HF1 & _ & Hlen & ->).
  assert (unused w1) as Hun1 by (destruct Hun; split; congruence).
  destruct (Z.leb_spec (to_size_t (FLAGS_min_leaf_examples * numLeaves))
              (Z.of_nat (length st))) as [Hchk|Hchk].
  2:{ split; [discriminate|]. intros r w' H. discriminate. }
  destruct (sample_size_check numLeaves st Hnl Hprod ltac:(lia) Hchk)
    as (Hmin0 & Hmin).
  destruct (getBestSplits_total st (numLeaves - 1) featRate w1 Hwf ltac:(lia) Hun1)
    as (w' & E).
  rewrite E.
  destruct (getBestSplits_GInv _ _ _ _ _ _ Hun1 E) as (_ & HI).
  pose proof (inv_minleaf _ _ HI Hwf Hmin) as Hall.
  split.
  - destruct (inv_tree _ _ HI) as (ns & HS & HP).
    pose proof (getTreeHelper_Sub _ _ _ HS (length (allSplits_ w')) fimps) as HT.
    rewrite (Permutation_length HP), length_seq in HT. specialize (HT (Nat.le_refl _)).
    intros Habs. apply lift_Abort in Habs. rewrite Habs in HT.
    destruct HT as (_ & q & sp & _ & Hq & _ & Hsz).
    specialize (Hall q sp Hq). unfold to_size_t in Hsz.
    rewrite Z.mod_small in Hsz by lia. lia.
  - intros r w'' H. apply lift_OK in H. destruct H as (_ & ->).
    intros p sp Hp _. eauto.
Qed.

(** C7.  If the sampled subset built at the start of [getTree] has fewer
    than [min_leaf_examples * numLeaves] rows (a product within the range
    of [int]), the call aborts at the check of the sample size: no tree is
    returned. *)
Theorem getTree_aborts_on_small_sample (numLeaves : Z)
    (exRate featRate : double) (fimps : list double) (w : World)
    (st : list Z) (w1 : World) :
  sampleExamples exRate (Z.to_nat (numExamples ds_)) 0 [] w = OK (st, w1) ->
  Z.of_nat (length st) < FLAGS_min_leaf_examples * numLeaves ->
  FLAGS_min_leaf_examples * numLeaves < 2 ^ 31 ->
  getTree numLeaves exRate featRate fimps w
  = Abort (CheckFailed CHECK_sample_size).
Proof.
  intros E Hsmall Hprod.
  destruct (getTree_unfold numLeaves exRate featRate fimps w)
    as (st' & w1' & E' & _ & _ & _ & _ & ->).
  rewrite E in E'. inversion E'; subst st' w1'.
  unfold to_size_t. rewrite Z.mod_small by lia.
  destruct (Z.leb_spec (FLAGS_min_leaf_examples * numLeaves)
              (Z.of_nat (length st))); [lia|reflexivity].
Qed.


(** ** Feature importances *)

Lemma Permutation_filter {A} (f : A -> bool) (l l' : list A) :
  Permutation l l' -> Permutation (filter f l) (filter f l').
Proof.
  induction 1 as [|x l l' HP IH|x y l|l l' l'' HP1 IH1 HP2 IH2]; cbn.
  - constructor.
  - destruct (f x); [now constructor|exact IH].
  - destruct (f x), (f y); try apply Permutation_refl. constructor.
  - eapply Permutation_trans; eauto.
Qed.

Lemma gains_on_nil arena f ns :
  (forall p sp, In p ns -> nth_error arena p = Some sp -> fid sp <> f) ->
  gains_on arena f ns = [].
Proof.
  induction ns as [|p t IH]; intros H; [reflexivity|].
  cbn [gains_on flat_map]. fold (gains_on arena f t).
  rewrite IH by (intros q sq Hq; apply H; now right).
  destruct (nth_error arena p) as [sp|] eqn:E; [|reflexivity].
  destruct (Z.eqb_spec (fid sp) f) as [Heq|_]; [|reflexivity].
  exfalso. eapply H; eauto. now left.
Qed.

(** C8.  When [getTree] returns, there is an order of all the selected
    nodes of the arena (the order in which the materializer visits them)
    such that, for every feature [f], the entry [fimps[f]] is the old entry
    to which the gains of the selected nodes that split on [f] have been
    added one after the other in that order; each of these gains is
    strictly greater than [0], and the entry of a feature no selected node
    splits on is unchanged. *)
Theorem fimps_accumulates_gains (numLeaves : Z) (exRate featRate : double)
    (fimps : list double) (w0 : World) (tree : option TreeNode)
    (fimps' : list double) (w' : World) :
  unused w0 ->
  getTree numLeaves exRate featRate fimps w0 = OK ((tree, fimps'), w') ->
  exists order,
    Permutation order
      (filter (is_selected (allSplits_ w')) (seq 0 (length (allSplits_ w'))))
    /\ (forall p, In p order ->
          exists sp, nth_error (allSplits_ w') p = Some sp
                     /\ selected sp = true /\ (0 <? gain sp)%float = true)
    /\ length fimps' = length fimps
    /\ (forall f, zth fimps' f 0%float
                  = fold_left PrimFloat.add (gains_on (allSplits_ w') f order)
                      (zth fimps f 0%float))
    /\ (forall f,
          (forall p sp, nth_error (allSplits_ w') p = Some sp ->
                        selected sp = true -> fid sp <> f) ->
          zth fimps' f 0%float = zth fimps f 0%float).
Proof.
  intros Hun H.
  destruct (getTree_unfold numLeaves exRate featRate fimps w0)
    as (st & w1 & _ & HA1 & HF1 & _ & _ & E).
  rewrite E in H. clear E.
  assert (unused w1) as Hun1 by (destruct Hun; split; congruence).
  destruct (to_size_t (FLAGS_min_leaf_examples * numLeaves)
            <=? Z.of_nat (length st)); [|discriminate].
  destruct (getBestSplits st (numLeaves - 1) featRate w1) as [[root w2]|f] eqn:E;
    [|discriminate].
  apply lift_OK in H. destruct H as (H & Hw). subst w2.
  destruct (getBestSplits_GInv _ _ _ _ _ _ Hun1 E) as (Hroot & HI). subst root.
  destruct (inv_tree _ _ HI) as (ns & HS & HP).
  pose proof (getTreeHelper_Sub _ _ _ HS (length (allSplits_ w')) fimps) as HT.
  rewrite (Permutation_length HP), length_seq in HT. specialize (HT (Nat.le_refl _)).
  rewrite H in HT. destruct HT as (_ & Hlen & Hval).
  assert (forall p, In p (internal (allSplits_ w') ns) ->
            exists sp, nth_error (allSplits_ w') p = Some sp
                       /\ selected sp = true /\ (0 <? gain sp)%float = true)
    as Hsel.
  { intros p Hp. apply filter_In in Hp. destruct Hp as (_ & Hp).
    unfold is_selected in Hp.
    destruct (nth_error (allSplits_ w') p) as [sp|] eqn:Esp; [|discriminate].
    exists sp. repeat split; auto.
    now destruct (inv_selected _ _ HI p sp Esp Hp). }
  exists (internal (allSplits_ w') ns).
  split; [unfold internal; now apply Permutation_filter|].
  split; [exact Hsel|]. split; [exact Hlen|]. split; [exact Hval|].
  intros f Hf. rewrite Hval, gains_on_nil; [reflexivity|].
  intros p sp Hp Hsp. destruct (Hsel p Hp) as (sp' & Hsp' & Hs & _).
  rewrite Hsp in Hsp'. inversion Hsp'; subst sp'. eauto.
Qed.

(** * Further properties of the code *)

(** ** The evaluator on any histogram *)

Lemma scanBins_found hist n : forall k b bi,
  (k + n <= Z.to_nat (num hist - 1))%nat ->
  (bi = -1 /\ b = 0%float)
  \/ (eligible hist bi /\ (0 <? b)%float = true /\ b = gainAt hist bi) ->
  let r := scanBins hist (lossBefore_of hist) n (Z.of_nat k)
             (cntLeftUpto hist k) (sumLeftUpto hist k) b bi in
  (fst r = -1 /\ snd r = 0%float)
  \/ (eligible hist (fst r) /\ (0 <? snd r)%float = true
      /\ snd r = gainAt hist (fst r)).
Proof.
  induction n as [|n IH]; intros k b bi Hk Hb; [exact Hb|].
  cbn [scanBins].
  replace (Z.of_nat k + 1) with (Z.of_nat (S k)) by lia.
  change (cntLeftUpto hist k + zth (cnt hist) (Z.of_nat k) 0)
    with (cntLeftUpto hist (S k)).
  change (sumLeftUpto hist k + zth (sumy hist) (Z.of_nat k) 0)%float
    with (sumLeftUpto hist (S k)).
  destruct (Z.ltb_spec (cntLeftUpto hist (S k)) FLAGS_min_leaf_examples).
  - apply IH; [lia|exact Hb].
  - destruct (Z.ltb_spec (totalCnt hist - cntLeftUpto hist (S k))
                FLAGS_min_leaf_examples); [exact Hb|].
    destruct (b <? _)%float eqn:Eg.
    + apply IH; [lia|]. right. split; [|split].
      * unfold eligible, cntRightAt, cntLeftAt. rewrite Nat2Z.id.
        repeat split; lia.
      * destruct Hb as [(_ & Hb)|(_ & Hb & _)].
        -- subst b. exact Eg.
        -- eapply ltb_trans; eauto.
      * unfold gainAt, cntLeftAt, sumLeftAt. now rewrite Nat2Z.id.
    + apply IH; [lia|exact Hb].
Qed.

(** X1.  On any histogram, whatever the signs of its counts,
    [getBestSplitFromHistogram] fails only the check [hist.num >= 1];
    otherwise it returns either index [-1] with gain [0.0], or a boundary
    index of [0 .. num-2] with at least [min_leaf_examples] rows counted on
    each side, together with the gain of that boundary, which is strictly
    greater than [0.0]: the gain it reports is never negative and never a
    NaN. *)
Theorem getBestSplitFromHistogram_sound (hist : Histogram) :
  match getBestSplitFromHistogram hist with
  | OK (idx, g) =>
      1 <= num hist
      /\ ((idx = -1 /\ g = 0%float)
          \/ (0 <= idx <= num hist - 2
              /\ FLAGS_min_leaf_examples <= cntLeftAt hist idx
              /\ FLAGS_min_leaf_examples <= cntRightAt hist idx
              /\ g = gainAt hist idx
              /\ (0 <? g)%float = true))
  | Abort f => f = CheckFailed CHECK_hist_num /\ num hist < 1
  end.
Proof.
  unfold getBestSplitFromHistogram.
  destruct (Z.leb_spec 1 (num hist)) as [Hn|Hn]; [|split; [reflexivity|lia]].
  pose proof (scanBins_found hist (Z.to_nat (num hist - 1)) 0 0%float (-1)
                ltac:(lia) ltac:(left; split; reflexivity)) as H.
  cbn zeta in H. cbn [Z.of_nat cntLeftUpto sumLeftUpto] in H.
  destruct (scanBins _ _ _ _ _ _ _ _) as [idx g]. cbn [fst snd] in H.
  split; [exact Hn|].
  destruct H as [H|((Hi & Hl & Hr) & Hpos & Hg)]; [left; exact H|right].
  repeat split; auto; lia.
Qed.

(** A histogram of fewer than [2 * min_leaf_examples] rows has no boundary
    with enough rows on both sides. *)
Lemma getBestSplitFromHistogram_too_few hist :
  1 <= num hist ->
  totalCnt hist < 2 * FLAGS_min_leaf_examples ->
  getBestSplitFromHistogram hist = OK (-1, 0%float).
Proof.
  intros Hn Hfew. unfold getBestSplitFromHistogram.
  destruct (Z.leb_spec 1 (num hist)) as [_|Hn']; [|lia].
  pose proof (scanBins_found hist (Z.to_nat (num hist - 1)) 0 0%float (-1)
                ltac:(lia) ltac:(left; split; reflexivity)) as H.
  cbn zeta in H. cbn [Z.of_nat cntLeftUpto sumLeftUpto] in H.
  destruct (scanBins _ _ _ _ _ _ _ _) as [idx g]. cbn [fst snd] in H.
  destruct H as [(Hi & Hg)|((_ & Hl & Hr) & _)]; [now subst|].
  unfold cntRightAt in Hr. lia.
Qed.

(** ** Candidate construction *)

Lemma zth_error_of_nat {A} (l : list A) k :
  zth_error l (Z.of_nat k) = nth_error l k.
Proof.
  unfold zth_error. destruct (Z.ltb_spec (Z.of_nat k) 0); [lia|].
  now rewrite Nat2Z.id.
Qed.

Lemma skipn_nth_error_cons {A} (l : list A) k x :
  nth_error l k = Some x -> skipn k l = x :: skipn (S k) l.
Proof.
  revert k. induction l as [|y t IH]; intros [|k] H; cbn in H; try discriminate.
  - now inversion H.
  - cbn [skipn]. rewrite (IH k H). reflexivity.
Qed.

Lemma featureHistogram_num st ts f : 1 <= num (featureHistogram st ts f).
Proof.
  unfold featureHistogram.
  destruct (buildHistogram_fields st (fvec f)
              (new_Histogram (Z.of_nat (length (transitions f)) + 1)
                 (Z.of_nat (length st)) ts)) as (Hn & _).
  rewrite Hn. cbn. lia.
Qed.

Lemma featureHistogram_totalCnt st ts f :
  totalCnt (featureHistogram st ts f) = Z.of_nat (length st).
Proof.
  unfold featureHistogram.
  destruct (buildHistogram_fields st (fvec f)
              (new_Histogram (Z.of_nat (length (transitions f)) + 1)
                 (Z.of_nat (length st)) ts)) as (_ & Hc & _).
  rewrite Hc. reflexivity.
Qed.

(** One pass of the loop over the features, for the feature [f] found at
    the index [k]. *)
Lemma scanFeatures_step st ts rate n k bf bv bg w f :
  nth_error (features_ ds_) k = Some f ->
  scanFeatures st ts rate (S n) (Z.of_nat k) bf bv bg w
  = if encoding_eqb (encoding f) EMPTY then
      scanFeatures st ts rate n (Z.of_nat (S k)) bf bv bg w
    else
      let w1 := {| allSplits_ := allSplits_ w; frontiers_ := frontiers_ w;
                   randPos := S (randPos w) |} in
      if coin rate (rand_stream (randPos w)) then
        match getBestSplitFromHistogram (featureHistogram st ts f) with
        | OK (v, g) =>
            if (bg <? g)%float
            then scanFeatures st ts rate n (Z.of_nat (S k)) (Z.of_nat k) v g w1
            else scanFeatures st ts rate n (Z.of_nat (S k)) bf bv bg w1
        | Abort e => Abort e
        end
      else scanFeatures st ts rate n (Z.of_nat (S k)) bf bv bg w1.
Proof.
  intros Hf. cbn [scanFeatures].
  replace (Z.of_nat k + 1) with (Z.of_nat (S k)) by lia.
  unfold bind at 1. rewrite zth_error_of_nat, Hf. cbn [lift_opt ret].
  unfold bind at 1. unfold featureHistogram, fvec.
  destruct (encoding f) eqn:Ef; cbn [encoding_eqb ret]; [reflexivity| |].
  - unfold bind at 1. rewrite biasedCoinFlip_OK. cbn [ret].
    destruct (coin rate (rand_stream (randPos w))); cbn [negb]; [|reflexivity].
    unfold bind at 1. cbn [ret]. unfold bind at 1. unfold lift.
    destruct (getBestSplitFromHistogram _) as [[v g]|e];
      [destruct (bg <? g)%float|]; reflexivity.
  - unfold bind at 1. rewrite biasedCoinFlip_OK. cbn [ret].
    destruct (coin rate (rand_stream (randPos w))); cbn [negb]; [|reflexivity].
    unfold bind at 1. cbn [ret]. unfold bind at 1. unfold lift.
    destruct (getBestSplitFromHistogram _) as [[v g]|e];
      [destruct (bg <? g)%float|]; reflexivity.
Qed.

Lemma scanFeatures_lookup st ts rate n k bf bv bg w res w' :
  scanFeatures st ts rate (S n) (Z.of_nat k) bf bv bg w = OK (res, w') ->
  exists f, nth_error (features_ ds_) k = Some f.
Proof.
  cbn [scanFeatures]. intros H. bind_inv H as f wa E.
  apply lift_opt_OK in E. destruct E as (E & _).
  rewrite zth_error_of_nat in E. eauto.
Qed.

Lemma FeatInv_snoc_None pre bf bv bg best :
  FeatInv pre bf bv bg best -> FeatInv (pre ++ [None]) bf bv bg best.
Proof.
  intros (HB & Hf & Hv). split; [|split; [exact Hf|]].
  - rewrite map_app. cbn [map option_map]. now apply IsBest_snoc_None.
  - destruct best as [j|]; [|exact Hv].
    rewrite nth_error_app1; [exact Hv|]. apply nth_error_Some. congruence.
Qed.

Lemma FeatInv_snoc_keep pre bf bv bg best v g :
  FeatInv pre bf bv bg best -> (bg <? g)%float = false ->
  FeatInv (pre ++ [Some (v, g)]) bf bv bg best.
Proof.
  intros (HB & Hf & Hv) Hg. split; [|split; [exact Hf|]].
  - rewrite map_app. cbn [map option_map snd]. now apply IsBest_snoc_keep.
  - destruct best as [j|]; [|exact Hv].
    rewrite nth_error_app1; [exact Hv|]. apply nth_error_Some. congruence.
Qed.

Lemma FeatInv_snoc_take pre bf bv bg best v g :
  FeatInv pre bf bv bg best -> (bg <? g)%float = true ->
  FeatInv (pre ++ [Some (v, g)]) (Z.of_nat (length pre)) v g
    (Some (length pre)).
Proof.
  intros (HB & Hf & Hv) Hg. split; [|split; [reflexivity|]].
  - rewrite map_app. cbn [map option_map snd].
    rewrite <- (length_map (option_map snd) pre).
    eapply IsBest_snoc_take; eauto.
  - rewrite nth_error_app2 by lia. now rewrite Nat.sub_diag.
Qed.

Lemma countNonEmpty_cons f fs :
  countNonEmpty (f :: fs)
  = if encoding_eqb (encoding f) EMPTY then countNonEmpty fs
    else S (countNonEmpty fs).
Proof.
  unfold countNonEmpty. cbn [filter].
  destruct (encoding_eqb (encoding f) EMPTY); reflexivity.
Qed.

(** The loop over the features, against the list of what it evaluates. *)
Lemma scanFeatures_cands st ts rate n : forall k bf bv bg w res w' pre best,
  scanFeatures st ts rate n (Z.of_nat k) bf bv bg w = OK (res, w') ->
  k = length pre ->
  FeatInv pre bf bv bg best ->
  length (firstn n (skipn k (features_ ds_))) = n
  /\ allSplits_ w' = allSplits_ w /\ frontiers_ w' = frontiers_ w
  /\ randPos w'
     = (randPos w + countNonEmpty (firstn n (skipn k (features_ ds_))))%nat
  /\ exists best',
      FeatInv (pre ++ featureCands st ts rate
                        (firstn n (skipn k (features_ ds_))) (randPos w))
        (fst (fst res)) (snd (fst res)) (snd res) best'.
Proof.
  induction n as [|n IH]; intros k bf bv bg w res w' pre best H Hk HI.
  - cbn in H. inversion H; subst res w'. cbn [firstn featureCands length].
    rewrite app_nil_r. unfold countNonEmpty. cbn.
    repeat split; auto. exists best. exact HI.
  - destruct (scanFeatures_lookup _ _ _ _ _ _ _ _ _ _ _ H) as (f & Hf).
    rewrite (scanFeatures_step _ _ _ _ _ _ _ _ _ _ Hf) in H.
    rewrite (skipn_nth_error_cons _ _ _ Hf). cbn [firstn featureCands length].
    rewrite countNonEmpty_cons.
    destruct (encoding_eqb (encoding f) EMPTY).
    + destruct (IH (S k) bf bv bg w res w' (pre ++ [None]) best H)
        as (Hlen & HA & HF & Hpos & best' & HI');
        [rewrite length_app; cbn; lia | now apply FeatInv_snoc_None |].
      rewrite <- app_assoc in HI'. cbn [app] in HI'.
      repeat split; auto. exists best'. exact HI'.
    + cbv zeta in H.
      destruct (coin rate (rand_stream (randPos w))).
      * destruct (getBestSplitFromHistogram (featureHistogram st ts f))
          as [[v g]|e]; [|discriminate].
        destruct (bg <? g)%float eqn:Eg.
        -- destruct (IH (S k) _ _ _ _ res w' (pre ++ [Some (v, g)])
                      (Some (length pre)) H)
             as (Hlen & HA & HF & Hpos & best' & HI');
             [rewrite length_app; cbn; lia
             | subst k; eapply FeatInv_snoc_take; eauto |].
           cbn [allSplits_ frontiers_ randPos] in *.
           rewrite <- app_assoc in HI'. cbn [app] in HI'.
           repeat split; auto; try lia. exists best'. exact HI'.
        -- destruct (IH (S k) _ _ _ _ res w' (pre ++ [Some (v, g)]) best H)
             as (Hlen & HA & HF & Hpos & best' & HI');
             [rewrite length_app; cbn; lia
             | eapply FeatInv_snoc_keep; eauto |].
           cbn [allSplits_ frontiers_ randPos] in *.
           rewrite <- app_assoc in HI'. cbn [app] in HI'.
           repeat split; auto; try lia. exists best'. exact HI'.
      * destruct (IH (S k) _ _ _ _ res w' (pre ++ [None]) best H)
          as (Hlen & HA & HF & Hpos & best' & HI');
          [rewrite length_app; cbn; lia | now apply FeatInv_snoc_None |].
        cbn [allSplits_ frontiers_ randPos] in *.
        rewrite <- app_assoc in HI'. cbn [app] in HI'.
        repeat split; auto; try lia. exists best'. exact HI'.
Qed.

Lemma FeatInv_nil : FeatInv [] (-1) 0 0%float None.
Proof. split; [apply IsBest_nil|]. split; reflexivity. Qed.

(** What [getBestSplit] does when it returns, for a candidate that is not
    terminal. *)
Lemma getBestSplit_scan st rate w p w' :
  getBestSplit st rate false w = OK (p, w') ->
  let fs := firstn (Z.to_nat (numFeatures_ ds_)) (features_ ds_) in
  exists bf bv bg best,
    allSplits_ w' = allSplits_ w ++ [candidate_node st bf bv bg]
    /\ p = length (allSplits_ w)
    /\ length fs = Z.to_nat (numFeatures_ ds_)
    /\ randPos w' = (randPos w + countNonEmpty fs)%nat
    /\ FeatInv (featureCands st (sumTargets st 0%float) rate fs (randPos w))
         bf bv bg best.
Proof.
  unfold getBestSplit. intros H. bind_inv H as a w1 E.
  destruct a as [[bf bv] bg].
  destruct (scanFeatures_cands _ _ _ _ 0%nat _ _ _ _ _ _ [] None E eq_refl
              FeatInv_nil) as (Hlen & HA & HF & Hpos & best & HI).
  cbn [skipn app fst snd] in *.
  unfold bind, push_frontiers, push_allSplits in H. inversion H; subst p w'.
  cbn [allSplits_ frontiers_ randPos]. exists bf, bv, bg, best.
  rewrite HA. split; [reflexivity|]. split; [reflexivity|].
  split; [exact Hlen|]. split; [exact Hpos|]. exact HI.
Qed.

(** X2.  The loop over the features of [getBestSplit] keeps the first
    feature, in the order of the data set, whose evaluated gain is the
    highest and strictly greater than [0.0], with the threshold the
    evaluator returned for it; only the features that are not [EMPTY] and
    that the coin accepts are evaluated.  When no evaluated feature has a
    gain above [0.0] the node keeps [fid = -1], [fv = 0] and gain [0.0]. *)
Theorem getBestSplit_first_best_feature (st : list Z) (rate : double)
    (w : World) (p : nat) (w' : World) :
  getBestSplit st rate false w = OK (p, w') ->
  let cs := featureCands st (sumTargets st 0%float) rate
              (firstn (Z.to_nat (numFeatures_ ds_)) (features_ ds_))
              (randPos w) in
  exists sp,
    nth_error (allSplits_ w') p = Some sp
    /\ subset sp = st /\ selected sp = false
    /\ ((fid sp = -1 /\ fv sp = 0 /\ gain sp = 0%float
         /\ forall j v g, nth_error cs j = Some (Some (v, g)) ->
                          (0 <? g)%float = false)
        \/ (exists j,
              fid sp = Z.of_nat j
              /\ nth_error cs j = Some (Some (fv sp, gain sp))
              /\ (0 <? gain sp)%float = true
              /\ (forall i v g, nth_error cs i = Some (Some (v, g)) ->
                                (gain sp <? g)%float = false)
              /\ (forall i v g, (i < j)%nat ->
                                nth_error cs i = Some (Some (v, g)) ->
                                (gain sp <=? g)%float = false))).
Proof.
  intros H cs. apply getBestSplit_scan in H. cbv zeta in H.
  destruct H as (bf & bv & bg & best & HA & Hp & _ & _ & HB & Hf & Hv).
  fold cs in HB, Hv.
  exists (candidate_node st bf bv bg).
  split; [rewrite HA, Hp, nth_error_app2, Nat.sub_diag by lia; reflexivity|].
  split; [reflexivity|]. split; [reflexivity|]. cbn [candidate_node fid fv gain].
  assert (forall i v g, nth_error cs i = Some (Some (v, g)) ->
            nth_error (map (option_map snd) cs) i = Some (Some g)) as Hmap.
  { intros i v g Hi. rewrite nth_error_map, Hi. reflexivity. }
  destruct best as [j|]; cbn [IsBest idx_of] in HB, Hf.
  - right. destruct HB as (_ & Hpos & Hmax & Hfirst). exists j.
    split; [exact Hf|]. split; [exact Hv|]. split; [exact Hpos|]. split.
    + intros i v g Hi. apply (Hmax i). eauto.
    + intros i v g Hlt Hi. apply (Hfirst i); eauto.
  - left. destruct HB as (Hg & Hall). repeat split; auto.
    intros j v g Hj. apply (Hall j). eauto.
Qed.

(** X3.  [getBestSplit] takes one draw of [rand()] for each feature that
    is not [EMPTY], none for an [EMPTY] feature, and none at all for a
    terminal candidate. *)
Theorem getBestSplit_draws (st : list Z) (rate : double) (terminal : bool)
    (w : World) (p : nat) (w' : World) :
  getBestSplit st rate terminal w = OK (p, w') ->
  randPos w'
  = (randPos w
     + if terminal then 0
       else countNonEmpty
              (firstn (Z.to_nat (numFeatures_ ds_)) (features_ ds_)))%nat.
Proof.
  destruct terminal.
  - unfold getBestSplit, push_allSplits. intros H. inversion H. cbn. lia.
  - intros H. apply getBestSplit_scan in H. cbv zeta in H.
    destruct H as (bf & bv & bg & best & _ & _ & _ & Hpos & _). exact Hpos.
Qed.

Lemma scanFeatures_too_few st ts rate n : forall k bf bv w res w',
  Z.of_nat (length st) < 2 * FLAGS_min_leaf_examples ->
  scanFeatures st ts rate n (Z.of_nat k) bf bv 0%float w = OK (res, w') ->
  res = (bf, bv, 0%float).
Proof.
  induction n as [|n IH]; intros k bf bv w res w' Hfew H.
  - cbn in H. now inversion H.
  - destruct (scanFeatures_lookup _ _ _ _ _ _ _ _ _ _ _ H) as (f & Hf).
    rewrite (scanFeatures_step _ _ _ _ _ _ _ _ _ _ Hf) in H.
    destruct (encoding_eqb (encoding f) EMPTY); [eapply IH; eauto|].
    cbv zeta in H.
    destruct (coin rate (rand_stream (randPos w))); [|eapply IH; eauto].
    rewrite getBestSplitFromHistogram_too_few in H
      by (try apply featureHistogram_num; now rewrite featureHistogram_totalCnt).
    rewrite ltb_irrefl in H. eapply IH; eauto.
Qed.

(** X4.  A subset of fewer than [2 * min_leaf_examples] rows is never
    given a split: whatever the features and the draws, [getBestSplit]
    leaves the node as its constructor made it ([fid = -1], [fv = 0], gain
    [0.0], not selected, no children). *)
Theorem getBestSplit_too_few_rows (st : list Z) (rate : double)
    (terminal : bool) (w : World) (p : nat) (w' : World) :
  Z.of_nat (length st) < 2 * FLAGS_min_leaf_examples ->
  getBestSplit st rate terminal w = OK (p, w') ->
  nth_error (allSplits_ w') p = Some (new_SplitNode st).
Proof.
  intros Hfew H. unfold getBestSplit in H. destruct terminal.
  - unfold push_allSplits in H. inversion H; subst. cbn [allSplits_].
    now rewrite nth_error_app2, Nat.sub_diag by lia.
  - bind_inv H as a w1 E. destruct a as [[bf bv] bg].
    destruct (scanFeatures_cands _ _ _ _ 0%nat _ _ _ _ _ _ [] None E eq_refl
                FeatInv_nil) as (_ & HA & _).
    apply (scanFeatures_too_few _ _ _ _ 0%nat) in E; [|exact Hfew].
    inversion E; subst bf bv bg.
    unfold bind, push_frontiers, push_allSplits in H. inversion H; subst.
    cbn [allSplits_]. rewrite HA.
    now rewrite nth_error_app2, Nat.sub_diag by lia.
Qed.

(** ** The sampling loop *)

Lemma sampledRows_S rate pos n i :
  sampledRows rate pos (S n) i
  = (if coin rate (rand_stream pos) then [i] else [])
    ++ sampledRows rate (S pos) n (i + 1).
Proof.
  unfold sampledRows. cbn [seq filter]. rewrite Nat.add_0_r.
  assert (map (fun k => i + Z.of_nat k)
            (filter (fun k => coin rate (rand_stream (pos + k))) (seq 1 n))
          = map (fun k => i + 1 + Z.of_nat k)
              (filter (fun k => coin rate (rand_stream (S pos + k))) (seq 0 n)))
    as E.
  { generalize 0%nat as a. induction n as [|n IH]; intros a; [reflexivity|].
    cbn [seq filter]. replace (pos + S a)%nat with (S pos + a)%nat by lia.
    destruct (coin rate (rand_stream (S pos + a))); cbn [map].
    - f_equal; [lia|apply IH].
    - apply IH. }
  destruct (coin rate (rand_stream pos)); cbn [map app].
  - f_equal; [lia|exact E].
  - exact E.
Qed.

(** The sampling loop in closed form. *)
Lemma sampleExamples_run (rate : double) (n : nat) (i : Z)
    (st : list Z) (w : World) :
  sampleExamples rate n i st w
  = OK (st ++ sampledRows rate (randPos w) n i,
        {| allSplits_ := allSplits_ w; frontiers_ := frontiers_ w;
           randPos := randPos w + n |}).
Proof.
  revert i st w. induction n as [|n IH]; intros i st w.
  - cbn [sampleExamples]. unfold ret, sampledRows. cbn [seq filter map].
    rewrite app_nil_r, Nat.add_0_r. now destruct w.
  - cbn [sampleExamples]. unfold bind at 1. rewrite biasedCoinFlip_OK.
    rewrite IH, sampledRows_S. cbn [allSplits_ frontiers_ randPos].
    replace (S (randPos w) + n)%nat with (randPos w + S n)%nat by lia.
    destruct (coin rate (rand_stream (randPos w))); cbn [app];
      [rewrite <- app_assoc|]; reflexivity.
Qed.

Lemma sampledRows_In rate pos n i x :
  In x (sampledRows rate pos n i) <->
  i <= x < i + Z.of_nat n
  /\ coin rate (rand_stream (pos + Z.to_nat (x - i))) = true.
Proof.
  unfold sampledRows. rewrite in_map_iff. split.
  - intros (k & Hx & Hk). apply filter_In in Hk. destruct Hk as (Hk & Hc).
    apply in_seq in Hk. subst x.
    replace (i + Z.of_nat k - i) with (Z.of_nat k) by lia.
    rewrite Nat2Z.id. split; [lia|exact Hc].
  - intros (Hx & Hc). exists (Z.to_nat (x - i)). split; [lia|].
    apply filter_In. split; [apply in_seq; lia|exact Hc].
Qed.

Lemma sampledRows_sorted rate n : forall pos i,
  StronglySorted Z.lt (sampledRows rate pos n i).
Proof.
  induction n as [|n IH]; intros pos i; [constructor|].
  rewrite sampledRows_S.
  destruct (coin rate (rand_stream pos)); cbn [app]; [|apply IH].
  constructor; [apply IH|]. apply Forall_forall. intros x Hx.
  apply sampledRows_In in Hx. lia.
Qed.

(** X5.  The sampling loop of [getTree] takes exactly one draw of
    [rand()] per row, whatever the rate, and appends the row [i + k] iff
    the coin accepts the draw number [k]: the rows it appends are in
    strictly ascending order, and nothing else of the regressor changes. *)
Theorem sampleExamples_closed_form (rate : double) (n : nat) (i : Z)
    (st : list Z) (w : World) :
  exists add,
    sampleExamples rate n i st w
    = OK (st ++ add,
          {| allSplits_ := allSplits_ w; frontiers_ := frontiers_ w;
             randPos := randPos w + n |})
    /\ StronglySorted Z.lt add
    /\ forall x, In x add <->
         i <= x < i + Z.of_nat n
         /\ coin rate (rand_stream (randPos w + Z.to_nat (x - i))) = true.
Proof.
  exists (sampledRows rate (randPos w) n i).
  split; [apply sampleExamples_run|]. split; [apply sampledRows_sorted|].
  intros x. apply sampledRows_In.
Qed.

(** ** A regressor that is used again *)

(** The first pass of the loop finds one pointer too many on the frontier
    when the regressor had pointers left on it. *)
Lemma growLoop_frontier_size fuel numSplits rate w :
  length (frontiers_ w) <> 1%nat ->
  growLoop (S fuel) numSplits rate 0 w = Abort (CheckFailed CHECK_frontier_size).
Proof.
  intros Hlen. cbn [growLoop]. unfold bind at 1.
  unfold selectExpand, bind at 1. unfold get_frontiers.
  unfold bind at 1. unfold CHECK.
  change (to_size_t (0 + 1)) with 1.
  destruct (Z.eqb_spec (Z.of_nat (length (frontiers_ w))) 1) as [E|_]; [lia|].
  reflexivity.
Qed.

(** [getBestSplits] on a regressor that still has pointers on its
    frontier aborts at the check of the size of the frontier in the first
    pass of its loop: the old pointers are never cleared, and the check
    counts them. *)
Lemma getBestSplits_stale_frontier (st : list Z) (numSplits : Z)
    (rate : double) (w0 : World) :
  wf_DataSet ds_ = true ->
  frontiers_ w0 <> [] ->
  getBestSplits st numSplits rate w0 = Abort (CheckFailed CHECK_frontier_size).
Proof.
  intros Hwf Hne. unfold getBestSplits.
  destruct (getBestSplit_total st rate false w0 Hwf) as (p & w1 & E).
  unfold bind at 1. rewrite E.
  destruct (getBestSplit_OK _ _ _ _ _ _ E) as (_ & sp & _ & HF & _).
  destruct (Z.to_nat (Z.max 1 numSplits)) as [|fuel] eqn:Ef; [lia|].
  unfold bind at 1. rewrite growLoop_frontier_size; [reflexivity|].
  rewrite HF, length_app. cbn [length].
  destruct (frontiers_ w0); [congruence|cbn [length]; lia].
Qed.


(** ** The tree that is returned *)

Lemma lookup_seq {A} (l : list A) : forall pre,
  map (nth_error (pre ++ l)) (seq (length pre) (length l)) = map Some l.
Proof.
  induction l as [|x t IH]; intros pre; [reflexivity|].
  cbn [length seq map]. f_equal.
  - rewrite nth_error_app2, Nat.sub_diag by lia. reflexivity.
  - specialize (IH (pre ++ [x])). rewrite <- app_assoc, length_app in IH.
    cbn [app length] in IH. rewrite Nat.add_1_r in IH. exact IH.
Qed.

Lemma lookup_seq_all {A} (l : list A) :
  map (nth_error l) (seq 0 (length l)) = map Some l.
Proof. exact (lookup_seq l []). Qed.

Lemma internal_all arena :
  length (internal arena (seq 0 (length arena)))
  = length (filter selected arena).
Proof.
  unfold internal.
  assert (forall ns,
            length (filter (is_selected arena) ns)
            = length (filter (fun o => match o with
                                       | Some sp => selected sp
                                       | None => false
                                       end) (map (nth_error arena) ns))) as E.
  { induction ns as [|q ns IH]; [reflexivity|]. cbn [map filter].
    unfold is_selected at 1.
    destruct (nth_error arena q) as [sp|]; [destruct (selected sp)|];
      cbn [length]; now rewrite IH. }
  rewrite E, lookup_seq_all. clear E.
  induction arena as [|sp t IH]; [reflexivity|]. cbn [map filter].
  destruct (selected sp); cbn [length]; now rewrite IH.
Qed.

Lemma leafRowsOn_all arena :
  leafRowsOn arena (seq 0 (length arena)) = leafRows arena.
Proof.
  unfold leafRowsOn, leafRows.
  assert (forall ns,
            flat_map (fun q => match nth_error arena q with
                               | Some sp => if selected sp then [] else subset sp
                               | None => []
                               end) ns
            = flat_map (fun o => match o with
                                 | Some sp => if selected sp then [] else subset sp
                                 | None => []
                                 end) (map (nth_error arena) ns)) as E.
  { induction ns as [|q ns IH]; [reflexivity|]. cbn [map flat_map].
    now rewrite IH. }
  rewrite E, lookup_seq_all. clear E.
  induction arena as [|sp t IH]; [reflexivity|]. cbn [map flat_map].
  now rewrite IH.
Qed.

(** What a call of [getTree] that returns has done. *)
Lemma getTree_grown numLeaves exRate featRate fimps w0 t fimps' w' :
  unused w0 ->
  getTree numLeaves exRate featRate fimps w0 = OK ((t, fimps'), w') ->
  let st := sampledRows exRate (randPos w0) (Z.to_nat (numExamples ds_)) 0 in
  to_size_t (FLAGS_min_leaf_examples * numLeaves) <= Z.of_nat (length st)
  /\ NoDup st
  /\ selectedCount w' <= Z.max 1 (numLeaves - 1)
  /\ GInv st w'
  /\ exists ns,
      Sub (allSplits_ w') 0 ns
      /\ Permutation ns (seq 0 (length (allSplits_ w')))
      /\ getTreeHelper (length ns) (allSplits_ w') (Some 0%nat) fimps
         = OK (t, fimps').
Proof.
  intros Hun H st.
  destruct (getTree_unfold numLeaves exRate featRate fimps w0)
    as (st' & w1 & Es & HA1 & HF1 & Hnd & _ & E).
  rewrite sampleExamples_run in Es. cbn [app] in Es.
  inversion Es; subst st' w1. clear Es. fold st in Hnd, E.
  rewrite E in H. clear E.
  match type of H with
  | context [getBestSplits _ _ _ ?w] => set (w1 := w) in *
  end.
  assert (unused w1) as Hun1 by (destruct Hun; split; assumption).
  destruct (Z.leb_spec (to_size_t (FLAGS_min_leaf_examples * numLeaves))
              (Z.of_nat (length st))) as [Hchk|_]; [|discriminate].
  destruct (getBestSplits st (numLeaves - 1) featRate w1) as [[root w2]|f] eqn:E;
    [|discriminate].
  apply lift_OK in H. destruct H as (H & Hw). subst w2.
  destruct (getBestSplits_GInv _ _ _ _ _ _ Hun1 E) as (Hroot & HI). subst root.
  pose proof (getBestSplits_budget _ _ _ _ _ _ Hun1 E) as Hb.
  destruct (inv_tree _ _ HI) as (ns & HS & HP).
  split; [exact Hchk|]. split; [exact Hnd|]. split; [exact Hb|].
  split; [exact HI|]. exists ns. split; [exact HS|]. split; [exact HP|].
  rewrite (Permutation_length HP), length_seq. exact H.
Qed.

(** The materializer copies the split nodes below a pointer. *)
Lemma getTreeHelper_Mirrors arena p ns :
  Sub arena p ns ->
  forall fuel fimps t fimps',
    getTreeHelper fuel arena (Some p) fimps = OK (t, fimps') ->
    exists tree,
      t = Some tree /\ Mirrors arena p tree
      /\ numInternal tree = length (internal arena ns)
      /\ (numLeafNodes tree + numInternal tree)%nat = length ns.
Proof.
  induction 1 as [p sp Hp Hs|p sp l r nl nr Hp Hs Hl Hr HSl IHl HSr IHr];
    intros fuel fimps t fimps' H.
  - destruct fuel as [|fuel]; [discriminate|]. cbn [getTreeHelper] in H.
    rewrite Hp, Hs in H. cbn [negb] in H.
    destruct (_ <=? _); [|discriminate]. inversion H; subst t fimps'.
    eexists. split; [reflexivity|]. split; [now apply Mirrors_leaf|].
    unfold internal. cbn [filter]. unfold is_selected. rewrite Hp, Hs.
    split; reflexivity.
  - destruct fuel as [|fuel]; [discriminate|]. cbn [getTreeHelper] in H.
    rewrite Hp, Hs, Hl, Hr in H. cbn [negb] in H.
    destruct (zth_error fimps (fid sp)); [|discriminate].
    destruct (getTreeHelper fuel arena (Some l) _) as [[tl f1]|e] eqn:El;
      [|discriminate].
    destruct (getTreeHelper fuel arena (Some r) f1) as [[tr f2]|e] eqn:Er;
      [|discriminate].
    inversion H; subst t fimps'.
    destruct (IHl _ _ _ _ El) as (xl & -> & HMl & Hil & Hnl).
    destruct (IHr _ _ _ _ Er) as (xr & -> & HMr & Hir & Hnr).
    eexists. split; [reflexivity|]. split; [eapply Mirrors_node; eauto|].
    cbn [numInternal numLeafNodes length].
    change (p :: nl ++ nr) with ([p] ++ nl ++ nr).
    rewrite !internal_app, !length_app.
    assert (internal arena [p] = [p]) as ->.
    { unfold internal. cbn [filter]. unfold is_selected. now rewrite Hp, Hs. }
    cbn [length]. split; lia.
Qed.

(** X7.  The tree [getTree] returns is a copy of the split nodes of the
    arena from the root at index [0]: a node that was not selected is a
    leaf with the leaf value of its own subset, a selected node is a
    partition node with the feature, the threshold and the leaf value of
    its node and with both children. *)
Theorem getTree_mirrors_arena (numLeaves : Z) (exRate featRate : double)
    (fimps : list double) (w0 : World) (t : option TreeNode)
    (fimps' : list double) (w' : World) :
  unused w0 ->
  getTree numLeaves exRate featRate fimps w0 = OK ((t, fimps'), w') ->
  exists tree, t = Some tree /\ Mirrors (allSplits_ w') 0 tree.
Proof.
  intros Hun H.
  destruct (getTree_grown _ _ _ _ _ _ _ _ Hun H)
    as (_ & _ & _ & _ & ns & HS & _ & HT).
  destruct (getTreeHelper_Mirrors _ _ _ HS _ _ _ _ HT) as (tree & -> & HM & _).
  exists tree. split; [reflexivity|exact HM].
Qed.

(** X8.  The tree [getTree] returns has one leaf more than it has
    partition nodes, one output node for each split node of the arena, and
    at most [max 1 (numLeaves - 1)] partition nodes, hence at most
    [max 2 numLeaves] leaves. *)
Theorem getTree_size (numLeaves : Z) (exRate featRate : double)
    (fimps : list double) (w0 : World) (t : option TreeNode)
    (fimps' : list double) (w' : World) :
  unused w0 ->
  getTree numLeaves exRate featRate fimps w0 = OK ((t, fimps'), w') ->
  exists tree,
    t = Some tree
    /\ numLeafNodes tree = S (numInternal tree)
    /\ (numLeafNodes tree + numInternal tree)%nat = length (allSplits_ w')
    /\ Z.of_nat (numInternal tree) = selectedCount w'
    /\ Z.of_nat (numInternal tree) <= Z.max 1 (numLeaves - 1)
    /\ Z.of_nat (numLeafNodes tree) <= Z.max 2 numLeaves.
Proof.
  intros Hun H.
  destruct (getTree_grown _ _ _ _ _ _ _ _ Hun H)
    as (_ & _ & Hb & _ & ns & HS & HP & HT).
  destruct (getTreeHelper_Mirrors _ _ _ HS _ _ _ _ HT)
    as (tree & -> & HM & Hi & Hn).
  assert (numLeafNodes tree = S (numInternal tree)) as Hl.
  { clear - HM. induction HM as [|p sp l r tl tr _ _ _ _ _ IHl _ IHr];
      [reflexivity|]. cbn [numLeafNodes numInternal]. lia. }
  assert (Z.of_nat (numInternal tree) = selectedCount w') as Hc.
  { rewrite Hi. unfold selectedCount. rewrite <- internal_all.
    unfold internal. now rewrite (Permutation_length (Permutation_filter _ _ _ HP)). }
  exists tree. split; [reflexivity|]. split; [exact Hl|].
  split; [rewrite Hn, (Permutation_length HP), length_seq; reflexivity|].
  split; [exact Hc|]. split; lia.
Qed.

(** X9.  On a well-formed data set every partition node of the tree
    [getTree] returns has two children, splits on a feature of the data
    set that is not [EMPTY], and has a threshold that is a bin boundary of
    that feature. *)
Theorem getTree_partition_nodes_valid (numLeaves : Z)
    (exRate featRate : double) (fimps : list double) (w0 : World)
    (t : option TreeNode) (fimps' : list double) (w' : World) :
  wf_DataSet ds_ = true ->
  unused w0 ->
  getTree numLeaves exRate featRate fimps w0 = OK ((t, fimps'), w') ->
  exists tree, t = Some tree /\ TreeOK tree.
Proof.
  intros Hwf Hun H.
  destruct (getTree_grown _ _ _ _ _ _ _ _ Hun H)
    as (_ & _ & _ & HI & ns & HS & _ & HT).
  destruct (getTreeHelper_Mirrors _ _ _ HS _ _ _ _ HT) as (tree & -> & HM & _).
  exists tree. split; [reflexivity|]. clear H HT HS.
  induction HM as [|p sp l r tl tr Hp Hs _ _ _ IHl _ IHr]; [exact I|].
  cbn [TreeOK]. split; [|split; [exact IHl|exact IHr]].
  destruct (inv_selected _ _ HI p sp Hp Hs) as (Hpos & _).
  destruct (inv_good _ _ HI p sp Hp Hpos) as (Hfid & f & Hf & Hne & Hfv & _).
  split; [exact Hfid|]. exists f. split; [exact Hf|]. split; [exact Hne|].
  destruct (wf_Feature_codes _ _ (wf_DataSet_feature _ _ Hwf Hf) Hne) as (_ & Hlen).
  rewrite to_uint16_small by lia. exact Hfv.
Qed.

(** ** The rows of the nodes *)

Lemma leafRowsOn_app arena ns ns' :
  leafRowsOn arena (ns ++ ns') = leafRowsOn arena ns ++ leafRowsOn arena ns'.
Proof. unfold leafRowsOn. apply flat_map_app. Qed.

(** Below a pointer, the subsets of the nodes that are not selected make
    up the subset of the node, and every subset is a part of it. *)
Lemma Sub_rows st0 w p ns :
  GInv st0 w ->
  Sub (allSplits_ w) p ns ->
  exists sp,
    nth_error (allSplits_ w) p = Some sp
    /\ Permutation (leafRowsOn (allSplits_ w) ns) (subset sp)
    /\ forall q spq, In q ns -> nth_error (allSplits_ w) q = Some spq ->
                     incl (subset spq) (subset sp).
Proof.
  intros HI. induction 1 as [p sp Hp Hs|p sp l r nl nr Hp Hs Hl Hr _ IHl _ IHr].
  - exists sp. split; [exact Hp|]. split.
    + unfold leafRowsOn. cbn [flat_map]. rewrite Hp, Hs, app_nil_r. reflexivity.
    + intros q spq [Hq|[]] Hspq. subst q. rewrite Hp in Hspq.
      inversion Hspq; subst spq. apply incl_refl.
  - destruct IHl as (spl & Hspl & HPl & Hinl).
    destruct IHr as (spr & Hspr & HPr & Hinr).
    destruct (inv_selected _ _ HI p sp Hp Hs)
      as (_ & f & l' & r' & spl' & spr' & _ & _ & Hl' & Hr' & Hspl' & Hspr' & Hsplit).
    rewrite Hl in Hl'. rewrite Hr in Hr'. inversion Hl'; subst l'.
    inversion Hr'; subst r'. rewrite Hspl in Hspl'. rewrite Hspr in Hspr'.
    inversion Hspl'; subst spl'. inversion Hspr'; subst spr'.
    rewrite split_of_filter in Hsplit. inversion Hsplit as [[El Er]].
    pose proof (filter_partition_perm
                  (goes_left (fvec f) (to_uint16 (fv sp))) (subset sp)) as HP.
    rewrite <- El, <- Er in HP.
    exists sp. split; [exact Hp|]. split.
    + change (p :: nl ++ nr) with ([p] ++ nl ++ nr).
      rewrite !leafRowsOn_app. unfold leafRowsOn at 1. cbn [flat_map].
      rewrite Hp, Hs. cbn [app].
      eapply Permutation_trans; [|exact HP].
      now apply Permutation_app.
    + assert (incl (subset spl) (subset sp)) as Hil
        by (rewrite El; intros x Hx; apply filter_In in Hx; tauto).
      assert (incl (subset spr) (subset sp)) as Hir
        by (rewrite Er; intros x Hx; apply filter_In in Hx; tauto).
      intros q spq Hq Hspq. destruct Hq as [Hq|Hq].
      * subst q. rewrite Hp in Hspq. inversion Hspq; subst spq. apply incl_refl.
      * apply in_app_or in Hq. destruct Hq as [Hq|Hq].
        -- eapply incl_tran; [eapply Hinl; eauto|exact Hil].
        -- eapply incl_tran; [eapply Hinr; eauto|exact Hir].
Qed.

Lemma GInv_rows st0 w :
  GInv st0 w ->
  Permutation (leafRows (allSplits_ w)) st0
  /\ forall q spq, nth_error (allSplits_ w) q = Some spq -> incl (subset spq) st0.
Proof.
  intros HI. destruct (inv_tree _ _ HI) as (ns & HS & HP).
  destruct (inv_root _ _ HI) as (sp0 & Hsp0 & Hst0).
  destruct (Sub_rows _ _ _ _ HI HS) as (sp & Hsp & Hperm & Hincl).
  rewrite Hsp0 in Hsp. inversion Hsp; subst sp. rewrite Hst0 in *. split.
  - rewrite <- leafRowsOn_all.
    eapply Permutation_trans; [|exact Hperm].
    unfold leafRowsOn. apply Permutation_flat_map, Permutation_sym, HP.
  - intros q spq Hq. apply (Hincl q spq); [|exact Hq].
    apply (Permutation_in _ (Permutation_sym HP)), in_seq.
    pose proof (proj1 (nth_error_Some (allSplits_ w) q)) as Hlt.
    rewrite Hq in Hlt. specialize (Hlt ltac:(discriminate)). lia.
Qed.

(** X10.  When [getTree] returns, the subsets of the nodes that were not
    selected (the leaves of the tree) partition the sample: put one after
    the other they are a permutation of the sampled rows, so that every
    sampled row is in the subset of exactly one leaf.  (The two parts of a
    node are those of the modelled [split].) *)
Theorem getTree_leaves_partition_sample (numLeaves : Z)
    (exRate featRate : double) (fimps : list double) (w0 : World)
    (t : option TreeNode) (fimps' : list double) (w' : World) :
  unused w0 ->
  getTree numLeaves exRate featRate fimps w0 = OK ((t, fimps'), w') ->
  let st := sampledRows exRate (randPos w0) (Z.to_nat (numExamples ds_)) 0 in
  NoDup st /\ Permutation (leafRows (allSplits_ w')) st.
Proof.
  intros Hun H st.
  destruct (getTree_grown _ _ _ _ _ _ _ _ Hun H) as (_ & Hnd & _ & HI & _).
  split; [exact Hnd|]. exact (proj1 (GInv_rows _ _ HI)).
Qed.

(** X11.  When [getTree] returns, the subset of every split node holds
    rows of the data set only, each at most once, and only rows that the
    sampling loop accepted. *)
Theorem getTree_subsets_are_sampled_rows (numLeaves : Z)
    (exRate featRate : double) (fimps : list double) (w0 : World)
    (t : option TreeNode) (fimps' : list double) (w' : World) :
  unused w0 ->
  getTree numLeaves exRate featRate fimps w0 = OK ((t, fimps'), w') ->
  forall p sp, nth_error (allSplits_ w') p = Some sp ->
    NoDup (subset sp)
    /\ forall x, In x (subset sp) ->
         0 <= x < numExamples ds_
         /\ coin exRate (rand_stream (randPos w0 + Z.to_nat x)) = true.
Proof.
  intros Hun H p sp Hp.
  destruct (getTree_grown _ _ _ _ _ _ _ _ Hun H) as (_ & Hnd & _ & HI & _).
  split; [exact (inv_nodup _ _ HI Hnd p sp Hp)|].
  intros x Hx. apply (proj2 (GInv_rows _ _ HI) p sp Hp) in Hx.
  apply sampledRows_In in Hx. destruct Hx as (Hr & Hc).
  rewrite Z.sub_0_r in Hc. split; [lia|exact Hc].
Qed.

(** ** The frontier *)

Lemma Head_arena_length st numSplits rate n w :
  Head st numSplits rate n w ->
  Z.of_nat (length (allSplits_ w)) = 2 * n + 1.
Proof.
  induction 1 as [w0 p w Hun E|n w n' w' HH IH E Hlt].
  - destruct (getBestSplit_OK _ _ _ _ _ _ E) as (_ & sp & HA & _).
    destruct Hun as (Hun & _). rewrite HA, Hun. reflexivity.
  - pose proof (selectExpand_Some _ _ _ _ _ _ E) as HS. cbv zeta in HS.
    destruct HS as (pos & p & sp & g & f & spl & spr & _ & _ & _ & _ & _ & _
                    & Hn' & _ & _ & HA & _).
    rewrite HA, length_app, length_upd_nth. cbn [length]. lia.
Qed.

(** X12.  Whenever the body of the loop of [getBestSplits] is entered,
    the frontier holds exactly the nodes of the arena that are not
    selected, each once: the search of a pass looks at every leaf the tree
    has at that moment. *)
Theorem frontier_is_the_unselected_nodes (st : list Z) (numSplits : Z)
    (rate : double) (n : Z) (w : World) :
  Head st numSplits rate n w ->
  Permutation (frontiers_ w)
    (filter (fun p => negb (is_selected (allSplits_ w) p))
       (seq 0 (length (allSplits_ w)))).
Proof.
  intros HH. pose proof (Head_arena_length _ _ _ _ _ HH) as Hlen.
  destruct (Head_inv _ _ _ _ _ HH) as (HI & Hfl & Hsc & Hn & _).
  apply NoDup_Permutation_bis.
  - exact (inv_frontier_nodup _ _ HI).
  - pose proof (filter_partition_length (is_selected (allSplits_ w))
                  (seq 0 (length (allSplits_ w)))) as Hp.
    rewrite length_seq in Hp.
    pose proof (internal_all (allSplits_ w)) as Hi. unfold internal in Hi.
    unfold selectedCount in Hsc. lia.
  - intros p Hp. destruct (inv_frontier _ _ HI p Hp) as (sp & Hsp & Hs).
    apply filter_In. split.
    + apply in_seq.
      pose proof (proj1 (nth_error_Some (allSplits_ w) p)) as Hlt.
      rewrite Hsp in Hlt. specialize (Hlt ltac:(discriminate)). lia.
    + unfold is_selected. now rewrite Hsp, Hs.
Qed.

(** What is left on the frontier when the grower returns. *)
Lemma getBestSplits_frontier_left st numSplits rate w0 root w' :
  unused w0 ->
  getBestSplits st numSplits rate w0 = OK (root, w') ->
  numSplits <> 1 ->
  frontiers_ w' <> [].
Proof.
  intros Hun E Hne.
  destruct (getBestSplits_OK _ _ _ _ _ _ Hun E) as (_ & n1 & w1 & HH & HL).
  destruct (Head_inv _ _ _ _ _ HH) as (HI & Hfl & _ & Hn & _).
  destruct HL as [HL|(HL & Hle)].
  - apply selectExpand_None in HL. destruct HL as (-> & _).
    intros Habs. rewrite Habs in Hfl. cbn in Hfl. lia.
  - destruct (GInv_step _ _ _ _ _ _ _ HI HL) as (_ & _ & _ & Hfl').
    intros Habs. rewrite Habs in Hfl'. cbn [length] in Hfl'.
    destruct (Z.eqb_spec (n1 + 1) numSplits); lia.
Qed.

(** X13.  A regressor grows one tree only: once [getTree] has returned
    (for a number of leaves other than [2]), pointers are left on the
    frontier, and any further call of [getTree] on it aborts, at the check
    of the sample size or at the check of the size of the frontier. *)
Theorem getTree_single_use (numLeaves : Z) (exRate featRate : double)
    (fimps : list double) (w0 : World) (t : option TreeNode)
    (fimps' : list double) (w' : World)
    (numLeaves2 : Z) (exRate2 featRate2 : double) (fimps2 : list double) :
  wf_DataSet ds_ = true ->
  unused w0 ->
  numLeaves <> 2 ->
  getTree numLeaves exRate featRate fimps w0 = OK ((t, fimps'), w') ->
  getTree numLeaves2 exRate2 featRate2 fimps2 w'
  = Abort (CheckFailed CHECK_sample_size)
  \/ getTree numLeaves2 exRate2 featRate2 fimps2 w'
     = Abort (CheckFailed CHECK_frontier_size).
Proof.
  intros Hwf Hun Hne H.
  assert (frontiers_ w' <> []) as Hleft.
  { destruct (getTree_unfold numLeaves exRate featRate fimps w0)
      as (st & w1 & _ & HA1 & HF1 & _ & _ & E).
    rewrite E in H. clear E.
    assert (unused w1) as Hun1 by (destruct Hun; split; congruence).
    destruct (_ <=? _); [|discriminate].
    destruct (getBestSplits st (numLeaves - 1) featRate w1)
      as [[root w2]|f] eqn:E; [|discriminate].
    apply lift_OK in H. destruct H as (_ & Hw). subst w2.
    eapply getBestSplits_frontier_left; eauto. lia. }
  destruct (getTree_unfold numLeaves2 exRate2 featRate2 fimps2 w')
    as (st & w1 & _ & _ & HF1 & _ & _ & ->).
  destruct (_ <=? _); [right|now left].
  rewrite getBestSplits_stale_frontier; [reflexivity|exact Hwf|congruence].
Qed.

(** ** A sample too small to split *)

(** The loop of the grower ends in its first pass, by [break], when the
    root is the only node and its gain is not above [0.0]. *)
Lemma growLoop_no_gain fuel numSplits rate w sp :
  allSplits_ w = [sp] -> frontiers_ w = [0%nat] ->
  (0 <? gain sp)%float = false ->
  growLoop (S fuel) numSplits rate 0 w = OK (tt, w).
Proof.
  intros HA HF Hg. cbn [growLoop]. unfold bind at 1.
  assert (selectExpand numSplits rate 0 w = OK (None, w)) as ->; [|reflexivity].
  unfold selectExpand. unfold bind at 1. unfold get_frontiers.
  unfold bind at 1. unfold CHECK. rewrite HF. cbn [length].
  change (Z.of_nat 1 =? to_size_t (0 + 1)) with true. cbv iota.
  unfold bind at 1. unfold get_allSplits. unfold ret at 1. cbv iota.
  unfold bind at 1. unfold lift.
  rewrite HA. cbn [scanFrontier nth_error]. rewrite Hg. reflexivity.
Qed.

(** X14.  On a well-formed data set, a sample that passes the two checks
    of its size but has fewer than [2 * min_leaf_examples] rows is never
    split: [getTree] returns a single leaf that carries the leaf value of
    the whole sample, and leaves [fimps] as it was. *)
Theorem getTree_small_sample_single_leaf (numLeaves : Z)
    (exRate featRate : double) (fimps : list double) (w0 : World) :
  wf_DataSet ds_ = true ->
  unused w0 ->
  let st := sampledRows exRate (randPos w0) (Z.to_nat (numExamples ds_)) 0 in
  to_size_t (FLAGS_min_leaf_examples * numLeaves) <= Z.of_nat (length st) ->
  to_size_t FLAGS_min_leaf_examples <= Z.of_nat (length st) ->
  Z.of_nat (length st) < 2 * FLAGS_min_leaf_examples ->
  exists w',
    getTree numLeaves exRate featRate fimps w0
    = OK ((Some (LeafNode (getLeafVal st y_)), fimps), w')
    /\ length (allSplits_ w') = 1%nat.
Proof.
  intros Hwf Hun st Hchk Hleaf Hfew.
  destruct (getTree_unfold numLeaves exRate featRate fimps w0)
    as (st' & w1 & Es & HA1 & HF1 & _ & _ & E).
  rewrite sampleExamples_run in Es. cbn [app] in Es.
  inversion Es as [[Est Ew1]]. clear Es. fold st in Est. subst st'.
  rewrite E. clear E.
  destruct (Z.leb_spec (to_size_t (FLAGS_min_leaf_examples * numLeaves))
              (Z.of_nat (length st))) as [_|Hlt]; [|lia].
  assert (unused w1) as (Hu1 & Hu2) by (destruct Hun; split; congruence).
  destruct (getBestSplit_total st featRate false w1 Hwf) as (p & w2 & E).
  destruct (getBestSplit_OK _ _ _ _ _ _ E)
    as (Hp & sp & HA & HF & Hst & Hs & _ & _ & _ & _ & Hgood).
  rewrite Hu1 in HA, HF, Hp. rewrite Hu2 in HF. cbn [app length] in HA, HF, Hp.
  subst p.
  assert ((0 <? gain sp)%float = false) as Hg.
  { destruct (0 <? gain sp)%float eqn:Hg; [exfalso|reflexivity].
    destruct (Hgood Hg) as (_ & f & _ & _ & _ & Hsides).
    destruct (Hsides Hwf) as (Hl & Hr).
    rewrite split_of_filter in Hl, Hr. cbn [fst snd] in Hl, Hr.
    pose proof (filter_partition_length
                  (goes_left (fvec f) (to_uint16 (fv sp))) (subset sp)) as Hlen.
    rewrite Hst in Hl, Hr, Hlen. lia. }
  exists w2. split; [|now rewrite HA].
  unfold getBestSplits. unfold bind at 1. rewrite E.
  destruct (Z.to_nat (Z.max 1 (numLeaves - 1))) as [|fuel] eqn:Ef; [lia|].
  unfold bind at 1. rewrite (growLoop_no_gain _ _ _ _ sp HA HF Hg).
  unfold ret. rewrite HA. cbn [length getTreeHelper nth_error].
  rewrite Hs, Hst. cbn [negb].
  destruct (Z.leb_spec (to_size_t FLAGS_min_leaf_examples)
              (Z.of_nat (length st))) as [_|Hlt]; [reflexivity|lia].
Qed.

End TreeRegressor.

(** * The properties on the small data set *)

Example ex_hist_is_built :
  buildHistogram ex_y [0; 1; 2; 3] (bvec ex_feature) (new_Histogram 4 4 22%float)
  = ex_hist.
Proof. vm_compute. reflexivity. Qed.

Example ex_best_split :
  getBestSplitFromHistogram 1 ex_hist = OK (1, 100%float).
Proof. vm_compute. reflexivity. Qed.

(** C1 on the histogram of the small data set, with
    [min_leaf_examples = 1]. *)
Lemma getBestSplitFromHistogram_best_witness :
  1 <= num ex_hist
  /\ Forall (fun c => 0 <= c) (cnt ex_hist)
  /\ exists idx g,
      getBestSplitFromHistogram 1 ex_hist = OK (idx, g)
      /\ getBestSplitFromHistogram_noBreak 1 ex_hist = OK (idx, g)
      /\ ((idx = -1 /\ g = 0%float
           /\ forall j, eligible 1 ex_hist j -> (0 <? gainAt ex_hist j)%float = false)
          \/ (eligible 1 ex_hist idx /\ g = gainAt ex_hist idx
              /\ (0 <? g)%float = true
              /\ (forall j, eligible 1 ex_hist j ->
                            (g <? gainAt ex_hist j)%float = false)
              /\ (forall j, eligible 1 ex_hist j -> j < idx ->
                            (g <=? gainAt ex_hist j)%float = false))).
Proof.
  assert (1 <= num ex_hist) as H1 by (cbn; lia).
  assert (Forall (fun c => 0 <= c) (cnt ex_hist)) as H2
    by (repeat constructor; lia).
  split; [exact H1|]. split; [exact H2|].
  exact (getBestSplitFromHistogram_best 1 ex_hist H1 H2).
Defined.

Lemma ex_NoDup : NoDup [0; 1; 2; 3].
Proof.
  repeat (constructor; [cbn; intuition discriminate|]). constructor.
Defined.

(** C2 on the small data set, grown with a budget of three splits. *)
Lemma splitExamples_partitions_witness :
  exists w',
    getBestSplits ex_ds ex_y 1 rand_zero [0; 1; 2; 3] 3 1%float fresh_World
    = OK (0%nat, w')
    /\ forall p sp,
        nth_error (allSplits_ w') p = Some sp -> selected sp = true ->
        exists f l r spl spr,
          zth_error (features_ ex_ds) (fid sp) = Some f
          /\ left sp = Some l /\ right sp = Some r
          /\ nth_error (allSplits_ w') l = Some spl
          /\ nth_error (allSplits_ w') r = Some spr
          /\ (forall w, splitExamples ex_ds sp w = OK ((subset spl, subset spr), w))
          /\ Permutation (subset spl ++ subset spr) (subset sp)
          /\ NoDup (subset spl ++ subset spr)
          /\ (forall id, In id (subset spl) -> ~ In id (subset spr))
          /\ (forall id, In id (subset sp) ->
                (In id (subset spl) <-> zth (fvec f) id 0 <= fv sp)
                /\ (In id (subset spr) <-> fv sp < zth (fvec f) id 0)).
Proof.
  eexists. split; [vm_compute; reflexivity|].
  apply (splitExamples_partitions ex_ds ex_y 1 rand_zero [0; 1; 2; 3] 3 1%float
           fresh_World 0%nat).
  - vm_compute. reflexivity.
  - exact ex_NoDup.
  - exact unused_fresh.
  - vm_compute. reflexivity.
Defined.

(** C3, counterexample to the claim as stated: with [numSplits = 1] the
    first pass of the loop expands the root, its two children are terminal
    and stay off the frontier, and the frontier is empty while one node is
    selected. *)
Lemma frontier_size_counterexample :
  exists w w',
    Head ex_ds ex_y 1 rand_zero [0; 1; 2; 3] 1 1%float 0 w
    /\ selectExpand ex_ds ex_y 1 rand_zero 1 1%float 0 w = OK (Some 1, w')
    /\ selectedCount w' = 1
    /\ frontiers_ w' = []
    /\ Z.of_nat (length (frontiers_ w')) <> selectedCount w' + 1.
Proof.
  eexists. eexists. split.
  { eapply (Head_root _ _ _ _ _ _ _ fresh_World);
      [exact unused_fresh | vm_compute; reflexivity]. }
  split; [vm_compute; reflexivity|].
  split; [vm_compute; reflexivity|].
  split; [reflexivity|]. vm_compute. discriminate.
Qed.

(** The state in which the loop is entered for the second time, with a
    budget of three splits. *)
Lemma ex_Head_second_pass :
  exists w w',
    Head ex_ds ex_y 1 rand_zero [0; 1; 2; 3] 3 1%float 1 w
    /\ selectExpand ex_ds ex_y 1 rand_zero 3 1%float 1 w = OK (Some 2, w').
Proof.
  eexists. eexists. split.
  - eapply Head_next.
    + eapply (Head_root _ _ _ _ _ _ _ fresh_World);
        [exact unused_fresh | vm_compute; reflexivity].
    + vm_compute. reflexivity.
    + lia.
  - vm_compute. reflexivity.
Defined.

(** C3 (amended) at the second pass on the small data set. *)
Lemma frontier_size_at_loop_head_witness :
  exists w,
    Head ex_ds ex_y 1 rand_zero [0; 1; 2; 3] 3 1%float 1 w
    /\ 1 = selectedCount w
    /\ Z.of_nat (length (frontiers_ w)) = selectedCount w + 1
    /\ forall n' w',
        selectExpand ex_ds ex_y 1 rand_zero 3 1%float 1 w = OK (Some n', w') ->
        n' = selectedCount w'
        /\ Z.of_nat (length (frontiers_ w'))
           = if n' =? 3 then selectedCount w' - 1 else selectedCount w' + 1.
Proof.
  destruct ex_Head_second_pass as (w & _ & H & _). exists w.
  split; [exact H|].
  exact (frontier_size_at_loop_head ex_ds ex_y 1 rand_zero _ _ _ _ _ H).
Defined.

(** C5, counterexample to the claim as stated: in the second pass on the
    small data set the frontier holds the two children of the root, with
    the same gain; the first is chosen, and its gain is not strictly
    greater than the gain of the other. *)
Lemma selection_tie_counterexample :
  exists w w' sp sq,
    Head ex_ds ex_y 1 rand_zero [0; 1; 2; 3] 3 1%float 1 w
    /\ selectExpand ex_ds ex_y 1 rand_zero 3 1%float 1 w = OK (Some 2, w')
    /\ frontiers_ w = [1; 2]%nat
    /\ is_selected (allSplits_ w) 1 = false
    /\ is_selected (allSplits_ w') 1 = true
    /\ is_selected (allSplits_ w') 2 = false
    /\ nth_error (allSplits_ w) 1 = Some sp
    /\ nth_error (allSplits_ w) 2 = Some sq
    /\ gain sp = 0.5%float /\ gain sq = 0.5%float
    /\ (gain sq <? gain sp)%float = false.
Proof.
  eexists. eexists. eexists. eexists. split.
  { eapply Head_next.
    - eapply (Head_root _ _ _ _ _ _ _ fresh_World);
        [exact unused_fresh | vm_compute; reflexivity].
    - vm_compute. reflexivity.
    - lia. }
  split; [vm_compute; reflexivity|].
  split; [reflexivity|].
  split; [reflexivity|].
  split; [reflexivity|].
  split; [reflexivity|].
  split; [reflexivity|].
  split; [reflexivity|].
  split; [reflexivity|].
  split; [reflexivity|].
  vm_compute. reflexivity.
Qed.

(** C5 (amended) at the second pass on the small data set. *)
Lemma selectExpand_first_best_witness :
  exists w w',
    Head ex_ds ex_y 1 rand_zero [0; 1; 2; 3] 3 1%float 1 w
    /\ selectExpand ex_ds ex_y 1 rand_zero 3 1%float 1 w = OK (Some 2, w')
    /\ exists pos p sp,
        nth_error (frontiers_ w) pos = Some p
        /\ nth_error (allSplits_ w) p = Some sp
        /\ is_selected (allSplits_ w) p = false
        /\ is_selected (allSplits_ w') p = true
        /\ (forall q, q <> p ->
              is_selected (allSplits_ w') q = is_selected (allSplits_ w) q)
        /\ (0 <? gain sp)%float = true
        /\ forall j q sq,
            nth_error (frontiers_ w) j = Some q ->
            nth_error (allSplits_ w) q = Some sq ->
            (gain sq <=? gain sp)%float = true
            /\ ((j < pos)%nat -> (gain sq <? gain sp)%float = true).
Proof.
  destruct ex_Head_second_pass as (w & w' & H & E). exists w, w'.
  split; [exact H|]. split; [exact E|].
  exact (selectExpand_first_best ex_ds ex_y 1 rand_zero _ _ _ _ _ _ _ H E).
Defined.

(** C9 on the small data set. *)
Lemma selected_nodes_have_valid_split_witness :
  unused fresh_World
  /\ (forall root w',
        getBestSplits ex_ds ex_y 1 rand_zero [0; 1; 2; 3] 3 1%float fresh_World
        = OK (root, w') ->
        forall p sp, nth_error (allSplits_ w') p = Some sp ->
          (selected sp = true -> (0 <? gain sp)%float = true)
          /\ ((0 <? gain sp)%float = true ->
              0 <= fid sp < numFeatures_ ex_ds
              /\ exists f,
                  zth_error (features_ ex_ds) (fid sp) = Some f
                  /\ encoding f <> EMPTY
                  /\ 0 <= fv sp <= Z.of_nat (length (transitions f)) - 1
                  /\ forall w, splitExamples ex_ds sp w = OK (split_of sp f, w)))
  /\ (wf_DataSet ex_ds = true -> 3 < 2 ^ 31 ->
      exists w',
        getBestSplits ex_ds ex_y 1 rand_zero [0; 1; 2; 3] 3 1%float fresh_World
        = OK (0%nat, w')).
Proof.
  split; [exact unused_fresh|].
  exact (selected_nodes_have_valid_split ex_ds ex_y 1 rand_zero [0; 1; 2; 3] 3
           1%float fresh_World unused_fresh).
Defined.

(** C6 on the small data set, for two leaves. *)
Lemma leaves_hold_min_leaf_examples_witness :
  wf_DataSet ex_ds = true
  /\ 1 <= 2 /\ int_range 2 /\ int_range (1 * 2)
  /\ numExamples ex_ds < 2 ^ 31
  /\ unused fresh_World
  /\ getTree ex_ds ex_y ex_getLeafVal 1 rand_zero 2 1%float 1%float [0%float]
       fresh_World
     <> Abort (CheckFailed CHECK_leaf_size)
  /\ forall r w',
      getTree ex_ds ex_y ex_getLeafVal 1 rand_zero 2 1%float 1%float [0%float]
        fresh_World = OK (r, w') ->
      forall p sp, nth_error (allSplits_ w') p = Some sp ->
        selected sp = false ->
        1 <= Z.of_nat (length (subset sp)).
Proof.
  assert (wf_DataSet ex_ds = true) as H1 by (vm_compute; reflexivity).
  assert (1 <= 2) as H2 by lia.
  assert (int_range 2) as H3 by (unfold int_range; lia).
  assert (int_range (1 * 2)) as H4 by (unfold int_range; lia).
  assert (numExamples ex_ds < 2 ^ 31) as H5 by (cbn; lia).
  split; [exact H1|]. split; [exact H2|]. split; [exact H3|].
  split; [exact H4|]. split; [exact H5|]. split; [exact unused_fresh|].
  exact (leaves_hold_min_leaf_examples ex_ds ex_y ex_getLeafVal 1 rand_zero 2
           1%float 1%float [0%float] fresh_World H1 H2 H3 H4 H5 unused_fresh).
Defined.

(** C7 on the small data set: four rows, [min_leaf_examples = 256], two
    leaves. *)
Lemma getTree_aborts_on_small_sample_witness :
  exists w1,
    sampleExamples rand_zero 1%float (Z.to_nat (numExamples ex_ds)) 0 []
      fresh_World = OK ([0; 1; 2; 3], w1)
    /\ Z.of_nat (length [0; 1; 2; 3]) < 256 * 2
    /\ 256 * 2 < 2 ^ 31
    /\ getTree ex_ds ex_y ex_getLeafVal 256 rand_zero 2 1%float 1%float
         [0%float] fresh_World
       = Abort (CheckFailed CHECK_sample_size).
Proof.
  eexists.
  assert (Z.of_nat (length [0; 1; 2; 3]) < 256 * 2) as H2 by (cbn; lia).
  assert (256 * 2 < 2 ^ 31) as H3 by lia.
  split; [vm_compute; reflexivity|]. split; [exact H2|]. split; [exact H3|].
  apply (getTree_aborts_on_small_sample ex_ds ex_y ex_getLeafVal 256 rand_zero 2
           1%float 1%float [0%float] fresh_World [0; 1; 2; 3]
           {| allSplits_ := []; frontiers_ := []; randPos := 4 |}).
  - vm_compute. reflexivity.
  - exact H2.
  - exact H3.
Defined.

(** C8 on the small data set, for four leaves: the three gains [100],
    [0.5] and [0.5] are added to the entry of feature [0]. *)
Lemma fimps_accumulates_gains_witness :
  exists tree fimps' w',
    unused fresh_World
    /\ getTree ex_ds ex_y ex_getLeafVal 1 rand_zero 4 1%float 1%float [0%float]
         fresh_World = OK ((tree, fimps'), w')
    /\ fimps' = [101%float]
    /\ exists order,
        Permutation order
          (filter (is_selected (allSplits_ w')) (seq 0 (length (allSplits_ w'))))
        /\ (forall p, In p order ->
              exists sp, nth_error (allSplits_ w') p = Some sp
                         /\ selected sp = true /\ (0 <? gain sp)%float = true)
        /\ length fimps' = length [0%float]
        /\ (forall f, zth fimps' f 0%float
                      = fold_left PrimFloat.add
                          (gains_on (allSplits_ w') f order)
                          (zth [0%float] f 0%float))
        /\ (forall f,
              (forall p sp, nth_error (allSplits_ w') p = Some sp ->
                            selected sp = true -> fid sp <> f) ->
              zth fimps' f 0%float = zth [0%float] f 0%float).
Proof.
  eexists. eexists. eexists.
  split; [exact unused_fresh|].
  split; [vm_compute; reflexivity|].
  split; [reflexivity|].
  eapply (fimps_accumulates_gains ex_ds ex_y ex_getLeafVal 1 rand_zero 4
            1%float 1%float [0%float] fresh_World);
    [exact unused_fresh | vm_compute; reflexivity].
Defined.

(** C4, the run that breaks the claim: [getTree] for one leaf, that is
    [numSplits = 0].  The body of the [do ... while] runs once before
    [numSplits] is looked at and expands the root: one node is selected
    although the budget is zero, and the tree has two leaves. *)
Theorem getTree_one_leaf_expands_the_root :
  exists w,
    getTree ex_ds ex_y ex_getLeafVal 1 rand_zero 1 1%float 1%float [0%float]
      fresh_World
    = OK ((Some (PartitionNode 0 1 4%float (Some (LeafNode 2%float))
                   (Some (LeafNode 2%float))),
           [100%float]), w)
    /\ selectedCount w = 1
    /\ exists w1,
        getBestSplits ex_ds ex_y 1 rand_zero [0; 1; 2; 3] 0 1%float
          {| allSplits_ := []; frontiers_ := []; randPos := 4 |}
        = OK (0%nat, w1)
        /\ selectedCount w1 = 1.
Proof.
  eexists. split; [vm_compute; reflexivity|].
  split; [vm_compute; reflexivity|].
  eexists. split; vm_compute; reflexivity.
Qed.

(** ** The biased coin at rate [1.0] *)

Lemma coin_one_RAND_MAX : coin 1%float RAND_MAX = false.
Proof. vm_compute. reflexivity. Qed.

Lemma sampleExamples_rand_max n : forall i st w,
  exists w', sampleExamples rand_max 1%float n i st w = OK (st, w').
Proof.
  induction n as [|n IH]; intros i st w.
  - exists w. reflexivity.
  - cbn [sampleExamples]. unfold bind at 1. rewrite biasedCoinFlip_OK.
    change (rand_max (randPos w)) with RAND_MAX.
    rewrite coin_one_RAND_MAX. apply IH.
Qed.

Lemma scanFeatures_rand_max ds y flags st ts n :
  forall fid bf bv bg w,
  match scanFeatures ds y flags rand_max st ts 1%float n fid bf bv bg w with
  | OK (res, _) => res = (bf, bv, bg)
  | Abort _ => True
  end.
Proof.
  induction n as [|n IH]; intros fid bf bv bg w.
  - reflexivity.
  - cbn [scanFeatures]. unfold bind at 1.
    destruct (zth_error (features_ ds) fid) as [f|]; cbn [lift_opt ret fail];
      [|exact I].
    unfold bind at 1.
    destruct (encoding f); cbn [encoding_eqb ret].
    + apply IH.
    + unfold bind at 1. rewrite biasedCoinFlip_OK.
      change (rand_max (randPos w)) with RAND_MAX.
      rewrite coin_one_RAND_MAX. cbn [negb ret]. apply IH.
    + unfold bind at 1. rewrite biasedCoinFlip_OK.
      change (rand_max (randPos w)) with RAND_MAX.
      rewrite coin_one_RAND_MAX. cbn [negb ret]. apply IH.
Qed.

(** C10.  [biasedCoinFlip p] is [true] exactly when the draw of [rand()]
    is below [p * RAND_MAX] as a double; at [p = 1.0] it is [false] under
    any stream whose next draw is [RAND_MAX].  So under the stream whose
    draws are all [RAND_MAX], at rate [1.0], the sampling loop of [getTree]
    takes no row and the loop over the features of [getBestSplit] skips
    every feature: on the small data set the root then has no split, where
    the stream of zeros finds the split on feature [0]. *)
Theorem biasedCoinFlip_rate_one_can_miss :
  (forall rs p w,
     exists w',
       biasedCoinFlip rs p w
       = OK ((Z2double (rs (randPos w)) <? p * Z2double RAND_MAX)%float, w')
       /\ randPos w' = S (randPos w))
  /\ (Z2double RAND_MAX <? 1 * Z2double RAND_MAX)%float = false
  /\ (forall rs w,
        exists w',
          biasedCoinFlip
            (fun k => if Nat.eqb k (randPos w) then RAND_MAX else rs k)
            1%float w = OK (false, w'))
  /\ (forall n i st w,
        exists w', sampleExamples rand_max 1%float n i st w = OK (st, w'))
  /\ (forall ds y flags st ts n fid bf bv bg w,
        match scanFeatures ds y flags rand_max st ts 1%float n fid bf bv bg w with
        | OK (res, _) => res = (bf, bv, bg)
        | Abort _ => True
        end)
  /\ (exists w w',
        getBestSplit ex_ds ex_y 1 rand_zero [0; 1; 2; 3] 1%float false fresh_World
        = OK (0%nat, w)
        /\ map fid (allSplits_ w) = [0]
        /\ getBestSplit ex_ds ex_y 1 rand_max [0; 1; 2; 3] 1%float false fresh_World
           = OK (0%nat, w')
        /\ map fid (allSplits_ w') = [-1]).
Proof.
  split.
  { intros rs p w. eexists. rewrite biasedCoinFlip_OK. split; reflexivity. }
  split; [vm_compute; reflexivity|].
  split.
  { intros rs w. eexists. rewrite biasedCoinFlip_OK.
    rewrite Nat.eqb_refl, coin_one_RAND_MAX. reflexivity. }
  split; [intros; apply sampleExamples_rand_max|].
  split; [intros; apply scanFeatures_rand_max|].
  eexists. eexists.
  split; [vm_compute; reflexivity|]. split; [reflexivity|].
  split; [vm_compute; reflexivity|]. reflexivity.
Qed.


(** ** The further properties on the small data set *)

(** X2 at the root of the small data set: the only feature is evaluated
    and kept. *)
Lemma getBestSplit_first_best_feature_witness :
  exists p w',
    getBestSplit ex_ds ex_y 1 rand_zero [0; 1; 2; 3] 1%float false fresh_World
    = OK (p, w')
    /\ let cs := featureCands ex_y 1 rand_zero [0; 1; 2; 3]
                   (sumTargets ex_y [0; 1; 2; 3] 0%float) 1%float
                   (firstn (Z.to_nat (numFeatures_ ex_ds)) (features_ ex_ds))
                   (randPos fresh_World) in
       exists sp,
         nth_error (allSplits_ w') p = Some sp
         /\ subset sp = [0; 1; 2; 3] /\ selected sp = false
         /\ ((fid sp = -1 /\ fv sp = 0 /\ gain sp = 0%float
              /\ forall j v g, nth_error cs j = Some (Some (v, g)) ->
                               (0 <? g)%float = false)
             \/ (exists j,
                   fid sp = Z.of_nat j
                   /\ nth_error cs j = Some (Some (fv sp, gain sp))
                   /\ (0 <? gain sp)%float = true
                   /\ (forall i v g, nth_error cs i = Some (Some (v, g)) ->
                                     (gain sp <? g)%float = false)
                   /\ (forall i v g, (i < j)%nat ->
                                     nth_error cs i = Some (Some (v, g)) ->
                                     (gain sp <=? g)%float = false))).
Proof.
  eexists. eexists. split; [vm_compute; reflexivity|].
  refine (getBestSplit_first_best_feature ex_ds ex_y 1 rand_zero [0; 1; 2; 3]
            1%float fresh_World _ _ _).
  vm_compute. reflexivity.
Defined.

(** X3 at the root of the small data set: one feature, one draw. *)
Lemma getBestSplit_draws_witness :
  exists p w',
    getBestSplit ex_ds ex_y 1 rand_zero [0; 1; 2; 3] 1%float false fresh_World
    = OK (p, w')
    /\ randPos w'
       = (randPos fresh_World
          + countNonEmpty
              (firstn (Z.to_nat (numFeatures_ ex_ds)) (features_ ex_ds)))%nat.
Proof.
  eexists. eexists. split; [vm_compute; reflexivity|].
  refine (getBestSplit_draws ex_ds ex_y 1 rand_zero [0; 1; 2; 3] 1%float false
            fresh_World _ _ _).
  vm_compute. reflexivity.
Defined.

(** X4 on the small data set: four rows, [min_leaf_examples = 3]. *)
Lemma getBestSplit_too_few_rows_witness :
  Z.of_nat (length [0; 1; 2; 3]) < 2 * 3
  /\ exists p w',
      getBestSplit ex_ds ex_y 3 rand_zero [0; 1; 2; 3] 1%float false fresh_World
      = OK (p, w')
      /\ nth_error (allSplits_ w') p = Some (new_SplitNode [0; 1; 2; 3]).
Proof.
  assert (Z.of_nat (length [0; 1; 2; 3]) < 2 * 3) as H by (cbn; lia).
  split; [exact H|]. eexists. eexists. split; [vm_compute; reflexivity|].
  refine (getBestSplit_too_few_rows ex_ds ex_y 3 rand_zero [0; 1; 2; 3] 1%float
            false fresh_World _ _ H _).
  vm_compute. reflexivity.
Defined.


(** X7 on the small data set, for three leaves. *)
Lemma getTree_mirrors_arena_witness :
  exists t fimps' w',
    unused fresh_World
    /\ getTree ex_ds ex_y ex_getLeafVal 1 rand_zero 3 1%float 1%float [0%float]
         fresh_World = OK ((t, fimps'), w')
    /\ exists tree,
        t = Some tree /\ Mirrors ex_y ex_getLeafVal (allSplits_ w') 0 tree.
Proof.
  eexists. eexists. eexists.
  split; [exact unused_fresh|]. split; [vm_compute; reflexivity|].
  eapply (getTree_mirrors_arena ex_ds ex_y ex_getLeafVal 1 rand_zero 3
            1%float 1%float [0%float] fresh_World);
    [exact unused_fresh | vm_compute; reflexivity].
Defined.

(** X8 on the small data set, for three leaves. *)
Lemma getTree_size_witness :
  exists t fimps' w',
    unused fresh_World
    /\ getTree ex_ds ex_y ex_getLeafVal 1 rand_zero 3 1%float 1%float [0%float]
         fresh_World = OK ((t, fimps'), w')
    /\ exists tree,
        t = Some tree
        /\ numLeafNodes tree = S (numInternal tree)
        /\ (numLeafNodes tree + numInternal tree)%nat = length (allSplits_ w')
        /\ Z.of_nat (numInternal tree) = selectedCount w'
        /\ Z.of_nat (numInternal tree) <= Z.max 1 (3 - 1)
        /\ Z.of_nat (numLeafNodes tree) <= Z.max 2 3.
Proof.
  eexists. eexists. eexists.
  split; [exact unused_fresh|]. split; [vm_compute; reflexivity|].
  eapply (getTree_size ex_ds ex_y ex_getLeafVal 1 rand_zero 3
            1%float 1%float [0%float] fresh_World);
    [exact unused_fresh | vm_compute; reflexivity].
Defined.

(** X9 on the small data set, for three leaves. *)
Lemma getTree_partition_nodes_valid_witness :
  exists t fimps' w',
    wf_DataSet ex_ds = true
    /\ unused fresh_World
    /\ getTree ex_ds ex_y ex_getLeafVal 1 rand_zero 3 1%float 1%float [0%float]
         fresh_World = OK ((t, fimps'), w')
    /\ exists tree, t = Some tree /\ TreeOK ex_ds tree.
Proof.
  eexists. eexists. eexists.
  split; [reflexivity|]. split; [exact unused_fresh|].
  split; [vm_compute; reflexivity|].
  eapply (getTree_partition_nodes_valid ex_ds ex_y ex_getLeafVal 1 rand_zero 3
            1%float 1%float [0%float] fresh_World);
    [reflexivity | exact unused_fresh | vm_compute; reflexivity].
Defined.


(** X10 on the small data set, for three leaves. *)
Lemma getTree_leaves_partition_sample_witness :
  exists t fimps' w',
    unused fresh_World
    /\ getTree ex_ds ex_y ex_getLeafVal 1 rand_zero 3 1%float 1%float [0%float]
         fresh_World = OK ((t, fimps'), w')
    /\ let st := sampledRows rand_zero 1%float (randPos fresh_World)
                   (Z.to_nat (numExamples ex_ds)) 0 in
       NoDup st /\ Permutation (leafRows (allSplits_ w')) st.
Proof.
  eexists. eexists. eexists.
  split; [exact unused_fresh|]. split; [vm_compute; reflexivity|].
  eapply (getTree_leaves_partition_sample ex_ds ex_y ex_getLeafVal 1 rand_zero
            3 1%float 1%float [0%float] fresh_World);
    [exact unused_fresh | vm_compute; reflexivity].
Defined.

(** X11 on the small data set, for three leaves. *)
Lemma getTree_subsets_are_sampled_rows_witness :
  exists t fimps' w',
    unused fresh_World
    /\ getTree ex_ds ex_y ex_getLeafVal 1 rand_zero 3 1%float 1%float [0%float]
         fresh_World = OK ((t, fimps'), w')
    /\ forall p sp, nth_error (allSplits_ w') p = Some sp ->
         NoDup (subset sp)
         /\ forall x, In x (subset sp) ->
              0 <= x < numExamples ex_ds
              /\ coin 1%float (rand_zero (randPos fresh_World + Z.to_nat x))
                 = true.
Proof.
  eexists. eexists. eexists.
  split; [exact unused_fresh|]. split; [vm_compute; reflexivity|].
  eapply (getTree_subsets_are_sampled_rows ex_ds ex_y ex_getLeafVal 1 rand_zero
            3 1%float 1%float [0%float] fresh_World);
    [exact unused_fresh | vm_compute; reflexivity].
Defined.

(** X12 at the second pass on the small data set. *)
Lemma frontier_is_the_unselected_nodes_witness :
  exists w,
    Head ex_ds ex_y 1 rand_zero [0; 1; 2; 3] 3 1%float 1 w
    /\ Permutation (frontiers_ w)
         (filter (fun p => negb (is_selected (allSplits_ w) p))
            (seq 0 (length (allSplits_ w)))).
Proof.
  destruct ex_Head_second_pass as (w & _ & H & _). exists w.
  split; [exact H|].
  exact (frontier_is_the_unselected_nodes ex_ds ex_y 1 rand_zero _ _ _ _ _ H).
Defined.

(** X13 on the small data set: a second call for three leaves. *)
Lemma getTree_single_use_witness :
  exists t fimps' w',
    wf_DataSet ex_ds = true
    /\ unused fresh_World
    /\ 3 <> 2
    /\ getTree ex_ds ex_y ex_getLeafVal 1 rand_zero 3 1%float 1%float [0%float]
         fresh_World = OK ((t, fimps'), w')
    /\ (getTree ex_ds ex_y ex_getLeafVal 1 rand_zero 3 1%float 1%float fimps' w'
        = Abort (CheckFailed CHECK_sample_size)
        \/ getTree ex_ds ex_y ex_getLeafVal 1 rand_zero 3 1%float 1%float
             fimps' w'
           = Abort (CheckFailed CHECK_frontier_size)).
Proof.
  assert (3 <> 2) as Hne by lia.
  eexists. eexists. eexists.
  split; [reflexivity|]. split; [exact unused_fresh|]. split; [exact Hne|].
  split; [vm_compute; reflexivity|].
  eapply (getTree_single_use ex_ds ex_y ex_getLeafVal 1 rand_zero 3
            1%float 1%float [0%float] fresh_World);
    [reflexivity | exact unused_fresh | exact Hne | vm_compute; reflexivity].
Defined.

(** X14 on the small data set: four rows, [min_leaf_examples = 3], one
    leaf. *)
Lemma getTree_small_sample_single_leaf_witness :
  wf_DataSet ex_ds = true
  /\ unused fresh_World
  /\ let st := sampledRows rand_zero 1%float (randPos fresh_World)
                 (Z.to_nat (numExamples ex_ds)) 0 in
     to_size_t (3 * 1) <= Z.of_nat (length st)
     /\ to_size_t 3 <= Z.of_nat (length st)
     /\ Z.of_nat (length st) < 2 * 3
     /\ exists w',
         getTree ex_ds ex_y ex_getLeafVal 3 rand_zero 1 1%float 1%float
           [0%float] fresh_World
         = OK ((Some (LeafNode (ex_getLeafVal st ex_y)), [0%float]), w')
         /\ length (allSplits_ w') = 1%nat.
Proof.
  split; [reflexivity|]. split; [exact unused_fresh|]. cbv zeta.
  assert (to_size_t (3 * 1)
          <= Z.of_nat (length (sampledRows rand_zero 1%float
                                 (randPos fresh_World)
                                 (Z.to_nat (numExamples ex_ds)) 0))) as H1
    by (vm_compute; congruence).
  assert (to_size_t 3
          <= Z.of_nat (length (sampledRows rand_zero 1%float
                                 (randPos fresh_World)
                                 (Z.to_nat (numExamples ex_ds)) 0))) as H2
    by (vm_compute; congruence).
  assert (Z.of_nat (length (sampledRows rand_zero 1%float
                              (randPos fresh_World)
                              (Z.to_nat (numExamples ex_ds)) 0)) < 2 * 3) as H3
    by (vm_compute; congruence).
  split; [exact H1|]. split; [exact H2|]. split; [exact H3|].
  exact (getTree_small_sample_single_leaf ex_ds ex_y ex_getLeafVal 3 rand_zero 1
           1%float 1%float [0%float] fresh_World eq_refl unused_fresh H1 H2 H3).
Defined.

